(** * MJPEG relay of the DroidCam viewers: frame extraction, pacing,
      transcoding, multipart framing and endpoint selection.

    The development embeds the Python sources
    - [ef.py]: [DroidCamStreamer.scan_endpoints],
      [DroidCamStreamer.stream_with_fps_limit], [stream_video] and its inner
      [generate];
    - [fastapi_viewer.py]: [DroidCamStreamer.stream_with_fps_limit];
    - [webrtc_viewer.py]: [extract_jpeg_frame];
    - [cv.py]: [scan_endpoints].

    Conventions.  A Python [bytes]/[bytearray] is a [list byte]; a [str] is a
    [string]; a Python [int] is a [Z] (a length is a [nat]); a Python [float]
    holding a time or a duration is a rational [Q], on which the operations
    are exact.  The code computes on binary64 numbers, whose operations are
    rounded: what is stated on these models is a distinction of cases on
    the outcome of the comparisons that the code makes, and no bound on a
    duration is derived from the exact arithmetic.  The FPS control of
    [generate] is also given on binary64 numbers, in [Ef64].  The wall clock
    is part of the state: [time.time()] reads it, and the environment says
    how much time elapses between two reads.  What a relay does is recorded
    as a trace of events (requests, sleeps, yields).  Logging, [print] and
    the statistics counters are left out: nothing in the relays reads
    them. *)

From Stdlib Require Import List ZArith Lia Bool Arith.
From Stdlib Require Import Strings.String Strings.Ascii Strings.Byte.
From Stdlib Require Import Numbers.DecimalString Numbers.DecimalNat.
From Stdlib Require Import QArith Qround Lqa.
From Stdlib Require Import Sorting.Permutation.
From Stdlib Require Floats.PrimFloat Floats.FloatOps Floats.SpecFloat.
Import ListNotations.

Close Scope Q_scope.
Open Scope string_scope.
Open Scope list_scope.
Open Scope Z_scope.

(* ================================================================== *)
(** * Python primitives used by the sources *)
(* ================================================================== *)

Module Py.

Definition bytes := list byte.

(** [buf.startswith(sub)] *)
Fixpoint starts_with (sub buf : bytes) : bool :=
  match sub, buf with
  | [], _ => true
  | _ :: _, [] => false
  | a :: sub', b :: buf' => Byte.eqb a b && starts_with sub' buf'
  end.

(** Offset of the first occurrence of [sub] in [buf], scanning left to
    right. *)
Fixpoint index_of (sub buf : bytes) : option nat :=
  if starts_with sub buf then Some O
  else match buf with
       | [] => None
       | _ :: buf' => option_map S (index_of sub buf')
       end.

(** Python's normalisation of a slice index against a length. *)
Definition clamp (i len : Z) : Z :=
  if i <? 0 then Z.max 0 (i + len) else Z.min i len.

(** [buf.find(sub, start)]: lowest index [>= start] at which [sub] occurs,
    or [-1]. *)
Definition find (buf sub : bytes) (start : Z) : Z :=
  let len := Z.of_nat (List.length buf) in
  let s := if start <? 0 then Z.max 0 (start + len) else start in
  if len <? s then -1
  else match index_of sub (skipn (Z.to_nat s) buf) with
       | Some i => s + Z.of_nat i
       | None => -1
       end.

(** [buf[a:b]] *)
Definition slice (buf : bytes) (a b : Z) : bytes :=
  let len := Z.of_nat (List.length buf) in
  let a' := clamp a len in
  let b' := clamp b len in
  firstn (Z.to_nat (b' - a')) (skipn (Z.to_nat a') buf).

(** What is left of [buf] after [del buf[:b]], which is also [buf[b:]]. *)
Definition drop_to (buf : bytes) (b : Z) : bytes :=
  skipn (Z.to_nat (clamp b (Z.of_nat (List.length buf)))) buf.

(** [s.encode('ascii')] on text that is ASCII. *)
Definition encode (s : string) : bytes := list_byte_of_string s.

(** [str(n)] for a length. *)
Definition str_of_nat (n : nat) : string :=
  NilEmpty.string_of_uint (Nat.to_uint n).

(** [int(s)] on a string of decimal digits. *)
Definition nat_of_str (s : string) : option nat :=
  option_map Nat.of_uint (NilEmpty.uint_of_string s).

(** [str(z)] for an integer. *)
Definition str_of_Z (z : Z) : string :=
  NilEmpty.string_of_int (Z.to_int z).

(** [c.lower()] on ASCII letters; other characters are left alone (header
    values are ASCII text). *)
Definition lower_ascii (c : ascii) : ascii :=
  let n := nat_of_ascii c in
  if ((65 <=? n) && (n <=? 90))%nat then ascii_of_nat (n + 32)%nat else c.

Fixpoint lower (s : string) : string :=
  match s with
  | EmptyString => EmptyString
  | String c s' => String (lower_ascii c) (lower s')
  end.

(** [needle in hay] on strings. *)
Definition str_in (needle hay : string) : bool :=
  match String.index 0%nat needle hay with
  | Some _ => true
  | None => false
  end.

(** The carriage return / line feed pair written [\r\n] in the sources. *)
Definition CRLF : string :=
  String (ascii_of_nat 13%nat) (String (ascii_of_nat 10%nat) EmptyString).

(** Truth value of an [Optional[float]]: [None] and [0.0] are false. *)
Definition truthy (x : option Q) : bool :=
  match x with
  | None => false
  | Some q => negb (Qeq_bool q 0%Q)
  end.

(** [x < y] on times. *)
Definition Qltb (x y : Q) : bool := negb (Qle_bool y x).

End Py.

Import Py.

(* ================================================================== *)
(** * The environment of a relay: upstream responses, the clock, traces *)
(* ================================================================== *)

Module Env.

(** What the upstream answers to one GET: the status line, the
    [Content-Type] header when there is one, the chunks that iterating over
    the body delivers, and the exception (its [str]) that the iteration
    raises after them, if it does not end normally. *)
Record response := {
  status : Z;
  content_type_header : option string;
  body : list bytes;
  body_error : option string
}.

(** [session.get(url)] either raises (connection refused, timeout, ...) or
    answers. *)
Inductive get_result :=
| GetRaise (error : string)
| GetOk (r : response).

(** [response.headers.get('content-type', '')] *)
Definition content_type (r : response) : string :=
  match content_type_header r with
  | Some v => v
  | None => ""
  end.

(** Time that elapses around the handling of one item (a frame in
    [generate], a chunk in [stream_with_fps_limit]): [before] the clock is
    read for the rate decision, in excess of the requested duration when
    [asyncio.sleep] is awaited ([oversleep]), and between the rate decision
    and the second reading of the clock ([work]). *)
Record latency := { before : Q; oversleep : Q; work : Q }.

(** What a relay does that can be observed. *)
Inductive event :=
| Get (url : string)                  (* [session.get(url)] *)
| Sleep (d : Q)                       (* [await asyncio.sleep(d)] *)
| Yield (at_time : Q) (data : bytes)  (* [yield data]; [at_time] is the
                                         clock value stored just before *)
| Notice (text : string).             (* [yield text.encode()] *)

(** The data of the [Yield]s of a trace, in order. *)
Fixpoint yielded (evs : list event) : list bytes :=
  match evs with
  | [] => []
  | Yield _ d :: evs' => d :: yielded evs'
  | _ :: evs' => yielded evs'
  end.

(** The URLs requested in a trace, in order. *)
Fixpoint contacted (evs : list event) : list string :=
  match evs with
  | [] => []
  | Get u :: evs' => u :: contacted evs'
  | _ :: evs' => contacted evs'
  end.

(** [d.get(k)] on a dict written as its list of items. *)
Fixpoint dict_get {V : Type} (d : list (string * V)) (k : string) : option V :=
  match d with
  | [] => None
  | (k', v) :: d' => if String.eqb k k' then Some v else dict_get d' k
  end.

(** ['multipart/x-mixed-replace' in content_type or 'image/jpeg' in
    content_type] *)
Definition is_mjpeg (content_type : string) : bool :=
  str_in "multipart/x-mixed-replace" content_type
  || str_in "image/jpeg" content_type.

End Env.

Import Env.

(* ================================================================== *)
(** * ef.py *)
(* ================================================================== *)

Module Ef.

(** ** The JPEG frame extractor of [generate] *)

(** [SOI = b"\xff\xd8"], [EOI = b"\xff\xd9"] *)
Definition SOI : bytes := [xff; xd8].
Definition EOI : bytes := [xff; xd9].

(** One turn of the [while True] loop of [generate] on the buffer alone:
    [Some (frame_bytes, buffer')] when a frame is cut out, [None] when the
    loop takes its [break]. *)
Definition extract_step (buffer : bytes) : option (bytes * bytes) :=
  let start := find buffer SOI 0 in
  let end_ := find buffer EOI (start + 2) in
  if negb (start =? -1) && negb (end_ =? -1) then
    let end2 := end_ + 2 in
    Some (slice buffer start end2, drop_to buffer end2)
  else None.

(** The same turn with the offsets as naturals: [i] is the offset of the
    first SOI and [j] the offset of the first EOI counted from [i + 2].
    [extract_step_offsets] shows that it is [extract_step]. *)
Definition extract_offsets (buffer : bytes) : option (bytes * bytes) :=
  match index_of SOI buffer with
  | None => None
  | Some i =>
      match index_of EOI (skipn (i + 2) buffer) with
      | None => None
      | Some j =>
          Some (firstn (j + 4) (skipn i buffer), skipn (i + j + 4) buffer)
      end
  end.

(** The [while True] loop, run for at most [fuel] turns. *)
Fixpoint drain_fuel (fuel : nat) (buffer : bytes) : list bytes * bytes :=
  match fuel with
  | O => ([], buffer)
  | S fuel' =>
      match extract_step buffer with
      | Some (frame_bytes, buffer') =>
          let '(frames, rest) := drain_fuel fuel' buffer' in
          (frame_bytes :: frames, rest)
      | None => ([], buffer)
      end
  end.

(** Every turn deletes at least one byte, so the length of the buffer is
    enough fuel (see [drain_complete]). *)
Definition drain (buffer : bytes) : list bytes * bytes :=
  drain_fuel (List.length buffer) buffer.

(** [buffer.extend(chunk)] followed by the extraction loop: the frames cut
    out, in order, and the buffer left behind. *)
Definition feed (buffer chunk : bytes) : list bytes * bytes :=
  drain (buffer ++ chunk).

(** Feeding a sequence of chunks one at a time to the same buffer. *)
Fixpoint feed_chunks (buffer : bytes) (chunks : list bytes)
  : list bytes * bytes :=
  match chunks with
  | [] => ([], buffer)
  | chunk :: chunks' =>
      let '(frames, buffer') := feed buffer chunk in
      let '(frames', buffer'') := feed_chunks buffer' chunks' in
      (frames ++ frames', buffer'')
  end.

(** The [async for chunk in ...] loop of [generate] seen from the buffer:
    an empty chunk takes the [break] and ends the loop. *)
Fixpoint pump (buffer : bytes) (chunks : list bytes) : list bytes * bytes :=
  match chunks with
  | [] => ([], buffer)
  | [] :: _ => ([], buffer)
  | chunk :: chunks' =>
      let '(frames, buffer') := feed buffer chunk in
      let '(frames', buffer'') := pump buffer' chunks' in
      (frames ++ frames', buffer'')
  end.

(** ** [stream_video]: the query parameters and what is derived from them *)

Record stream_query := {
  fps_limit : option Q;     (* [Optional[float] = Query(None)] *)
  drop_strategy : string;   (* [Query("none")] *)
  resolution : string;      (* [Query("auto")] *)
  quality : string          (* [Query("high")] *)
}.

Definition default_query : stream_query :=
  {| fps_limit := None; drop_strategy := "none";
     resolution := "auto"; quality := "high" |}.

(** [quality_map = {"high": 90, "medium": 75, "low": 60}] *)
Definition quality_map : list (string * Z) :=
  [("high", 90); ("medium", 75); ("low", 60)].

(** [jpeg_quality = quality_map.get(quality, 85)] *)
Definition jpeg_quality (quality : string) : Z :=
  match dict_get quality_map quality with
  | Some v => v
  | None => 85
  end.

(** [quality in quality_map] *)
Definition in_quality_map (quality : string) : bool :=
  match dict_get quality_map quality with
  | Some _ => true
  | None => false
  end.

(** [frame_interval = (1.0 / float(fps_limit)) if fps_limit else 0.0] *)
Definition frame_interval (fps_limit : option Q) : Q :=
  match fps_limit with
  | Some f => if truthy (Some f) then (1 / f)%Q else 0%Q
  | None => 0%Q
  end.

(** The libraries called by [stream_video]: OpenCV's JPEG codec and
    [resize], and Python's parsing of a ["WxH"] string
    ([w, h = s.split("x")] then [(int(w), int(h))], [None] when that
    raises). *)
Record library := {
  image : Type;
  imdecode : bytes -> option image;        (* [None]: decoding failed *)
  resize : image -> Z * Z -> image + string; (* [inr e]: [cv2.error] raised *)
  imencode : image -> Z -> bool * bytes;   (* [(ok, enc.tobytes())] *)
  parse_size : string -> option (Z * Z)
}.

Section Generate.
Variable lib : library.
Variable q : stream_query.
Variable lat : nat -> latency.

(** [target_size]: [None] for an empty resolution or ["auto"]. *)
Definition target_size : option (Z * Z) :=
  if negb (String.eqb (resolution q) "")
     && negb (String.eqb (lower (resolution q)) "auto")
  then parse_size lib (lower (resolution q))
  else None.

(** The FPS control of [generate]: what happens to the frame at hand. *)
Inductive pace :=
| PaceEmit              (* goes on at once *)
| PaceDrop              (* [continue]: the frame is discarded *)
| PaceSleep (d : Q).    (* [await asyncio.sleep(d)], then goes on *)

Definition fps_control (last_sent now : Q) : pace :=
  let frame_interval := frame_interval (fps_limit q) in
  if Qltb 0 frame_interval then
    let delta := (now - last_sent)%Q in
    if Qltb delta frame_interval then
      if String.eqb (drop_strategy q) "latest" then PaceDrop
      else if String.eqb (drop_strategy q) "oldest" then
        PaceSleep (frame_interval - delta)%Q
      else PaceSleep (frame_interval - delta)%Q
    else PaceEmit
  else PaceEmit.

(** "Decode for optional resize/quality": the bytes to send for a frame,
    or the exception that ends the generator. *)
Definition transcode (frame_bytes : bytes) : bytes + string :=
  if (match target_size with Some _ => true | None => false end)
     || in_quality_map (quality q)
  then
    match imdecode lib frame_bytes with
    | None => inl frame_bytes
    | Some img =>
        match (match target_size with
               | Some size => resize lib img size
               | None => inl img
               end) with
        | inr e => inr e
        | inl img' =>
            let '(ok, enc) := imencode lib img' (jpeg_quality (quality q)) in
            if ok then inl enc else inl frame_bytes
        end
    end
  else inl frame_bytes.

(** "Emit our own multipart frame": [header + frame_bytes + b"\r\n"]. *)
Definition part (frame_bytes : bytes) : bytes :=
  (encode ("--frame" ++ CRLF)%string
   ++ encode ("Content-Type: image/jpeg" ++ CRLF)%string
   ++ encode ("Content-Length: " ++ str_of_nat (List.length frame_bytes)
              ++ CRLF ++ CRLF)%string)
  ++ frame_bytes ++ encode CRLF.

(** The state of one [generate]: the buffer, [last_sent], the clock, and the
    number of frames cut out so far (the frame numbered [n] meets the
    latencies [lat n]). *)
Record session := {
  buffer : bytes;
  last_sent : Q;
  clock : Q;
  seen : nat
}.

(** The body of the [while True] loop after a frame has been cut out. *)
Definition handle_frame (s : session) (frame_bytes : bytes)
  : list event * (session + string) :=
  let l := lat (seen s) in
  let now := (clock s + before l)%Q in
  match fps_control (last_sent s) now with
  | PaceDrop =>
      ([], inl {| buffer := buffer s; last_sent := last_sent s;
                  clock := now; seen := S (seen s) |})
  | p =>
      let '(slept, woke) :=
        match p with
        | PaceSleep d => ([Sleep d], (now + d + oversleep l)%Q)
        | _ => ([], now)
        end in
      match transcode frame_bytes with
      | inr e => (slept, inr e)
      | inl payload =>
          let t := (woke + work l)%Q in
          (slept ++ [Yield t (part payload)],
           inl {| buffer := buffer s; last_sent := t;
                  clock := t; seen := S (seen s) |})
      end
  end.

(** The frames of one chunk, in the order in which they are cut out. *)
Fixpoint handle_frames (s : session) (frames : list bytes)
  : list event * (session + string) :=
  match frames with
  | [] => ([], inl s)
  | frame_bytes :: frames' =>
      match handle_frame s frame_bytes with
      | (evs, inl s') =>
          let '(evs', r) := handle_frames s' frames' in (evs ++ evs', r)
      | (evs, inr e) => (evs, inr e)
      end
  end.

(** One chunk: [buffer.extend(chunk)] and the [while True] loop.  Handling a
    frame does not touch the buffer, so the frames cut out are those of
    [feed]. *)
Definition handle_chunk (s : session) (chunk : bytes)
  : list event * (session + string) :=
  let '(frames, buffer') := feed (buffer s) chunk in
  handle_frames {| buffer := buffer'; last_sent := last_sent s;
                   clock := clock s; seen := seen s |} frames.

(** The [async for chunk in response.content.iter_chunked(16384)] loop; the
    boolean tells whether the iteration was exhausted (rather than left by
    the [break] on an empty chunk). *)
Fixpoint handle_chunks (s : session) (chunks : list bytes)
  : list event * (session * bool + string) :=
  match chunks with
  | [] => ([], inl (s, true))
  | [] :: _ => ([], inl (s, false))
  | chunk :: chunks' =>
      match handle_chunk s chunk with
      | (evs, inl s') =>
          let '(evs', r) := handle_chunks s' chunks' in (evs ++ evs', r)
      | (evs, inr e) => (evs, inr e)
      end
  end.

(** [generate()], for the answer [r] to the GET of [droidcam_url], started
    when the clock shows [t0]; [last_sent = 0.0] at the start. *)
Definition generate (t0 : Q) (r : get_result) : list event :=
  match r with
  | GetRaise e => [Notice ("Stream error: " ++ e)]
  | GetOk resp =>
      let ct := lower (content_type resp) in
      if negb (status resp =? 200) then
        [Notice ("DroidCam status " ++ str_of_Z (status resp))]
      else if str_in "text/html" ct then
        [Notice "DroidCam returned HTML, not MJPEG. Check app permissions/state."]
      else
        match handle_chunks {| buffer := []; last_sent := 0%Q;
                               clock := t0; seen := O |} (body resp) with
        | (evs, inr e) => evs ++ [Notice ("Stream error: " ++ e)]
        | (evs, inl (_, exhausted)) =>
            match body_error resp with
            | Some e =>
                if exhausted then evs ++ [Notice ("Stream error: " ++ e)]
                else evs
            | None => evs
            end
        end
  end.

End Generate.

(** ** [DroidCamStreamer.stream_with_fps_limit] *)

(** The quality-based multiplier applied to the interval before waiting. *)
Definition quality_multiplier (quality : string) : Q :=
  match dict_get [("high", 1%Q); ("medium", (9 # 10)%Q); ("low", (8 # 10)%Q)]
                 quality with
  | Some m => m
  | None => 1%Q
  end.

(** What the FPS limiting does with the chunk at hand. *)
Inductive chunk_pace :=
| Skip                        (* [continue]: the chunk is not yielded *)
| Pass (slept : option Q).    (* yielded, after sleeping if [Some] *)

Definition chunk_control (fps_limit : option Q) (drop_strategy quality : string)
    (last_frame_time current_time : Q) : chunk_pace :=
  let frame_interval :=
    if truthy fps_limit
    then match fps_limit with Some f => (1 / f)%Q | None => 0%Q end
    else 0%Q in
  if truthy fps_limit then
    if Qltb (current_time - last_frame_time) frame_interval then
      if String.eqb drop_strategy "latest" then Skip
      else if String.eqb drop_strategy "oldest" then Skip
      else
        let sleep_time :=
          (frame_interval * quality_multiplier quality
           - (current_time - last_frame_time))%Q in
        Pass (if Qltb 0 sleep_time then Some sleep_time else None)
    else Pass None
  else Pass None.

(** The six candidate URLs, in the order in which they are tried. *)
Definition endpoints (ip : string) (port : Z) : list string :=
  let base := ("http://" ++ ip ++ ":" ++ str_of_Z port)%string in
  [(base ++ "/mjpegfeed")%string; (base ++ "/video")%string;
   (base ++ "/cam/1/stream")%string; (base ++ "/cam/1/mjpeg")%string;
   (base ++ "/")%string; (base ++ "/stream")%string].

Definition error_msg (ip : string) (port : Z) : string :=
  ("No DroidCam streams found at " ++ ip ++ ":" ++ str_of_Z port
   ++ ". Check: 1) DroidCam app is running 2) Phone IP is correct 3) Same WiFi network")%string.

(** How a call ends: the generator returns, or [HTTPException] is raised. *)
Inductive ending :=
| Returned
| HTTPException (status_code : Z) (detail : string).

Section StreamWithFpsLimit.
Variable http : string -> get_result.
Variable fps_limit : option Q.
Variable drop_strategy : string.
Variable quality : string.
Variable lat : nat -> latency.

(** The [async for chunk in response.content.iter_chunked(chunk_size)] loop
    for one endpoint.  [n] counts the chunks met by the call so far and
    [clock] is the time; the boolean tells whether the iteration raised
    [error]. *)
Fixpoint relay_chunks (last_frame_time clock : Q) (n : nat)
    (chunks : list bytes) (error : option string)
  : list event * (bool * Q * nat) :=
  match chunks with
  | [] => ([], (match error with Some _ => true | None => false end, clock, n))
  | [] :: _ => ([], (false, clock, n))
  | chunk :: chunks' =>
      let l := lat n in
      let current_time := (clock + before l)%Q in
      match chunk_control fps_limit drop_strategy quality
                          last_frame_time current_time with
      | Skip => relay_chunks last_frame_time current_time (S n) chunks' error
      | Pass slept =>
          let woke :=
            match slept with
            | Some d => (current_time + d + oversleep l)%Q
            | None => current_time
            end in
          let t := if truthy fps_limit then (woke + work l)%Q else woke in
          let last_frame_time' :=
            if truthy fps_limit then t else last_frame_time in
          let '(evs, r) := relay_chunks last_frame_time' t (S n) chunks' error in
          ((match slept with Some d => [Sleep d] | None => [] end)
           ++ Yield t chunk :: evs, r)
      end
  end.

(** The [for endpoint in endpoints] loop: [true] when the generator
    returned from inside the loop. *)
Fixpoint try_endpoints (clock : Q) (n : nat) (eps : list string)
  : list event * bool :=
  match eps with
  | [] => ([], false)
  | endpoint :: eps' =>
      match http endpoint with
      | GetRaise _ =>
          let '(evs, r) := try_endpoints clock n eps' in
          (Get endpoint :: evs, r)
      | GetOk response =>
          if negb (status response =? 200) then
            let '(evs, r) := try_endpoints clock n eps' in
            (Get endpoint :: evs, r)
          else if is_mjpeg (lower (content_type response)) then
            match relay_chunks 0%Q clock n (body response)
                               (body_error response) with
            | (evs, (true, clock', n')) =>
                let '(evs', r) := try_endpoints clock' n' eps' in
                (Get endpoint :: evs ++ evs', r)
            | (evs, (false, _, _)) => (Get endpoint :: evs, true)
            end
          else
            let '(evs, r) := try_endpoints clock n eps' in
            (Get endpoint :: evs, r)
      end
  end.

Definition stream_with_fps_limit (t0 : Q) (ip : string) (port : Z)
  : list event * ending :=
  let '(evs, returned) := try_endpoints t0 O (endpoints ip port) in
  (evs, if returned then Returned
        else HTTPException 503 (error_msg ip port)).

End StreamWithFpsLimit.

(** ** [DroidCamStreamer.scan_endpoints] *)

(** One value of the [results] dict. *)
Inductive scan_entry :=
| Available (content_type : string) (status_code : Z)   (* ['available'] *)
| NotMjpeg (content_type : string) (status_code : Z)    (* ['not_mjpeg'] *)
| Error (error : string).                               (* ['error'] *)

Definition scan_endpoint (r : get_result) : scan_entry :=
  match r with
  | GetRaise e => Error e
  | GetOk response =>
      let content_type := lower (content_type response) in
      if is_mjpeg content_type
      then Available content_type (status response)
      else NotMjpeg content_type (status response)
  end.

Definition scan_urls (ip : string) (port : Z) : list string :=
  let base := ("http://" ++ ip ++ ":" ++ str_of_Z port)%string in
  [(base ++ "/video")%string; (base ++ "/mjpegfeed")%string;
   (base ++ "/")%string].

(** The [results] dict as its items, in insertion order. *)
Definition scan_endpoints (http : string -> get_result) (ip : string)
    (port : Z) : list (string * scan_entry) :=
  map (fun endpoint => (endpoint, scan_endpoint (http endpoint)))
      (scan_urls ip port).

End Ef.

(* ================================================================== *)
(** * ef.py: the FPS control of [generate] on binary64 numbers *)
(* ================================================================== *)

(** The times of [generate] as the code has them: Python floats, that is
    IEEE 754 binary64 numbers, with their rounded subtraction and division
    and their comparisons.  The bytes of the frames play no part here. *)
Module Ef64.
Import PrimFloat.
Local Open Scope float_scope.

(** Truth value of an [Optional[float]]: [None] and zero are false. *)
Definition truthy (x : option float) : bool :=
  match x with
  | None => false
  | Some f => negb (f =? 0)
  end.

(** [frame_interval = (1.0 / float(fps_limit)) if fps_limit else 0.0] *)
Definition frame_interval (fps_limit : option float) : float :=
  match fps_limit with
  | Some f => if truthy (Some f) then 1 / f else 0
  | None => 0
  end.

(** What the FPS control decides for the frame at hand. *)
Inductive pace :=
| PaceEmit                (* go on at once *)
| PaceDrop                (* [continue]: the frame is not sent *)
| PaceSleep (d : float).  (* [await asyncio.sleep(d)], then go on *)

(** "FPS control", with [now = time.time()]. *)
Definition fps_control (fps_limit : option float) (drop_strategy : string)
    (last_sent now : float) : pace :=
  let frame_interval := frame_interval fps_limit in
  if 0 <? frame_interval then
    let delta := now - last_sent in
    if delta <? frame_interval then
      if String.eqb drop_strategy "latest" then PaceDrop
      else if String.eqb drop_strategy "oldest" then
        PaceSleep (frame_interval - delta)
      else PaceSleep (frame_interval - delta)
    else PaceEmit
  else PaceEmit.

(** What the loop does that bears on the timing. *)
Inductive event :=
| Sleep (d : float)         (* [await asyncio.sleep(d)] *)
| Emit (at_time : float).   (* [last_sent = time.time()], then [yield] *)



End Ef64.

(* ================================================================== *)
(** * webrtc_viewer.py: [extract_jpeg_frame] *)
(* ================================================================== *)

Module WebrtcViewer.

Definition start_marker : bytes := [xff; xd8].
Definition end_marker : bytes := [xff; xd9].

(** [extract_jpeg_frame(self, data)]: the state is [self.frame_buffer]; the
    result is the returned [Optional[bytes]] and the new buffer. *)
Definition extract_jpeg_frame (frame_buffer data : bytes)
  : option bytes * bytes :=
  let frame_buffer := frame_buffer ++ data in
  let start_idx := find frame_buffer start_marker 0 in
  if start_idx =? -1 then (None, frame_buffer)
  else
    let end_idx := find frame_buffer end_marker (start_idx + 2) in
    if end_idx =? -1 then (None, frame_buffer)
    else (Some (slice frame_buffer start_idx (end_idx + 2)),
          drop_to frame_buffer (end_idx + 2)).

(** Calling [extract_jpeg_frame] once per chunk and collecting the frames
    it returns. *)
Fixpoint extract_chunks (frame_buffer : bytes) (chunks : list bytes)
  : list bytes * bytes :=
  match chunks with
  | [] => ([], frame_buffer)
  | data :: chunks' =>
      let '(r, frame_buffer') := extract_jpeg_frame frame_buffer data in
      let '(frames, frame_buffer'') := extract_chunks frame_buffer' chunks' in
      (match r with Some f => f :: frames | None => frames end,
       frame_buffer'')
  end.

End WebrtcViewer.


(* ================================================================== *)
(** * fastapi_viewer.py: the FPS limiting of [stream_with_fps_limit] *)
(* ================================================================== *)

Module FastapiViewer.

(** Same loop as in ef.py, without the quality multiplier. *)
Definition chunk_control (fps_limit : option Q) (drop_strategy : string)
    (last_frame_time current_time : Q) : Ef.chunk_pace :=
  let frame_interval :=
    if truthy fps_limit
    then match fps_limit with Some f => (1 / f)%Q | None => 0%Q end
    else 0%Q in
  if truthy fps_limit then
    if Qltb (current_time - last_frame_time) frame_interval then
      if String.eqb drop_strategy "latest" then Ef.Skip
      else if String.eqb drop_strategy "oldest" then Ef.Skip
      else
        let sleep_time :=
          (frame_interval - (current_time - last_frame_time))%Q in
        Ef.Pass (if Qltb 0 sleep_time then Some sleep_time else None)
    else Ef.Pass None
  else Ef.Pass None.

(** The [async for chunk in response.content.iter_chunked(8192)] loop, as
    in ef.py. *)
Fixpoint relay_chunks (fps_limit : option Q) (drop_strategy : string)
    (lat : nat -> latency) (last_frame_time clock : Q) (n : nat)
    (chunks : list bytes) (error : option string)
  : list event * (bool * Q * nat) :=
  match chunks with
  | [] => ([], (match error with Some _ => true | None => false end, clock, n))
  | [] :: _ => ([], (false, clock, n))
  | chunk :: chunks' =>
      let l := lat n in
      let current_time := (clock + before l)%Q in
      match chunk_control fps_limit drop_strategy
                          last_frame_time current_time with
      | Ef.Skip =>
          relay_chunks fps_limit drop_strategy lat
                       last_frame_time current_time (S n) chunks' error
      | Ef.Pass slept =>
          let woke :=
            match slept with
            | Some d => (current_time + d + oversleep l)%Q
            | None => current_time
            end in
          let t := if truthy fps_limit then (woke + work l)%Q else woke in
          let last_frame_time' :=
            if truthy fps_limit then t else last_frame_time in
          let '(evs, r) :=
            relay_chunks fps_limit drop_strategy lat
                         last_frame_time' t (S n) chunks' error in
          ((match slept with Some d => [Sleep d] | None => [] end)
           ++ Yield t chunk :: evs, r)
      end
  end.

End FastapiViewer.

(* ================================================================== *)
(** * cv.py: [scan_endpoints] *)
(* ================================================================== *)

Module Cv.

(** One element of [results]. *)
Inductive scan_entry :=
| Probed (url : string) (status : Z) (content_type : string)
         (available : bool) (preview : string)
| Failed (url : string) (error : string) (available : bool).

(** The body of the loop for one endpoint.  [head] and [get] are what
    [requests.head] and [requests.get] do for a URL; [preview_of] is the
    text of the first 200 bytes of the first chunk of a body, or the empty
    string when reading it raises. *)
Definition scan_endpoint (head get : string -> get_result)
    (preview_of : response -> string) (endpoint : string) : scan_entry :=
  match head endpoint with
  | GetRaise e => Failed endpoint e false
  | GetOk resp =>
      if 400 <=? status resp then
        match get endpoint with
        | GetRaise e => Failed endpoint e false
        | GetOk resp' =>
            Probed endpoint (status resp') (content_type resp')
                   (status resp' =? 200) (preview_of resp')
        end
      else
        Probed endpoint (status resp) (content_type resp)
               (status resp =? 200) ""
  end.

Definition scan_urls (ip port : string) : list string :=
  let base := ("http://" ++ ip ++ ":" ++ port)%string in
  [(base ++ "/video")%string; (base ++ "/mjpegfeed")%string; base;
   (base ++ "/jpg")%string; (base ++ "/h264")%string].

Definition scan_endpoints (head get : string -> get_result)
    (preview_of : response -> string) (ip port : string) : list scan_entry :=
  map (scan_endpoint head get preview_of) (scan_urls ip port).

End Cv.

(* ================================================================== *)
(** * ef.py: the upstream URL of [stream_video] *)
(* ================================================================== *)

Module EfUrl.

(** [s.split(sep)] for a separator of one character. *)
Fixpoint split (sep : ascii) (s : string) : list string :=
  match s with
  | EmptyString => [EmptyString]
  | String c s' =>
      if Ascii.eqb c sep then EmptyString :: split sep s'
      else match split sep s' with
           | [] => [String c EmptyString]
           | piece :: pieces => String c piece :: pieces
           end
  end.

(** [int(x)] for a float: truncation towards zero. *)
Definition int_of_float (x : Q) : Z :=
  if Qle_bool 0 x then Qfloor x else Qceiling x.

(** The parameters added for the resolution: [w, h = resolution.lower()
    .split("x")] raises, and nothing is added, unless there are exactly two
    pieces. *)
Definition size_params (resolution : string) : list string :=
  if negb (String.eqb resolution "")
     && negb (String.eqb (lower resolution) "auto")
  then
    match split "x" (lower resolution) with
    | [w; h] =>
        [("width=" ++ w)%string; ("height=" ++ h)%string;
         ("resolution=" ++ resolution)%string; ("size=" ++ resolution)%string]
    | _ => []
    end
  else [].

(** The parameters added for the rate. *)
Definition fps_params (fps_limit : option Q) : list string :=
  match fps_limit with
  | Some f =>
      if truthy (Some f) then
        let n := str_of_Z (int_of_float f) in
        [("fps=" ++ n)%string; ("framerate=" ++ n)%string; ("rate=" ++ n)%string]
      else []
  | None => []
  end.

(** [droidcam_url], the one URL that [generate] requests. *)
Definition droidcam_url (ip : string) (port : Z) (q : Ef.stream_query)
  : string :=
  let url := ("http://" ++ ip ++ ":" ++ str_of_Z port ++ "/video")%string in
  let params :=
    size_params (Ef.resolution q) ++ fps_params (Ef.fps_limit q) in
  match params with
  | [] => url
  | _ => (url ++ "?" ++ String.concat "&" params)%string
  end.

End EfUrl.

(* ================================================================== *)
(** * fastapi_viewer.py: [stream_video] and its [generate] *)
(* ================================================================== *)

Module FastapiProxy.

(** What the direct proxy does that can be observed. *)
Inductive event :=
| Sleep (d : Q)          (* [await asyncio.sleep(d)] *)
| Yield (data : bytes)   (* [yield chunk] *)
| Notice (text : string). (* [yield text.encode()] *)

(** The [async for chunk in response.content.iter_chunked(8192)] loop;
    [chunk_count] is its value before the chunk at hand, and the boolean
    tells whether the iteration was exhausted. *)
Fixpoint proxy_chunks (fps_limit : option Q) (chunk_count : nat)
    (chunks : list bytes) : list event * bool :=
  match chunks with
  | [] => ([], true)
  | [] :: _ => ([], false)
  | chunk :: chunks' =>
      let chunk_count := S chunk_count in
      let '(evs, exhausted) := proxy_chunks fps_limit chunk_count chunks' in
      ((match fps_limit with
        | Some f =>
            if truthy (Some f) && (1 <? chunk_count)%nat
            then [Sleep (1 / f / 10)%Q]
            else []
        | None => []
        end) ++ Yield chunk :: evs, exhausted)
  end.

(** The chunks yielded and the sleeps of a trace, in order. *)
Fixpoint yields (evs : list event) : list bytes :=
  match evs with
  | [] => []
  | Yield d :: evs' => d :: yields evs'
  | _ :: evs' => yields evs'
  end.

Fixpoint sleeps (evs : list event) : list Q :=
  match evs with
  | [] => []
  | Sleep d :: evs' => d :: sleeps evs'
  | _ :: evs' => sleeps evs'
  end.

(** [generate()] for the answer [r] to the GET of [droidcam_url];
    [text_error] tells whether [await response.text()] raises. *)
Definition generate (fps_limit : option Q)
    (text_error : response -> option string) (r : get_result) : list event :=
  match r with
  | GetRaise e => [Notice ("Stream error: " ++ e)]
  | GetOk resp =>
      if negb (status resp =? 200) then
        [Notice ("DroidCam returned status " ++ str_of_Z (status resp))]
      else if str_in "text/html" (lower (content_type resp)) then
        match text_error resp with
        | Some e => [Notice ("Stream error: " ++ e)]
        | None =>
            [Notice "DroidCam Error: Received HTML instead of video stream. Check DroidCam app status."]
        end
      else
        let '(evs, exhausted) := proxy_chunks fps_limit O (body resp) in
        match body_error resp with
        | Some e =>
            if exhausted then evs ++ [Notice ("Stream error: " ++ e)] else evs
        | None => evs
        end
  end.

End FastapiProxy.

(* ================================================================== *)
(** * webrtc_viewer.py: [connect_to_stream] *)
(* ================================================================== *)

Module WebrtcTrack.

Definition endpoints (ip : string) (port : Z) : list string :=
  let base := ("http://" ++ ip ++ ":" ++ str_of_Z port)%string in
  [(base ++ "/video")%string; (base ++ "/mjpegfeed")%string;
   (base ++ "/")%string].

(** The [for endpoint in endpoints] loop: the URLs requested, in order, and
    the endpoint and response kept in [self.stream_response] when the
    function returns [True] ([None] when it returns [False]). *)
Fixpoint connect (http : string -> get_result) (eps : list string)
  : list string * option (string * response) :=
  match eps with
  | [] => ([], None)
  | endpoint :: eps' =>
      match http endpoint with
      | GetRaise _ =>
          let '(urls, r) := connect http eps' in (endpoint :: urls, r)
      | GetOk resp =>
          if status resp =? 200 then
            if is_mjpeg (lower (content_type resp))
            then ([endpoint], Some (endpoint, resp))
            else let '(urls, r) := connect http eps' in (endpoint :: urls, r)
          else let '(urls, r) := connect http eps' in (endpoint :: urls, r)
      end
  end.

Definition connect_to_stream (http : string -> get_result) (ip : string)
    (port : Z) : list string * option (string * response) :=
  connect http (endpoints ip port).

End WebrtcTrack.

(* ================================================================== *)
(** * cv.py: [stream_video] and its [generate] *)
(* ================================================================== *)

Module CvStream.

(** One value of [quality_params]. *)
Record quality_param := { res : string; q : string; fps : string }.

Definition quality_params : list (string * quality_param) :=
  [("low", {| res := "320x240"; q := "50"; fps := "15" |});
   ("medium", {| res := "640x480"; q := "75"; fps := "24" |});
   ("high", {| res := "1280x720"; q := "85"; fps := "30" |});
   ("ultra", {| res := "1920x1080"; q := "95"; fps := "60" |})].

(** [params]: the entry of the quality, that of ["medium"] for an unknown
    one, with its [fps] replaced by the request's unless that is ["auto"]. *)
Definition params (quality fps_arg : string) : quality_param :=
  let p := match dict_get quality_params quality with
           | Some p => p
           | None => {| res := "640x480"; q := "75"; fps := "24" |}
           end in
  if negb (String.eqb fps_arg "auto")
  then {| res := res p; q := q p; fps := fps_arg |}
  else p.

Definition endpoints (ip port quality fps_arg : string) : list string :=
  let p := params quality fps_arg in
  let base_url := ("http://" ++ ip ++ ":" ++ port)%string in
  [(base_url ++ "/video?res=" ++ res p ++ "&quality=" ++ q p
             ++ "&fps=" ++ fps p)%string;
   (base_url ++ "/video?quality=" ++ q p ++ "&fps=" ++ fps p)%string;
   (base_url ++ "/video")%string;
   (base_url ++ "/mjpegfeed")%string;
   base_url].

(** ["multipart" in ctype.lower() or "mjpeg" in ctype.lower()] *)
Definition looks_mjpeg (ctype : string) : bool :=
  str_in "multipart" (lower ctype) || str_in "mjpeg" (lower ctype).

(** [r.headers.get("Content-Type", "")] *)
Definition ctype_of (r : response) : string := content_type r.

(** How [stream_video] answers: a streaming response fed by [generate] on
    the upstream response of [endpoint], with the upstream's content type
    and the chunk size used to read it, or the 502 text. *)
Inductive answer :=
| Streaming (endpoint : string) (upstream : response) (content_type : string)
            (chunk_size : Z)
| NotFound (status : Z) (text : string).

(** The [for endpoint in endpoints] loop: the URLs requested, in order, and
    the endpoint chosen, if any. *)
Fixpoint select (http : string -> get_result) (eps : list string)
  : list string * option (string * response) :=
  match eps with
  | [] => ([], None)
  | endpoint :: eps' =>
      match http endpoint with
      | GetRaise _ =>
          let '(urls, r) := select http eps' in (endpoint :: urls, r)
      | GetOk resp =>
          if status resp =? 200 then
            if looks_mjpeg (ctype_of resp)
            then ([endpoint], Some (endpoint, resp))
            else let '(urls, r) := select http eps' in (endpoint :: urls, r)
          else let '(urls, r) := select http eps' in (endpoint :: urls, r)
      end
  end.

(** [stream_video], after [buffer_size = int(...)] has succeeded;
    [amd_gpu_enabled] is the global [AMD_GPU_ENABLED]. *)
Definition stream_video (http : string -> get_result) (amd_gpu_enabled : bool)
    (ip port quality fps_arg : string) (buffer_size : Z)
  : list string * answer :=
  let eps := endpoints ip port quality fps_arg in
  match select http eps with
  | (urls, Some (endpoint, resp)) =>
      (urls,
       Streaming endpoint resp (ctype_of resp)
         (if amd_gpu_enabled then Z.min (buffer_size * 2) 131072
          else buffer_size))
  | (urls, None) =>
      (urls,
       NotFound 502 ("No MJPEG stream found. Tried: " ++ String.concat ", " eps))
  end.

(** ** The jitter buffer of [generate] *)

(** One value of [smoothing_params]. *)
Record smooth_config := {
  window : nat;
  tolerance : Q;
  max_buffer : nat;
  micro_delay : Q
}.

Definition ultra_config : smooth_config :=
  {| window := 10; tolerance := (7 # 10)%Q; max_buffer := 5;
     micro_delay := (3 # 10000)%Q |}.

Definition smoothing_params : list (string * smooth_config) :=
  [("basic", {| window := 5; tolerance := (8 # 10)%Q; max_buffer := 2;
                micro_delay := (1 # 1000)%Q |});
   ("enhanced", {| window := 8; tolerance := (75 # 100)%Q; max_buffer := 3;
                   micro_delay := (5 # 10000)%Q |});
   ("ultra", ultra_config);
   ("cinema", {| window := 15; tolerance := (65 # 100)%Q; max_buffer := 8;
                 micro_delay := (1 # 10000)%Q |})].

(** [smooth_config = smoothing_params.get(smoothing, smoothing_params["ultra"])] *)
Definition smooth_config_of (smoothing : string) : smooth_config :=
  match dict_get smoothing_params smoothing with
  | Some c => c
  | None => ultra_config
  end.

Definition complexity_multiplier (smoothing : string) : Q :=
  match dict_get [("basic", 1%Q); ("enhanced", (8 # 10)%Q);
                  ("ultra", (6 # 10)%Q); ("cinema", (4 # 10)%Q)] smoothing with
  | Some m => m
  | None => (6 # 10)%Q
  end.

(** [frame_interval = 1.0 / target_fps if target_fps > 0 else 1.0/24] *)
Definition frame_interval (target_fps : Q) : Q :=
  if Qltb 0 target_fps then (1 / target_fps)%Q else (1 / 24)%Q.

(** [max(a, b)], [min(a, b)], [max(l)], [min(l)] on floats. *)
Definition qmax (a b : Q) : Q := if Qle_bool a b then b else a.
Definition qmin (a b : Q) : Q := if Qle_bool a b then a else b.

Definition max_of (l : list Q) : Q :=
  match l with
  | [] => 0%Q
  | x :: l' => fold_left qmax l' x
  end.

Definition min_of (l : list Q) : Q :=
  match l with
  | [] => 0%Q
  | x :: l' => fold_left qmin l' x
  end.

(** [[ts[i] - ts[i-1] for i in range(1, len(ts))]] *)
Fixpoint intervals (ts : list Q) : list Q :=
  match ts with
  | a :: ((b :: _) as ts') => (b - a)%Q :: intervals ts'
  | _ => []
  end.

(** What [generate] does that can be observed. *)
Inductive event :=
| Out (data : bytes)   (* [yield] *)
| Nap (d : Q).         (* [time.sleep(d)] *)

(** The local variables of [generate] that outlive one chunk; [jitter] is
    [None] as long as the name is unbound.  ([frame_count],
    [frame_size_history] and [avg_interval] are only written, or read for
    the log.) *)
Record state := {
  last_frame_time : Q;
  frame_timestamps : list Q;
  jitter : option Q;
  adaptive_delay : Q;
  jitter_buffer : list (bytes * Q * Q)
}.

(** [chunk_size_kb = len(chunk) / 1024] *)
Definition chunk_size_kb (chunk : bytes) : Q :=
  (inject_Z (Z.of_nat (List.length chunk)) / 1024)%Q.

(** The sleep after a chunk has been sent, by its size. *)
Definition after_delay (smoothing : string) (size_kb : Q) : Q :=
  if Qltb 50 size_kb then ((8 # 10000) * complexity_multiplier smoothing)%Q
  else if Qltb 20 size_kb then ((3 # 10000) * complexity_multiplier smoothing)%Q
  else ((1 # 10000) * complexity_multiplier smoothing)%Q.

(** The "send buffered frames" loop. *)
Definition flush (cfg : smooth_config) (jb : list (bytes * Q * Q)) : list event :=
  flat_map (fun '(buffered_chunk, _, buffered_size) =>
              [Out buffered_chunk;
               Nap (micro_delay cfg + buffered_size / 1000 * (1 # 10000))%Q])
           jb.

(** The body of the loop for a non-empty chunk that arrives when the clock
    shows [current_time]: what is yielded and slept, and the new state,
    [None] when reading the unbound [jitter] raises. *)
Definition step (smoothing : string) (frame_interval : Q) (s : state)
    (chunk : bytes) (current_time : Q) : list event * option state :=
  let cfg := smooth_config_of smoothing in
  let ts := frame_timestamps s ++ [current_time] in
  let ts := if (window cfg <? List.length ts)%nat then tl ts else ts in
  let '(jit, adaptive) :=
    if (3 <=? List.length ts)%nat then
      let ivs := intervals ts in
      let j := (max_of ivs - min_of ivs)%Q in
      (Some j,
       if Qltb (1 # 100) j then qmin (5 # 1000) (j * (3 # 10))%Q
       else qmax 0 (adaptive_delay s - (1 # 1000))%Q)
    else (jitter s, adaptive_delay s) in
  let time_since_last := (current_time - last_frame_time s)%Q in
  let predicted_next_frame := (frame_interval - adaptive)%Q in
  if Qltb time_since_last (predicted_next_frame * tolerance cfg)%Q then
    let jb := jitter_buffer s ++ [(chunk, current_time, chunk_size_kb chunk)] in
    match jit with
    | None => ([], None)
    | Some j =>
        let dynamic_max_buffer :=
          (max_buffer cfg + (if Qltb (2 # 100) j then 2 else 0))%nat in
        let jb := if (dynamic_max_buffer <? List.length jb)%nat
                  then tl jb else jb in
        ([], Some {| last_frame_time := last_frame_time s;
                     frame_timestamps := ts; jitter := jit;
                     adaptive_delay := adaptive; jitter_buffer := jb |})
    end
  else
    (flush cfg (jitter_buffer s)
     ++ [Out chunk; Nap (after_delay smoothing (chunk_size_kb chunk))],
     Some {| last_frame_time := current_time;
             frame_timestamps := ts; jitter := jit;
             adaptive_delay := adaptive; jitter_buffer := [] |}).

(** The "send remaining jitter buffer frames" loop. *)
Definition final_flush (jb : list (bytes * Q * Q)) : list event :=
  flat_map (fun '(buffered_chunk, _, buffered_size) =>
              [Out buffered_chunk;
               Nap ((5 # 10000) + buffered_size / 1000 * (1 # 10000))%Q])
           jb.

(** The [for chunk in r.iter_content(chunk_size)] loop and what follows it.
    Each chunk comes with the time read when it arrives (an empty chunk is
    passed over without reading the clock); [error] tells whether the
    iteration raises after the chunks, in which case the [except] clause
    logs and nothing more is yielded. *)
Fixpoint run (smoothing : string) (frame_interval : Q) (s : state)
    (chunks : list (bytes * Q)) (error : option string) : list event :=
  match chunks with
  | [] =>
      match error with
      | Some _ => []
      | None => final_flush (jitter_buffer s)
      end
  | ([], _) :: chunks' => run smoothing frame_interval s chunks' error
  | (chunk, current_time) :: chunks' =>
      match step smoothing frame_interval s chunk current_time with
      | (evs, Some s') => evs ++ run smoothing frame_interval s' chunks' error
      | (evs, None) => evs
      end
  end.

(** [generate()]: [target_fps] is [float(params['fps'])], [None] when that
    raises [ValueError]; [start_time] is the time read at the start. *)
Definition generate (smoothing : string) (target_fps : option Q)
    (start_time : Q) (chunks : list (bytes * Q)) (error : option string)
  : list event :=
  match target_fps with
  | None => []
  | Some target_fps =>
      run smoothing (frame_interval target_fps)
          {| last_frame_time := start_time; frame_timestamps := [];
             jitter := None; adaptive_delay := 0%Q; jitter_buffer := [] |}
          chunks error
  end.

(** The data of the [Out]s of a trace, in order. *)
Fixpoint outs (evs : list event) : list bytes :=
  match evs with
  | [] => []
  | Out d :: evs' => d :: outs evs'
  | Nap _ :: evs' => outs evs'
  end.

End CvStream.

(* ================================================================== *)
(** * webrtc_viewer.py: [DroidCamVideoTrack.recv] *)

Module WebrtcRecv.
Import WebrtcViewer.

Section Recv.
Variable lib : Ef.library.
(** [cv2.cvtColor(frame, cv2.COLOR_BGR2RGB)] *)
Variable cvt_color : Ef.image lib -> Ef.image lib.
(** [self.frame_interval = 1.0 / target_fps] *)
Variable frame_interval : Q.

(** What [recv] returns: the picture of a frame, converted to RGB, or the
    black 640 x 480 frame. *)
Inductive video_frame :=
| Rgb (frame_rgb : Ef.image lib)
| Black.

(** The fields of the track that [recv] reads and writes, once
    [self.stream_response] is set and while [self.running] is true;
    [content] holds the chunks that [stream_response.content.read(8192)]
    is still to deliver, after which it returns [b""]. *)
Record track := {
  frame_buffer : bytes;
  last_frame_time : Q;
  content : list bytes
}.

(** The [while self.running] loop: the decoded frame with which the loop
    is left by [return], if it is, the buffer and the chunks not read. *)
Fixpoint read_loop (frame_buffer : bytes) (content : list bytes)
  : option (Ef.image lib) * bytes * list bytes :=
  match content with
  | [] => (None, frame_buffer, [])
  | [] :: content' => (None, frame_buffer, content')
  | chunk :: content' =>
      match extract_jpeg_frame (frame_buffer ++ chunk) [] with
      | (Some jpeg_data, frame_buffer') =>
          match jpeg_data with
          | [] => read_loop frame_buffer' content'
          | _ =>
              match Ef.imdecode lib jpeg_data with
              | Some frame => (Some frame, frame_buffer', content')
              | None => read_loop frame_buffer' content'
              end
          end
      | (None, frame_buffer') => read_loop frame_buffer' content'
      end
  end.

(** [recv], called when the clock shows [clock]: what is slept, the frame
    returned and the track afterwards.  [before l] elapses until the loop's
    time is read, [oversleep l] in excess of the sleep, [work l] until the
    time is read again. *)
Definition recv (tr : track) (clock : Q) (l : latency)
  : list event * video_frame * track :=
  match read_loop (frame_buffer tr) (content tr) with
  | (Some frame, frame_buffer', content') =>
      let current_time := (clock + before l)%Q in
      let '(slept, woke) :=
        if Qltb 0 (last_frame_time tr) then
          let elapsed := (current_time - last_frame_time tr)%Q in
          if Qltb elapsed frame_interval
          then ([Sleep (frame_interval - elapsed)%Q],
                (current_time + (frame_interval - elapsed) + oversleep l)%Q)
          else ([], current_time)
        else ([], current_time) in
      (slept, Rgb (cvt_color frame),
       {| frame_buffer := frame_buffer';
          last_frame_time := (woke + work l)%Q;
          content := content' |})
  | (None, frame_buffer', content') =>
      ([], Black,
       {| frame_buffer := frame_buffer';
          last_frame_time := last_frame_time tr;
          content := content' |})
  end.

End Recv.

Arguments Rgb {lib} frame_rgb.
Arguments Black {lib}.

End WebrtcRecv.

(* ================================================================== *)
(** * ultra_performance_viewer.py: [ultra_high_performance_stream] *)

Module UltraViewer.

(** The counters of [self.performance_stats] ([start_time] is written only
    by [__init__]). *)
Record performance_stats := {
  total_bytes : Z;
  total_chunks : Z;
  active_connections : Z
}.

(** The three candidate URLs, in the order in which they are tried. *)
Definition endpoints (ip : string) (port : Z) : list string :=
  let base := ("http://" ++ ip ++ ":" ++ str_of_Z port)%string in
  [(base ++ "/video")%string; (base ++ "/mjpegfeed")%string;
   (base ++ "/cam/1/stream")%string].

(** "Update global performance stats" *)
Definition count_chunk (stats : performance_stats) (chunk : bytes)
  : performance_stats :=
  {| total_bytes := total_bytes stats + Z.of_nat (List.length chunk);
     total_chunks := total_chunks stats + 1;
     active_connections := active_connections stats |}.



Section Stream.
Variable http : string -> get_result.
Variable fps_limit : option Q.
Variable drop_strategy : string.
Variable lat : nat -> latency.

(** The [async for chunk in response.content.iter_chunked(CHUNK_SIZE)]
    loop for one endpoint; the FPS limiting is that of
    fastapi_viewer.py. *)
Fixpoint relay_chunks (stats : performance_stats) (last_frame_time clock : Q)
    (n : nat) (chunks : list bytes) (error : option string)
  : list event * (bool * Q * nat) * performance_stats :=
  match chunks with
  | [] =>
      ([], (match error with Some _ => true | None => false end, clock, n),
       stats)
  | [] :: _ => ([], (false, clock, n), stats)
  | chunk :: chunks' =>
      let stats := count_chunk stats chunk in
      let l := lat n in
      let current_time := (clock + before l)%Q in
      match FastapiViewer.chunk_control fps_limit drop_strategy
                                        last_frame_time current_time with
      | Ef.Skip =>
          relay_chunks stats last_frame_time current_time (S n) chunks' error
      | Ef.Pass slept =>
          let woke :=
            match slept with
            | Some d => (current_time + d + oversleep l)%Q
            | None => current_time
            end in
          let t := if truthy fps_limit then (woke + work l)%Q else woke in
          let last_frame_time' :=
            if truthy fps_limit then t else last_frame_time in
          let '(evs, r, stats') :=
            relay_chunks stats last_frame_time' t (S n) chunks' error in
          ((match slept with Some d => [Sleep d] | None => [] end)
           ++ Yield t chunk :: evs, r, stats')
      end
  end.

(** The [for endpoint in endpoints] loop: [true] when the generator
    returned from inside the loop. *)
Fixpoint try_endpoints (stats : performance_stats) (clock : Q) (n : nat)
    (eps : list string) : list event * bool * performance_stats :=
  match eps with
  | [] => ([], false, stats)
  | endpoint :: eps' =>
      match http endpoint with
      | GetRaise _ =>
          let '(evs, r, stats') := try_endpoints stats clock n eps' in
          (Get endpoint :: evs, r, stats')
      | GetOk response =>
          if negb (status response =? 200) then
            let '(evs, r, stats') := try_endpoints stats clock n eps' in
            (Get endpoint :: evs, r, stats')
          else if is_mjpeg (lower (content_type response)) then
            match relay_chunks stats 0%Q clock n (body response)
                               (body_error response) with
            | (evs, (true, clock', n'), stats') =>
                let '(evs', r, stats'') :=
                  try_endpoints stats' clock' n' eps' in
                (Get endpoint :: evs ++ evs', r, stats'')
            | (evs, (false, _, _), stats') =>
                (Get endpoint :: evs, true, stats')
            end
          else
            let '(evs, r, stats') := try_endpoints stats clock n eps' in
            (Get endpoint :: evs, r, stats')
      end
  end.


End Stream.

End UltraViewer.

(* ================================================================== *)
(** * find_droidcam.py *)

Module FindDroidcam.

(** What [requests.head] does: it raises [Timeout], [ConnectionError] or
    another exception, or it answers with a status code. *)
Inductive head_result :=
| Timeout
| ConnectionError
| OtherError (e : string)
| Answer (status_code : Z).

Definition test_ip (head : string -> head_result) (ip : string)
  : string * string :=
  match head ("http://" ++ ip ++ ":4747/video")%string with
  | Answer status_code =>
      if status_code =? 200 then (ip, "SUCCESS - DroidCam found!")
      else (ip, ("HTTP " ++ str_of_Z status_code)%string)
  | Timeout => (ip, "Timeout")
  | ConnectionError => (ip, "No connection")
  | OtherError e => (ip, ("Error: " ++ e)%string)
  end.

(** [f"{base_ip}.{i}"] *)
Definition host (base_ip : string) (i : nat) : string :=
  (base_ip ++ "." ++ str_of_nat i)%string.

Definition priority_hosts : list nat :=
  [100; 101; 102; 103; 104; 105; 150; 200; 10; 20; 50]%nat.

Definition priority_ips (base_ip : string) : list string :=
  map (host base_ip) priority_hosts.

(** [[f"{base_ip}.{i}" for i in range(1, 255)
      if f"{base_ip}.{i}" not in priority_ips]] *)
Definition regular_ips (base_ip : string) : list string :=
  filter (fun ip => negb (existsb (String.eqb ip) (priority_ips base_ip)))
         (map (host base_ip) (seq 1 254)).

Definition all_ips (base_ip : string) : list string :=
  priority_ips base_ip ++ regular_ips base_ip.

(** [scan_network]: [executor.map] gives the results in the order of
    [all_ips]; the result is [found_devices[0]], or [None]. *)
Definition found_devices (head : string -> head_result) (base_ip : string)
  : list string :=
  flat_map (fun '(ip, status) => if str_in "SUCCESS" status then [ip] else [])
           (map (test_ip head) (all_ips base_ip)).

Definition scan_network (head : string -> head_result) (base_ip : string)
  : option string :=
  match found_devices head base_ip with
  | ip :: _ => Some ip
  | [] => None
  end.

End FindDroidcam.

(* ================================================================== *)
(** * find_droidcam_advanced.py: [test_droidcam_ip] *)

Module FindAdvanced.

(** The dict that [test_droidcam_ip] returns. *)
Record device := {
  ip : string;
  port : Z;
  endpoint : string;
  status : string;
  content_type : string;
  url : string
}.

Definition endpoints : list string :=
  ["/video"; "/mjpegfeed"; "/"; "/cam/1/stream"].

(** The [for endpoint in endpoints] loop; [head url] is what
    [requests.head(url, ...)] does. *)
Fixpoint test_endpoints (head : string -> get_result) (ip : string)
    (port : Z) (eps : list string) : option device :=
  match eps with
  | [] => None
  | endpoint :: eps' =>
      let url :=
        ("http://" ++ ip ++ ":" ++ str_of_Z port ++ endpoint)%string in
      match head url with
      | GetRaise _ => test_endpoints head ip port eps'
      | GetOk response =>
          let content_type := lower (Env.content_type response) in
          if Env.status response =? 200 then
            Some {| ip := ip; port := port; endpoint := endpoint;
                    status :=
                      if str_in "multipart/x-mixed-replace" content_type
                      then "MJPEG_READY"
                      else if str_in "text/html" content_type
                      then "HTML_RESPONSE"
                      else "UNKNOWN_CONTENT";
                    content_type := content_type; url := url |}
          else test_endpoints head ip port eps'
      end
  end.

Definition test_droidcam_ip (head : string -> get_result) (ip : string)
    (port : Z) : option device :=
  test_endpoints head ip port endpoints.

End FindAdvanced.

(* ================================================================== *)
(** * Vocabulary of the statements *)
(* ================================================================== *)

(** Neither marker occurs in a byte string. *)
Definition marker_free (x : bytes) : Prop :=
  index_of Ef.SOI x = None /\ index_of Ef.EOI x = None.

(** A buffer holds no complete frame: no SOI, or an SOI with no EOI after
    it. *)
Definition no_complete_frame (buffer : bytes) : Prop :=
  index_of Ef.SOI buffer = None \/
  exists i, index_of Ef.SOI buffer = Some i /\
            index_of Ef.EOI (skipn (i + 2) buffer) = None.

(** A byte string is one multipart part around [payload]: the boundary
    line, the [Content-Type: image/jpeg] line, a [Content-Length] line whose
    decimal value is the length of [payload], an empty line, [payload], and
    a final CRLF. *)
Definition multipart_part (payload data : bytes) : Prop :=
  exists n : string,
    data = encode ("--frame" ++ CRLF)%string
           ++ encode ("Content-Type: image/jpeg" ++ CRLF)%string
           ++ encode ("Content-Length: " ++ n ++ CRLF ++ CRLF)%string
           ++ payload ++ encode CRLF
    /\ nat_of_str n = Some (List.length payload).

(** An answer that [stream_with_fps_limit] takes for a stream: status 200
    and an MJPEG content type. *)
Definition accepted (r : get_result) : bool :=
  match r with
  | GetRaise _ => false
  | GetOk resp =>
      (status resp =? 200) && is_mjpeg (lower (content_type resp))
  end.

(** Iterating over the body raises before the loop is left: there is an
    error after the chunks and none of the chunks is empty. *)
Definition body_raises (r : get_result) : bool :=
  match r with
  | GetRaise _ => false
  | GetOk resp =>
      match body_error resp with
      | Some _ => forallb (fun c : bytes => negb (Nat.eqb (List.length c) 0))
                          (body resp)
      | None => false
      end
  end.

(** The chunks of a body that reach the relay: those before the first
    empty one. *)
Fixpoint until_empty (chunks : list bytes) : list bytes :=
  match chunks with
  | [] => []
  | [] :: _ => []
  | chunk :: chunks' => chunk :: until_empty chunks'
  end.

(** An answer from which the stream is relayed until the loop is left
    without an exception. *)
Definition streams (r : get_result) : bool :=
  accepted r && negb (body_raises r).

(** A stand-in for OpenCV and for the parsing of sizes, on which the
    model can be run: an image is the byte string it was decoded from, byte
    strings shorter than six bytes do not decode, [resize] raises on a
    non-positive size, and encoding prefixes the image with the quality. *)
Definition sample_library : Ef.library :=
  {| Ef.image := bytes;
     Ef.imdecode := fun b => if (6 <=? List.length b)%nat then Some b else None;
     Ef.resize := fun img size =>
       if (0 <? fst size) && (0 <? snd size) then inl img
       else inr "resize: bad size";
     Ef.imencode := fun img quality =>
       (true, match Byte.of_N (Z.to_N quality) with
              | Some b => b :: img
              | None => img
              end);
     Ef.parse_size := fun s =>
       if String.eqb s "640x480" then Some (640, 480) else None |}.

(** Frames reach the relay every 50 ms; sleeping and transcoding take no
    extra time. *)
Definition every_50ms (n : nat) : latency :=
  {| before := (1 # 20)%Q; oversleep := 0%Q; work := 0%Q |}.

(** An upstream that serves [chunks] as MJPEG at [at_url] and refuses every
    other request. *)
Definition serving (at_url : string) (chunks : list bytes)
    (error : option string) (url : string) : get_result :=
  if String.eqb url at_url
  then GetOk {| status := 200;
                content_type_header :=
                  Some "multipart/x-mixed-replace; boundary=x";
                body := chunks; body_error := error |}
  else GetRaise "Connection refused".

(** A rate of 10 frames per second, no resizing and no re-encoding. *)
Definition ten_fps (drop_strategy : string) : Ef.stream_query :=
  {| Ef.fps_limit := Some 10%Q; Ef.drop_strategy := drop_strategy;
     Ef.resolution := "auto"; Ef.quality := "ultra" |}.

(** An upstream on which every request is refused. *)
Definition all_refused (url : string) : get_result :=
  GetRaise "Connection refused".

(** An upstream that answers a plain response with a status and a content
    type. *)
Definition plain_answer (status : Z) (content_type : string) : get_result :=
  GetOk {| status := status; content_type_header := Some content_type;
           body := []; body_error := None |}.

(** An upstream that answers 200 with an MJPEG content type and delivers
    [chunks]. *)
Definition mjpeg_upstream (chunks : list bytes) (error : option string)
  : get_result :=
  GetOk {| status := 200;
           content_type_header := Some "multipart/x-mixed-replace; boundary=x";
           body := chunks; body_error := error |}.

(** The bytes [g1 ++ f1 ++ g2 ++ f2 ++ ...] in which the frames [f1, f2,
    ...] follow the gaps [g1, g2, ...]. *)
Fixpoint weave (gaps frames : list bytes) : bytes :=
  match gaps, frames with
  | g :: gaps', f :: frames' => g ++ f ++ weave gaps' frames'
  | _, _ => []
  end.

(** [xs] is [ys] with some elements left out: same elements, same order. *)
Inductive subseq {A : Type} : list A -> list A -> Prop :=
| subseq_nil : subseq [] []
| subseq_skip (y : A) (xs ys : list A) : subseq xs ys -> subseq xs (y :: ys)
| subseq_keep (x : A) (xs ys : list A) : subseq xs ys -> subseq (x :: xs) (x :: ys).

(** No event of a trace is a sleep. *)
Definition never_sleeps (evs : list event) : Prop :=
  Forall (fun ev => match ev with Sleep _ => False | _ => True end) evs.

(** A trace is made of events that are not notices, followed by at most
    one notice. *)
Definition notice_last (evs : list event) : Prop :=
  exists evs' tail,
    evs = evs' ++ tail /\
    Forall (fun ev => match ev with Notice _ => False | _ => True end) evs' /\
    (tail = [] \/ exists text, tail = [Notice text]).

(** A stand-in for OpenCV whose [resize] always raises; every byte string
    decodes and every size parses as 0 x 0. *)
Definition raising_resize : Ef.library :=
  {| Ef.image := bytes;
     Ef.imdecode := fun b => Some b;
     Ef.resize := fun _ _ => inr "cv2.error: resize";
     Ef.imencode := fun img _ => (true, img);
     Ef.parse_size := fun _ => Some (0, 0) |}.

(** A character occurs in a string. *)
Fixpoint has_char (c : ascii) (s : string) : bool :=
  match s with
  | EmptyString => false
  | String c' s' => Ascii.eqb c' c || has_char c s'
  end.

(** An answer that [stream_video] of cv.py takes for a stream. *)
Definition cv_accepted (r : get_result) : bool :=
  match r with
  | GetRaise _ => false
  | GetOk resp =>
      (status resp =? 200) && CvStream.looks_mjpeg (CvStream.ctype_of resp)
  end.

(** The non-empty chunks of a timed body, in order. *)
Definition data_chunks (chunks : list (bytes * Q)) : list bytes :=
  filter (fun c : bytes => negb (Nat.eqb (List.length c) 0)) (map fst chunks).

(** The picture of the first frame of a list that decodes. *)
Fixpoint first_decodable (lib : Ef.library) (frames : list bytes)
  : option (Ef.image lib) :=
  match frames with
  | [] => None
  | f :: frames' =>
      match Ef.imdecode lib f with
      | Some img => Some img
      | None => first_decodable lib frames'
      end
  end.

(** The number of bytes of a list of chunks. *)
Definition total_length (chunks : list bytes) : Z :=
  fold_right (fun c n => Z.of_nat (List.length c) + n) 0 chunks.

(** An answer to [requests.head] that [scan_network] counts as a DroidCam:
    status 200, or an exception whose text contains [SUCCESS]. *)
Definition reports_success (r : FindDroidcam.head_result) : bool :=
  match r with
  | FindDroidcam.Answer status_code => status_code =? 200
  | FindDroidcam.OtherError e => str_in "SUCCESS" e
  | _ => false
  end.

(** A request is answered with status 200. *)
Definition answers_200 (r : get_result) : bool :=
  match r with
  | GetRaise _ => false
  | GetOk resp => status resp =? 200
  end.


(** The bytes sent for a frame: what transcoding returns for it. *)
Definition payload_of (lib : Ef.library) (q : Ef.stream_query)
    (frame_bytes : bytes) : bytes :=
  match Ef.transcode lib q frame_bytes with
  | inl payload => payload
  | inr _ => frame_bytes
  end.

(* ================================================================== *)
(** * Properties *)
(* ================================================================== *)

(** ** Searching in byte strings *)

Module PyFacts.

Lemma starts_with_iff (sub buf : bytes) :
  starts_with sub buf = true <-> exists rest, buf = sub ++ rest.
Proof.
  revert buf; induction sub as [|a sub IH]; intros buf; simpl.
  - split; eauto.
  - destruct buf as [|b buf].
    + split; [discriminate | intros [r H]; discriminate].
    + rewrite andb_true_iff, IH. split.
      * intros [E [r ->]]. apply Byte.byte_dec_bl in E. subst. eauto.
      * intros [r H]. injection H as -> ->.
        split; [now apply Byte.byte_dec_lb | eauto].
Qed.

Lemma starts_with_shorter (sub buf more : bytes) :
  starts_with sub (buf ++ more) = true ->
  (List.length sub <= List.length buf)%nat ->
  starts_with sub buf = true.
Proof.
  revert buf; induction sub as [|a sub IH]; intros buf; [reflexivity|].
  destruct buf as [|b buf]; simpl; [lia|].
  rewrite !andb_true_iff. intros [E H] L. split; [exact E|].
  apply IH; [exact H | lia].
Qed.

Lemma index_of_eq (sub buf : bytes) :
  index_of sub buf =
  if starts_with sub buf then Some O
  else match buf with
       | [] => None
       | _ :: buf' => option_map S (index_of sub buf')
       end.
Proof. destruct buf; reflexivity. Qed.

Lemma index_of_bound (sub buf : bytes) (i : nat) :
  index_of sub buf = Some i -> (i + List.length sub <= List.length buf)%nat.
Proof.
  revert i; induction buf as [|b buf IH]; intros i; rewrite index_of_eq.
  - destruct (starts_with sub []) eqn:E; [|discriminate].
    apply starts_with_iff in E as [r E]. intros [= <-].
    rewrite E, length_app. simpl. lia.
  - destruct (starts_with sub (b :: buf)) eqn:E.
    + apply starts_with_iff in E as [r E]. intros [= <-].
      rewrite E, length_app. simpl. lia.
    + destruct (index_of sub buf) as [k|]; simpl; [|discriminate].
      intros [= <-]. specialize (IH k eq_refl). simpl. lia.
Qed.

Lemma index_of_split (sub buf : bytes) (i : nat) :
  index_of sub buf = Some i ->
  buf = firstn i buf ++ sub ++ skipn (i + List.length sub) buf.
Proof.
  revert i; induction buf as [|b buf IH]; intros i; rewrite index_of_eq.
  - destruct (starts_with sub []) eqn:E; [|discriminate].
    apply starts_with_iff in E as [r E]. intros [= <-].
    destruct sub; [reflexivity | discriminate].
  - destruct (starts_with sub (b :: buf)) eqn:E.
    + apply starts_with_iff in E as [r E]. intros [= <-].
      rewrite E. cbn [firstn Nat.add app].
      now rewrite skipn_app, Nat.sub_diag, skipn_all.
    + destruct (index_of sub buf) as [k|]; simpl; [|discriminate].
      intros [= <-]. simpl. f_equal. now apply IH.
Qed.

(** The first occurrence found in a buffer is still the first one after the
    buffer has been extended. *)
Lemma index_of_app (sub buf more : bytes) (i : nat) :
  index_of sub buf = Some i -> index_of sub (buf ++ more) = Some i.
Proof.
  revert i; induction buf as [|b buf IH]; intros i; rewrite index_of_eq.
  - destruct (starts_with sub []) eqn:E; [|discriminate].
    apply starts_with_iff in E as [r E]. intros [= <-].
    destruct sub; [|discriminate]. now destruct more.
  - destruct (starts_with sub (b :: buf)) eqn:E.
    + intros [= <-]. rewrite index_of_eq.
      apply starts_with_iff in E as [r E].
      assert (H : starts_with sub ((b :: buf) ++ more) = true).
      { apply starts_with_iff. exists (r ++ more). rewrite E. now rewrite app_assoc. }
      now rewrite H.
    + destruct (index_of sub buf) as [k|] eqn:K; simpl; [|discriminate].
      intros [= <-].
      destruct (starts_with sub (b :: buf ++ more)) eqn:E'.
      * exfalso. apply index_of_bound in K.
        apply (starts_with_shorter sub (b :: buf) more) in E'; [congruence|].
        simpl. lia.
      * now rewrite (IH k eq_refl).
Qed.

Lemma index_of_app_none (sub buf more : bytes) :
  index_of sub (buf ++ more) = None -> index_of sub buf = None.
Proof.
  intros H. destruct (index_of sub buf) as [i|] eqn:E; [|reflexivity].
  apply index_of_app with (more := more) in E. congruence.
Qed.

(** A two-byte marker with two different bytes cannot overlap itself: if it
    does not occur in [g], its first occurrence in [g ++ marker ++ rest] is
    right after [g]. *)
Lemma index_of_marker (a b : byte) (g rest : bytes) :
  a <> b ->
  index_of [a; b] g = None ->
  index_of [a; b] (g ++ a :: b :: rest) = Some (List.length g).
Proof.
  intros Hab. induction g as [|x g IH]; intros H.
  - rewrite index_of_eq. simpl.
    now rewrite (Byte.byte_dec_lb (eq_refl a)), (Byte.byte_dec_lb (eq_refl b)).
  - rewrite index_of_eq in H.
    destruct (starts_with [a; b] (x :: g)) eqn:E; [discriminate|].
    destruct (index_of [a; b] g) eqn:K; [discriminate|].
    rewrite index_of_eq.
    assert (E' : starts_with [a; b] ((x :: g) ++ a :: b :: rest) = false).
    { destruct g as [|y g].
      - simpl. destruct (Byte.eqb a x); [|reflexivity].
        simpl. destruct (Byte.eqb b a) eqn:B; [|reflexivity].
        apply Byte.byte_dec_bl in B. congruence.
      - simpl in *. destruct (Byte.eqb a x); [|reflexivity].
        simpl in *. destruct (Byte.eqb b y); [discriminate | reflexivity]. }
    rewrite E'. simpl. now rewrite IH.
Qed.

End PyFacts.

(** ** The frame extractor of [generate] *)

Module EfFacts.
Import PyFacts Ef.

Section ListCuts.
Context {A : Type}.

Lemma skipn_past (g t : list A) (n : nat) :
  skipn (List.length g + n) (g ++ t) = skipn n t.
Proof.
  rewrite skipn_app.
  replace (List.length g + n - List.length g)%nat with n by lia.
  rewrite skipn_all2 by lia. reflexivity.
Qed.

Lemma firstn_past (a t : list A) (n : nat) :
  firstn (List.length a + n) (a ++ t) = a ++ firstn n t.
Proof.
  rewrite firstn_app.
  replace (List.length a + n - List.length a)%nat with n by lia.
  rewrite firstn_all2 by lia. reflexivity.
Qed.

Lemma skipn_exact (g t : list A) : skipn (List.length g) (g ++ t) = t.
Proof. rewrite <- (Nat.add_0_r (List.length g)). apply skipn_past. Qed.

Lemma firstn_exact (a t : list A) : firstn (List.length a) (a ++ t) = a.
Proof.
  rewrite <- (Nat.add_0_r (List.length a)), firstn_past.
  simpl. apply app_nil_r.
Qed.

End ListCuts.

(** [find] with a non-negative start, for a two-byte marker. *)
Lemma find_marker (a b : byte) (buf : bytes) (s : Z) :
  0 <= s ->
  find buf [a; b] s =
  match index_of [a; b] (skipn (Z.to_nat s) buf) with
  | Some i => s + Z.of_nat i
  | None => -1
  end.
Proof.
  intros Hs. unfold find.
  destruct (s <? 0) eqn:N; [apply Z.ltb_lt in N; lia|].
  destruct (Z.of_nat (List.length buf) <? s) eqn:L; [|reflexivity].
  apply Z.ltb_lt in L. rewrite skipn_all2 by lia. reflexivity.
Qed.

(** The offsets computed by [find] are the natural-number offsets. *)
Lemma extract_step_offsets (buffer : bytes) :
  extract_step buffer = extract_offsets buffer.
Proof.
  unfold extract_step, extract_offsets, SOI, EOI.
  rewrite find_marker by lia. cbn [Z.to_nat skipn].
  destruct (index_of [xff; xd8] buffer) as [i|] eqn:I; [|reflexivity].
  rewrite find_marker by lia.
  replace (Z.to_nat (0 + Z.of_nat i + 2)) with (i + 2)%nat by lia.
  destruct (index_of [xff; xd9] (skipn (i + 2) buffer)) as [j|] eqn:J.
  - apply index_of_bound in I, J. rewrite length_skipn in J. simpl in I, J.
    replace (0 + Z.of_nat i =? -1) with false by (symmetry; apply Z.eqb_neq; lia).
    replace (0 + Z.of_nat i + 2 + Z.of_nat j =? -1) with false
      by (symmetry; apply Z.eqb_neq; lia).
    cbn [negb andb]. unfold slice, drop_to, clamp.
    replace (0 + Z.of_nat i <? 0) with false by (symmetry; apply Z.ltb_ge; lia).
    replace (0 + Z.of_nat i + 2 + Z.of_nat j + 2 <? 0) with false
      by (symmetry; apply Z.ltb_ge; lia).
    rewrite !Z.min_l by lia.
    repeat f_equal; lia.
  - replace (0 + Z.of_nat i =? -1) with false by (symmetry; apply Z.eqb_neq; lia).
    reflexivity.
Qed.

(** What a successful turn cuts: the buffer is [g ++ SOI ++ a ++ EOI ++ r],
    [g] ends where the first SOI starts, and [a] ends where the first EOI
    after that SOI starts. *)
Lemma extract_offsets_iff (buffer f r : bytes) :
  extract_offsets buffer = Some (f, r) <->
  exists g a,
    buffer = g ++ SOI ++ a ++ EOI ++ r /\
    f = SOI ++ a ++ EOI /\
    index_of SOI buffer = Some (List.length g) /\
    index_of EOI (a ++ EOI ++ r) = Some (List.length a).
Proof.
  unfold extract_offsets. split.
  - destruct (index_of SOI buffer) as [i|] eqn:I; [|discriminate].
    destruct (index_of EOI (skipn (i + 2) buffer)) as [j|] eqn:J; [|discriminate].
    intros [= <- <-].
    pose proof (index_of_bound _ _ _ I) as BI.
    pose proof (index_of_bound _ _ _ J) as BJ.
    rewrite length_skipn in BJ. simpl in BI, BJ.
    pose proof (index_of_split _ _ _ I) as SI.
    pose proof (index_of_split _ _ _ J) as SJ.
    simpl List.length in SI, SJ.
    set (t := skipn (i + 2) buffer) in *.
    assert (Lg : List.length (firstn i buffer) = i) by (rewrite length_firstn; lia).
    assert (La : List.length (firstn j t) = j).
    { rewrite length_firstn. unfold t. rewrite length_skipn. lia. }
    assert (R : skipn (j + 2) t = skipn (i + j + 4) buffer).
    { unfold t. rewrite skipn_skipn. f_equal. lia. }
    exists (firstn i buffer), (firstn j t).
    rewrite Lg, La, <- R.
    assert (B : buffer = firstn i buffer ++ SOI ++ firstn j t ++ EOI ++ skipn (j + 2) t).
    { rewrite <- SJ. exact SI. }
    repeat split; try assumption.
    + rewrite B at 1. rewrite <- Lg at 1. rewrite skipn_exact.
      change (SOI ++ firstn j t ++ EOI ++ skipn (j + 2) t)
        with (xff :: xd8 :: (firstn j t ++ EOI ++ skipn (j + 2) t)).
      replace (j + 4)%nat with (S (S (j + 2))) by lia. cbn [firstn].
      rewrite <- La at 1. rewrite firstn_past. reflexivity.
    + rewrite <- SJ. exact J.
  - intros (g & a & B & F & I & J). rewrite I.
    assert (T : skipn (List.length g + 2) buffer = a ++ EOI ++ r).
    { rewrite B, skipn_past. reflexivity. }
    rewrite T, J. subst f. repeat f_equal.
    + rewrite B, skipn_exact.
      change (SOI ++ a ++ EOI ++ r) with (xff :: xd8 :: (a ++ EOI ++ r)).
      replace (List.length a + 4)%nat with (S (S (List.length a + 2))) by lia.
      cbn [firstn]. rewrite firstn_past. reflexivity.
    + rewrite B.
      replace (List.length g + List.length a + 4)%nat
        with (List.length g + (2 + (List.length a + 2)))%nat by lia.
      rewrite skipn_past. change (SOI ++ a ++ EOI ++ r) with (SOI ++ (a ++ EOI ++ r)).
      change 2%nat with (List.length SOI) at 1. rewrite skipn_past.
      rewrite skipn_past. reflexivity.
Qed.

(** A frame that was found stays the first frame when more bytes arrive. *)
Lemma extract_step_app (buffer more f r : bytes) :
  extract_step buffer = Some (f, r) ->
  extract_step (buffer ++ more) = Some (f, r ++ more).
Proof.
  rewrite !extract_step_offsets, !extract_offsets_iff.
  intros (g & a & B & F & I & J). exists g, a. repeat split.
  - rewrite B. now rewrite <- !app_assoc.
  - exact F.
  - now apply index_of_app.
  - replace (a ++ EOI ++ r ++ more) with ((a ++ EOI ++ r) ++ more)
      by now rewrite <- !app_assoc.
    now apply index_of_app.
Qed.

Lemma extract_step_none_prefix (buffer more : bytes) :
  extract_step (buffer ++ more) = None -> extract_step buffer = None.
Proof.
  intros H. destruct (extract_step buffer) as [[f r]|] eqn:E; [|reflexivity].
  apply extract_step_app with (more := more) in E. congruence.
Qed.

Lemma extract_step_cut (buffer f r : bytes) :
  extract_step buffer = Some (f, r) ->
  exists g a, buffer = g ++ f ++ r /\ f = SOI ++ a ++ EOI.
Proof.
  rewrite extract_step_offsets, extract_offsets_iff.
  intros (g & a & B & F & _). exists g, a. split; [|exact F].
  rewrite B, F. now rewrite <- !app_assoc.
Qed.

Lemma extract_step_shrinks (buffer f r : bytes) :
  extract_step buffer = Some (f, r) ->
  (List.length r + 4 <= List.length buffer)%nat.
Proof.
  intros H. apply extract_step_cut in H as (g & a & -> & ->).
  rewrite !length_app. simpl. rewrite ?length_app. simpl. lia.
Qed.

Lemma extract_step_nil : extract_step [] = None.
Proof. reflexivity. Qed.

(** *** The loop terminates: the length of the buffer is enough fuel *)

Lemma drain_fuel_stable (n m : nat) (buffer : bytes) :
  (List.length buffer <= n)%nat -> (List.length buffer <= m)%nat ->
  drain_fuel n buffer = drain_fuel m buffer.
Proof.
  revert m buffer. induction n as [|n IH]; intros m buffer Hn Hm.
  - destruct buffer; [|simpl in Hn; lia]. now destruct m.
  - destruct m as [|m].
    + destruct buffer; [reflexivity | simpl in Hm; lia].
    + simpl. destruct (extract_step buffer) as [[f r]|] eqn:E; [|reflexivity].
      apply extract_step_shrinks in E.
      rewrite (IH m r) by lia. reflexivity.
Qed.

Lemma drain_eq (buffer : bytes) :
  drain buffer =
  match extract_step buffer with
  | Some (f, r) => let '(fs, rest) := drain r in (f :: fs, rest)
  | None => ([], buffer)
  end.
Proof.
  unfold drain. destruct buffer as [|b buffer]; [reflexivity|].
  cbn [List.length drain_fuel].
  destruct (extract_step (b :: buffer)) as [[f r]|] eqn:E; [|reflexivity].
  apply extract_step_shrinks in E. simpl in E.
  rewrite (drain_fuel_stable (List.length buffer) (List.length r)) by lia.
  reflexivity.
Qed.

(** Induction on the buffer following the turns of the loop. *)
Lemma drain_ind (P : bytes -> Prop) :
  (forall buffer, extract_step buffer = None -> P buffer) ->
  (forall buffer f r, extract_step buffer = Some (f, r) -> P r -> P buffer) ->
  forall buffer, P buffer.
Proof.
  intros Hnone Hsome.
  assert (H : forall n buffer, (List.length buffer <= n)%nat -> P buffer).
  { induction n as [|n IH]; intros buffer L.
    - apply Hnone. destruct buffer; [reflexivity | simpl in L; lia].
    - destruct (extract_step buffer) as [[f r]|] eqn:E; [|now apply Hnone].
      apply (Hsome _ _ _ E). apply IH.
      apply extract_step_shrinks in E. lia. }
  intros buffer. now apply (H (List.length buffer)).
Qed.

(** With enough fuel the loop stops at its [break]: no frame is left in the
    buffer it returns. *)
Lemma drain_complete (buffer : bytes) :
  extract_step (snd (drain buffer)) = None.
Proof.
  induction buffer as [buffer E | buffer f r E IH] using drain_ind;
    rewrite drain_eq, E.
  - exact E.
  - destruct (drain r) as [fs rest]. exact IH.
Qed.

Lemma drain_fuel_enough (n : nat) (buffer : bytes) :
  (List.length buffer <= n)%nat -> drain_fuel n buffer = drain buffer.
Proof. intros H. now apply drain_fuel_stable. Qed.

Lemma drain_none (buffer : bytes) :
  extract_step buffer = None -> drain buffer = ([], buffer).
Proof. intros E. now rewrite drain_eq, E. Qed.

(** Draining a buffer, appending more bytes to what is left and draining
    again is draining the whole at once. *)
Lemma drain_app (buffer more : bytes) :
  drain (buffer ++ more) =
  let '(fs, rest) := drain buffer in
  let '(fs', rest') := drain (rest ++ more) in
  (fs ++ fs', rest').
Proof.
  induction buffer as [buffer E | buffer f r E IH] using drain_ind.
  - rewrite (drain_none _ E). now destruct (drain (buffer ++ more)).
  - rewrite (drain_eq (buffer ++ more)), (extract_step_app _ more _ _ E), IH.
    rewrite (drain_eq buffer), E.
    destruct (drain r) as [fs rest].
    now destruct (drain (rest ++ more)) as [fs' rest'].
Qed.

(** The bytes consumed by a drain are a prefix of the buffer, and it is
    empty when no frame came out. *)
Lemma drain_consumed (buffer : bytes) :
  exists consumed,
    buffer = consumed ++ snd (drain buffer) /\
    (fst (drain buffer) = [] -> consumed = []).
Proof.
  induction buffer as [buffer E | buffer f r E IH] using drain_ind.
  - exists []. now rewrite (drain_none _ E).
  - destruct IH as (c & Hc & _). rewrite drain_eq, E.
    destruct (extract_step_cut _ _ _ E) as (g & a & B & _).
    destruct (drain r) as [fs rest]. simpl in *.
    exists (g ++ f ++ c). split; [|discriminate].
    rewrite B, Hc at 1. now rewrite <- !app_assoc.
Qed.

Lemma feed_chunks_drain (buffer : bytes) (chunks : list bytes) :
  extract_step buffer = None ->
  feed_chunks buffer chunks = drain (buffer ++ List.concat chunks).
Proof.
  revert buffer. induction chunks as [|c chunks IH]; intros buffer E.
  - simpl. rewrite app_nil_r. symmetry. now apply drain_none.
  - cbn [feed_chunks List.concat]. unfold feed.
    rewrite (app_assoc buffer c (List.concat chunks)).
    rewrite (drain_app (buffer ++ c) (List.concat chunks)).
    pose proof (drain_complete (buffer ++ c)) as D.
    destruct (drain (buffer ++ c)) as [fs rest]. simpl in D.
    now rewrite (IH rest D).
Qed.

Lemma pump_feed_chunks (buffer : bytes) (chunks : list bytes) :
  Forall (fun c => c <> []) chunks ->
  pump buffer chunks = feed_chunks buffer chunks.
Proof.
  intros H. revert buffer. induction H as [|c chunks Hc _ IH]; intros buffer.
  - reflexivity.
  - destruct c as [|b c]; [congruence|]. cbn [pump feed_chunks].
    destruct (feed buffer (b :: c)) as [fs rest]. now rewrite IH.
Qed.

End EfFacts.

(** ** [extract_jpeg_frame] of webrtc_viewer.py *)

Module WebrtcFacts.
Import PyFacts EfFacts WebrtcViewer.

(** One call is one turn of the extraction loop of ef.py on the extended
    buffer. *)
Lemma extract_jpeg_frame_step (frame_buffer data : bytes) :
  extract_jpeg_frame frame_buffer data =
  match Ef.extract_step (frame_buffer ++ data) with
  | Some (f, r) => (Some f, r)
  | None => (None, frame_buffer ++ data)
  end.
Proof.
  unfold extract_jpeg_frame, Ef.extract_step, start_marker, end_marker,
    Ef.SOI, Ef.EOI.
  destruct (find (frame_buffer ++ data) [xff; xd8] 0 =? -1); [reflexivity|].
  now destruct (find (frame_buffer ++ data) [xff; xd9] _ =? -1).
Qed.

(** The frames returned call after call are the first frames, in order, of
    the stream received so far; the others are still in the buffer. *)
Lemma extract_chunks_prefix (frame_buffer : bytes) (chunks : list bytes) :
  Ef.drain (frame_buffer ++ List.concat chunks) =
  let '(frames, rest) := extract_chunks frame_buffer chunks in
  let '(later, rest') := Ef.drain rest in
  (frames ++ later, rest').
Proof.
  revert frame_buffer. induction chunks as [|c chunks IH]; intros frame_buffer.
  - simpl. rewrite app_nil_r. now destruct (Ef.drain frame_buffer).
  - cbn [extract_chunks List.concat]. rewrite extract_jpeg_frame_step, app_assoc.
    destruct (Ef.extract_step (frame_buffer ++ c)) as [[f r]|] eqn:E.
    + rewrite drain_eq, (extract_step_app _ _ _ _ E), IH.
      destruct (extract_chunks r chunks) as [frames rest].
      now destruct (Ef.drain rest).
    + rewrite IH. destruct (extract_chunks (frame_buffer ++ c) chunks) as [frames rest].
      now destruct (Ef.drain rest).
Qed.

Lemma extract_chunks_count (frame_buffer : bytes) (chunks : list bytes) :
  (List.length (fst (extract_chunks frame_buffer chunks)) <= List.length chunks)%nat.
Proof.
  revert frame_buffer. induction chunks as [|c chunks IH]; intros frame_buffer.
  - simpl. lia.
  - cbn [extract_chunks].
    destruct (extract_jpeg_frame frame_buffer c) as [o b].
    specialize (IH b). destruct (extract_chunks b chunks) as [frames rest].
    destruct o; simpl in *; lia.
Qed.

End WebrtcFacts.

(** ** Times *)

Module TimeFacts.

Lemma Qltb_lt (x y : Q) : Qltb x y = true <-> (x < y)%Q.
Proof.
  unfold Qltb. rewrite negb_true_iff. split.
  - intros H. apply Qnot_le_lt. intros L.
    apply Qle_bool_iff in L. congruence.
  - intros H. destruct (Qle_bool y x) eqn:E; [|reflexivity].
    apply Qle_bool_iff in E. exfalso. now apply (Qlt_not_le x y).
Qed.

Lemma Qltb_ge (x y : Q) : Qltb x y = false <-> (y <= x)%Q.
Proof.
  unfold Qltb. rewrite negb_false_iff. apply Qle_bool_iff.
Qed.

Lemma truthy_pos (f : Q) : (0 < f)%Q -> truthy (Some f) = true.
Proof.
  intros H. unfold truthy. apply negb_true_iff.
  destruct (Qeq_bool f 0) eqn:E; [|reflexivity].
  apply Qeq_bool_iff in E. rewrite E in H. now apply Qlt_irrefl in H.
Qed.

Lemma interval_pos (f : Q) : (0 < f)%Q -> (0 < 1 / f)%Q.
Proof.
  intros H. unfold Qdiv. rewrite Qmult_1_l. now apply Qinv_lt_0_compat.
Qed.

Lemma yielded_app (evs evs' : list event) :
  yielded (evs ++ evs') = yielded evs ++ yielded evs'.
Proof.
  induction evs as [|[u|d|t b|m] evs IH]; simpl; now rewrite ?IH.
Qed.

Lemma contacted_app (evs evs' : list event) :
  contacted (evs ++ evs') = contacted evs ++ contacted evs'.
Proof.
  induction evs as [|[u|d|t b|m] evs IH]; simpl; now rewrite ?IH.
Qed.

End TimeFacts.

(** ** The rate control of [generate] *)

Module PaceFacts.
Import TimeFacts Ef.

Section Pacing.
Variable q : stream_query.
Variable f : Q.
Hypothesis Hfps : fps_limit q = Some f.
Hypothesis Hpos : (0 < f)%Q.

Lemma frame_interval_inv : frame_interval (fps_limit q) = (1 / f)%Q.
Proof. rewrite Hfps. unfold frame_interval. now rewrite truthy_pos. Qed.

(** The three branches of the FPS control when a rate is set. *)
Lemma fps_control_cases (last_sent now : Q) :
  fps_control q last_sent now =
  if Qltb (now - last_sent) (1 / f) then
    if String.eqb (drop_strategy q) "latest" then PaceDrop
    else PaceSleep (1 / f - (now - last_sent))
  else PaceEmit.
Proof.
  unfold fps_control. rewrite frame_interval_inv.
  pose proof (interval_pos f Hpos) as P. apply Qltb_lt in P. rewrite P.
  destruct (Qltb (now - last_sent) (1 / f)); [|reflexivity].
  destruct (String.eqb (drop_strategy q) "latest"); [reflexivity|].
  now destruct (String.eqb (drop_strategy q) "oldest").
Qed.

End Pacing.
End PaceFacts.

(** ** Main results on the frame extractor *)

Module ExtractorResults.
Import PyFacts EfFacts WebrtcFacts.

Lemma pump_single (whole : bytes) : Ef.pump [] [whole] = Ef.feed [] whole.
Proof.
  destruct whole as [|b whole]; [reflexivity|]. cbn [Ef.pump].
  destruct (Ef.feed [] (b :: whole)) as [frames rest].
  now rewrite app_nil_r.
Qed.

(** Iterating [feed] over the chunks of any split, empty chunks included, is
    feeding the whole at once. *)
Lemma feed_chunks_whole (chunks : list bytes) :
  Ef.feed_chunks [] chunks = Ef.feed [] (List.concat chunks).
Proof. now rewrite feed_chunks_drain. Qed.

Lemma no_complete_frame_step (buffer : bytes) :
  no_complete_frame buffer <-> Ef.extract_step buffer = None.
Proof.
  rewrite extract_step_offsets. unfold no_complete_frame, Ef.extract_offsets.
  split.
  - intros [H | (i & H & K)]; rewrite H; [reflexivity|]. now rewrite K.
  - destruct (index_of Ef.SOI buffer) as [i|]; [|now left].
    destruct (index_of Ef.EOI (skipn (i + 2) buffer)) eqn:K; [discriminate|].
    intros _. right. now exists i.
Qed.

Lemma pump_starved (buffer : bytes) (chunks : list bytes) :
  Ef.extract_step (buffer ++ List.concat chunks) = None ->
  Forall (fun c => c <> []) chunks ->
  Ef.pump buffer chunks = ([], buffer ++ List.concat chunks).
Proof.
  intros E H. rewrite (pump_feed_chunks _ _ H).
  rewrite feed_chunks_drain.
  - now apply drain_none.
  - now apply extract_step_none_prefix in E.
Qed.

(** C1 (amended).  In [generate] of ef.py, for every byte string and every
    way of splitting it into non-empty chunks (an empty chunk makes the
    read loop [break]), feeding the chunks one at a time cuts out the same
    frames, in the same order, and leaves the same buffer as feeding the
    whole byte string as one chunk.  [extract_jpeg_frame] of
    webrtc_viewer.py returns at most one frame per call: called once per
    chunk it returns at most as many frames as there are chunks, and these
    are the first frames of that same sequence. *)
Theorem chunk_boundary_independence (chunks : list bytes) :
  Forall (fun c => c <> []) chunks ->
  Ef.pump [] chunks = Ef.pump [] [List.concat chunks] /\
  (List.length (fst (WebrtcViewer.extract_chunks [] chunks))
     <= List.length chunks)%nat /\
  exists later,
    fst (Ef.pump [] [List.concat chunks]) =
    fst (WebrtcViewer.extract_chunks [] chunks) ++ later.
Proof.
  intros H. rewrite pump_single. repeat split.
  - rewrite (pump_feed_chunks _ _ H). apply feed_chunks_whole.
  - apply extract_chunks_count.
  - unfold Ef.feed. rewrite (extract_chunks_prefix [] chunks).
    destruct (WebrtcViewer.extract_chunks [] chunks) as [frames rest].
    destruct (Ef.drain rest) as [later rest']. now exists later.
Qed.

Lemma chunk_boundary_independence_witness :
  Ef.pump [] [[x00; xff]; [xd8; x41; xff; xd9; xff]; [xd8; xff; xd9]] =
  Ef.pump [] [List.concat [[x00; xff]; [xd8; x41; xff; xd9; xff]; [xd8; xff; xd9]]].
Proof.
  apply (chunk_boundary_independence
           [[x00; xff]; [xd8; x41; xff; xd9; xff]; [xd8; xff; xd9]]).
  repeat constructor; discriminate.
Defined.

(** C1 as stated fails: an empty chunk in the split ends the read loop of
    [generate] before the later chunks are fed, and [extract_jpeg_frame]
    fed two frames in one chunk returns only the first. *)
Lemma chunk_boundary_counterexample :
  fst (Ef.pump [] [[xff; xd8; xff; xd9]; []; [xff; xd8; x01; xff; xd9]]) <>
  fst (Ef.pump [] [List.concat [[xff; xd8; xff; xd9]; [];
                                [xff; xd8; x01; xff; xd9]]])
  /\
  fst (WebrtcViewer.extract_chunks [] [[xff; xd8; xff; xd9];
                                       [xff; xd8; x01; xff; xd9]]) <>
  fst (WebrtcViewer.extract_chunks [] [List.concat [[xff; xd8; xff; xd9];
                                       [xff; xd8; x01; xff; xd9]]]).
Proof. split; vm_compute; discriminate. Qed.

(** C2.  A buffer [garbage ++ SOI ++ A ++ EOI ++ SOI ++ B ++ EOI] in which
    [garbage], [A] and [B] contain neither marker yields exactly the two
    frames [SOI ++ A ++ EOI] and [SOI ++ B ++ EOI], in that order, and
    nothing of the garbage is left in the buffer. *)
Theorem two_frames_after_garbage (garbage A B : bytes) :
  marker_free garbage -> marker_free A -> marker_free B ->
  Ef.feed [] (garbage ++ Ef.SOI ++ A ++ Ef.EOI ++ Ef.SOI ++ B ++ Ef.EOI) =
  ([Ef.SOI ++ A ++ Ef.EOI; Ef.SOI ++ B ++ Ef.EOI], []).
Proof.
  intros [Hg _] [_ HA] [_ HB]. unfold Ef.feed. rewrite app_nil_l.
  assert (E1 : Ef.extract_step
                 (garbage ++ Ef.SOI ++ A ++ Ef.EOI ++ Ef.SOI ++ B ++ Ef.EOI)
               = Some (Ef.SOI ++ A ++ Ef.EOI, Ef.SOI ++ B ++ Ef.EOI)).
  { rewrite extract_step_offsets. apply extract_offsets_iff.
    exists garbage, A. repeat split.
    - apply (index_of_marker xff xd8); [discriminate | exact Hg].
    - apply (index_of_marker xff xd9); [discriminate | exact HA]. }
  assert (E2 : Ef.extract_step (Ef.SOI ++ B ++ Ef.EOI)
               = Some (Ef.SOI ++ B ++ Ef.EOI, [])).
  { rewrite extract_step_offsets. apply extract_offsets_iff.
    exists [], B. repeat split.
    apply (index_of_marker xff xd9 B []); [discriminate | exact HB]. }
  rewrite drain_eq, E1, drain_eq, E2. reflexivity.
Qed.

Lemma two_frames_after_garbage_witness :
  Ef.feed [] ([x00; xd8; xff] ++ Ef.SOI ++ [x41; xff] ++ Ef.EOI
              ++ Ef.SOI ++ [xd9; x42] ++ Ef.EOI) =
  ([Ef.SOI ++ [x41; xff] ++ Ef.EOI; Ef.SOI ++ [xd9; x42] ++ Ef.EOI], []).
Proof.
  apply (two_frames_after_garbage [x00; xd8; xff] [x41; xff] [xd9; x42]);
    split; reflexivity.
Defined.

Lemma idle_bytes (n : nat) :
  List.concat (repeat [x00] n) = repeat x00 n /\
  Ef.extract_step (repeat x00 n) = None /\
  Forall (fun c : bytes => c <> []) (repeat [x00] n).
Proof.
  repeat split.
  - induction n as [|n IH]; [reflexivity|]. simpl. now rewrite IH.
  - apply no_complete_frame_step. left.
    induction n as [|n IH]; [reflexivity|].
    simpl repeat. rewrite index_of_eq. simpl. now rewrite IH.
  - induction n as [|n IH]; constructor; [discriminate | exact IH].
Qed.

(** C10.  The buffer of the extractor shrinks only when a complete frame is
    found, and then everything up to the end of that frame's EOI is deleted
    (the buffer was [g ++ frame ++ r] and [r] is kept); when the buffer
    extended by the new chunk holds no complete frame, nothing is removed,
    in [generate] as in [extract_jpeg_frame]; there is no cap: fed chunks
    that never complete a frame, the buffer holds every byte received, so
    its length exceeds any bound. *)
Theorem buffer_shrinks_only_by_frames (buffer chunk : bytes) :
  (forall f r, Ef.extract_step buffer = Some (f, r) ->
     exists g a, buffer = g ++ f ++ r /\ f = Ef.SOI ++ a ++ Ef.EOI) /\
  (no_complete_frame (buffer ++ chunk) ->
     Ef.feed buffer chunk = ([], buffer ++ chunk) /\
     WebrtcViewer.extract_jpeg_frame buffer chunk = (None, buffer ++ chunk)) /\
  (exists consumed,
     buffer ++ chunk = consumed ++ snd (Ef.feed buffer chunk) /\
     (fst (Ef.feed buffer chunk) = [] -> consumed = [])) /\
  (forall chunks,
     Forall (fun c => c <> []) chunks ->
     no_complete_frame (buffer ++ List.concat chunks) ->
     Ef.pump buffer chunks = ([], buffer ++ List.concat chunks)) /\
  (forall bound : nat, exists chunks,
     Ef.pump [] chunks = ([], List.concat chunks) /\
     (bound < List.length (List.concat chunks))%nat).
Proof.
  split; [apply extract_step_cut|].
  split; [|split; [apply drain_consumed|split]].
  - intros H. apply no_complete_frame_step in H. split.
    + unfold Ef.feed. now apply drain_none.
    + now rewrite extract_jpeg_frame_step, H.
  - intros chunks H N. apply no_complete_frame_step in N.
    now apply pump_starved.
  - intros bound. exists (repeat [x00] (S bound)).
    destruct (idle_bytes (S bound)) as (C & E & F). split.
    + apply (pump_starved [] _); [|exact F]. rewrite app_nil_l, C. exact E.
    + rewrite C, repeat_length. lia.
Qed.

Lemma buffer_shrinks_only_by_frames_witness :
  Ef.feed [x00; xff; xd8; x41] [x42; xff] =
    ([], [x00; xff; xd8; x41] ++ [x42; xff]) /\
  WebrtcViewer.extract_jpeg_frame [x00; xff; xd8; x41] [x42; xff] =
    (None, [x00; xff; xd8; x41] ++ [x42; xff]).
Proof.
  apply (buffer_shrinks_only_by_frames [x00; xff; xd8; x41] [x42; xff]).
  right. exists 1%nat. split; reflexivity.
Defined.

End ExtractorResults.

(** ** Main results on transcoding and multipart framing *)

Module TranscodeResults.
Import TimeFacts Ef.

Lemma nat_of_str_of_nat (n : nat) : nat_of_str (str_of_nat n) = Some n.
Proof.
  unfold nat_of_str, str_of_nat. rewrite NilEmpty.usu. simpl.
  f_equal. apply DecimalNat.Unsigned.of_to.
Qed.

Lemma part_framed (payload : bytes) : multipart_part payload (part payload).
Proof.
  exists (str_of_nat (List.length payload)).
  split; [|apply nat_of_str_of_nat].
  unfold part. now rewrite <- !app_assoc.
Qed.

Section Frames.
Variable lib : library.
Variable q : stream_query.
Variable lat : nat -> latency.

(** A frame gives rise to no part (it is dropped, or transcoding raises) or
    to exactly one, around what [transcode] returns for it. *)
Lemma handle_frame_yield (s : session) (frame_bytes : bytes) :
  Forall (fun data =>
            exists payload,
              transcode lib q frame_bytes = inl payload /\
              data = part payload)
         (yielded (fst (handle_frame lib q lat s frame_bytes))).
Proof.
  unfold handle_frame.
  destruct (fps_control q (last_sent s) _) as [| |d];
    [|constructor|];
    (destruct (transcode lib q frame_bytes) as [payload|e];
     [|simpl; constructor]);
    simpl; repeat constructor; now exists payload.
Qed.

Lemma handle_frames_framed (s : session) (frames : list bytes) :
  Forall (fun data => exists payload, multipart_part payload data)
         (yielded (fst (handle_frames lib q lat s frames))).
Proof.
  revert s. induction frames as [|fr frames IH]; intros s; [constructor|].
  cbn [handle_frames]. pose proof (handle_frame_yield s fr) as H.
  assert (H' : Forall (fun data => exists payload, multipart_part payload data)
                 (yielded (fst (handle_frame lib q lat s fr)))).
  { eapply Forall_impl; [|exact H]. intros data (payload & _ & ->).
    exists payload. apply part_framed. }
  destruct (handle_frame lib q lat s fr) as [evs [s'|e]]; [|exact H'].
  specialize (IH s'). destruct (handle_frames lib q lat s' frames) as [evs' r].
  simpl in *. rewrite yielded_app. apply Forall_app. now split.
Qed.

Lemma handle_chunks_framed (s : session) (chunks : list bytes) :
  Forall (fun data => exists payload, multipart_part payload data)
         (yielded (fst (handle_chunks lib q lat s chunks))).
Proof.
  revert s. induction chunks as [|c chunks IH]; intros s; [constructor|].
  destruct c as [|b c]; [constructor|]. cbn [handle_chunks].
  assert (H : Forall (fun data => exists payload, multipart_part payload data)
                (yielded (fst (handle_chunk lib q lat s (b :: c))))).
  { unfold handle_chunk. destruct (feed (buffer s) (b :: c)) as [frames b'].
    apply handle_frames_framed. }
  destruct (handle_chunk lib q lat s (b :: c)) as [evs [s'|e]]; [|exact H].
  specialize (IH s'). destruct (handle_chunks lib q lat s' chunks) as [evs' r].
  simpl in *. rewrite yielded_app. apply Forall_app. now split.
Qed.

End Frames.

(** C6.  Every part that [generate] yields for a frame is the boundary
    line [--frame], the line [Content-Type: image/jpeg], a
    [Content-Length] line whose value is the length in bytes of the payload
    that follows the empty line, that payload, and a final CRLF; the
    payload is what transcoding returned for the frame. *)
Theorem parts_are_framed (lib : library) (q : stream_query)
    (lat : nat -> latency) :
  (forall s frame_bytes,
     Forall (fun data =>
               exists payload,
                 transcode lib q frame_bytes = inl payload /\
                 data = part payload /\ multipart_part payload data)
            (yielded (fst (handle_frame lib q lat s frame_bytes)))) /\
  (forall t0 r,
     Forall (fun data => exists payload, multipart_part payload data)
            (yielded (generate lib q lat t0 r))).
Proof.
  split.
  - intros s frame_bytes.
    eapply Forall_impl; [|apply handle_frame_yield].
    intros data (payload & T & ->). exists payload.
    repeat split; [exact T | apply part_framed].
  - intros t0 r. unfold generate. destruct r as [e|resp]; [constructor|].
    destruct (negb (status resp =? 200)); [constructor|].
    destruct (str_in "text/html" (lower (content_type resp))); [constructor|].
    pose proof (handle_chunks_framed lib q lat
                  {| buffer := []; last_sent := 0%Q; clock := t0; seen := O |}
                  (body resp)) as H.
    destruct (handle_chunks lib q lat _ (body resp)) as [evs res].
    simpl in H.
    assert (N : forall m, yielded (evs ++ [Notice m]) = yielded evs).
    { intros m. rewrite yielded_app. simpl. apply app_nil_r. }
    destruct res as [[s' ex]|e]; [|now rewrite N].
    destruct (body_error resp); [|exact H].
    destruct ex; [now rewrite N | exact H].
Qed.

(** C9.  With the default parameters (resolution ['auto'], quality
    ['high']) no size is targeted and every frame goes to the JPEG decoder;
    a frame that decodes is re-encoded at JPEG quality 90 (the map being
    high 90, medium 75, low 60, anything else 85) and what is sent is the
    encoder's output, not the bytes received; the original bytes pass
    through unchanged only when decoding fails.  [cv2.imencode] is taken to
    report success on the images that [cv2.imdecode] returns; the test of
    its flag is stated as the code makes it. *)
Theorem default_query_reencodes (lib : library) (q : stream_query)
    (frame_bytes : bytes) :
  resolution q = "auto" -> quality q = "high" ->
  target_size lib q = None /\
  jpeg_quality (quality q) = 90 /\
  transcode lib q frame_bytes =
    match imdecode lib frame_bytes with
    | None => inl frame_bytes
    | Some img =>
        let '(ok, enc) := imencode lib img 90 in
        if ok then inl enc else inl frame_bytes
    end /\
  ((forall img, fst (imencode lib img 90) = true) ->
   transcode lib q frame_bytes =
     match imdecode lib frame_bytes with
     | None => inl frame_bytes
     | Some img => inl (snd (imencode lib img 90))
     end) /\
  jpeg_quality "high" = 90 /\ jpeg_quality "medium" = 75 /\
  jpeg_quality "low" = 60 /\
  (forall other,
     other <> "high" -> other <> "medium" -> other <> "low" ->
     jpeg_quality other = 85).
Proof.
  intros R Q.
  assert (S : target_size lib q = None).
  { unfold target_size. now rewrite R. }
  assert (T : transcode lib q frame_bytes =
              match imdecode lib frame_bytes with
              | None => inl frame_bytes
              | Some img =>
                  let '(ok, enc) := imencode lib img 90 in
                  if ok then inl enc else inl frame_bytes
              end).
  { unfold transcode. rewrite S, Q. reflexivity. }
  split; [exact S|]. split; [now rewrite Q|]. split; [exact T|].
  split.
  - intros Ok. rewrite T.
    destruct (imdecode lib frame_bytes) as [img|]; [|reflexivity].
    specialize (Ok img). destruct (imencode lib img 90) as [ok enc].
    simpl in Ok. now rewrite Ok.
  - repeat split; try reflexivity.
    intros other H M L. unfold jpeg_quality, quality_map. cbn [dict_get].
    apply String.eqb_neq in H, M, L. now rewrite H, M, L.
Qed.

Lemma default_query_reencodes_witness :
  transcode sample_library default_query [xff; xd8; x01; x02; xff; xd9] =
  inl (snd (imencode sample_library [xff; xd8; x01; x02; xff; xd9] 90)).
Proof.
  destruct (default_query_reencodes sample_library default_query
              [xff; xd8; x01; x02; xff; xd9]) as (_ & _ & _ & H & _).
  - reflexivity.
  - reflexivity.
  - apply H. intros img. reflexivity.
Defined.

End TranscodeResults.

(** ** Main results on the drop strategies *)

Module DropResults.
Import TimeFacts PaceFacts.

(** C4 (amended).  When a rate [f] is set and a chunk arrives less than one
    interval after the last one sent, [stream_with_fps_limit] (ef.py and
    fastapi_viewer.py) takes the same decision for ['oldest'] and for
    ['latest']: the chunk is skipped, nothing is yielded or buffered and
    [last_frame_time] is unchanged.  In [generate] of ef.py only ['latest']
    drops the frame; with ['oldest'], as with any other strategy, the relay
    sleeps for interval minus elapsed and then sends the frame. *)
Theorem oldest_and_latest (f last now : Q) :
  (0 < f)%Q -> (now - last < 1 / f)%Q ->
  (forall quality,
     Ef.chunk_control (Some f) "oldest" quality last now = Ef.Skip /\
     Ef.chunk_control (Some f) "latest" quality last now = Ef.Skip) /\
  (FastapiViewer.chunk_control (Some f) "oldest" last now = Ef.Skip /\
   FastapiViewer.chunk_control (Some f) "latest" last now = Ef.Skip) /\
  (forall ds quality lat clock n chunk chunks error,
     ds = "oldest" \/ ds = "latest" -> chunk <> [] ->
     (clock + before (lat n))%Q = now ->
     Ef.relay_chunks (Some f) ds quality lat last clock n
                     (chunk :: chunks) error =
     Ef.relay_chunks (Some f) ds quality lat last now (S n) chunks error /\
     FastapiViewer.relay_chunks (Some f) ds lat last clock n
                                (chunk :: chunks) error =
     FastapiViewer.relay_chunks (Some f) ds lat last now (S n) chunks error) /\
  (forall q,
     Ef.fps_limit q = Some f ->
     (Ef.drop_strategy q = "latest" ->
      Ef.fps_control q last now = Ef.PaceDrop) /\
     (Ef.drop_strategy q <> "latest" ->
      Ef.fps_control q last now = Ef.PaceSleep (1 / f - (now - last)))).
Proof.
  intros Hpos Hlt.
  pose proof (truthy_pos f Hpos) as T.
  pose proof Hlt as L. apply Qltb_lt in L.
  assert (E : forall ds quality, ds = "oldest" \/ ds = "latest" ->
              Ef.chunk_control (Some f) ds quality last now = Ef.Skip).
  { intros ds quality [-> | ->]; unfold Ef.chunk_control;
      rewrite T, L; reflexivity. }
  assert (F : forall ds, ds = "oldest" \/ ds = "latest" ->
              FastapiViewer.chunk_control (Some f) ds last now = Ef.Skip).
  { intros ds [-> | ->]; unfold FastapiViewer.chunk_control;
      rewrite T, L; reflexivity. }
  split; [intros quality; split; apply E; auto|].
  split; [split; apply F; auto|].
  split.
  - intros ds quality lat clock n chunk chunks error Hds Hne Hnow.
    destruct chunk as [|b chunk]; [congruence|]. split.
    + cbn [Ef.relay_chunks]. rewrite Hnow. now rewrite (E ds quality Hds).
    + cbn [FastapiViewer.relay_chunks]. rewrite Hnow. now rewrite (F ds Hds).
  - intros q Hq. split; intros D.
    + rewrite (fps_control_cases q f Hq Hpos), L, D. reflexivity.
    + rewrite (fps_control_cases q f Hq Hpos), L.
      apply String.eqb_neq in D. now rewrite D.
Qed.

Lemma oldest_and_latest_witness :
  Ef.chunk_control (Some 10%Q) "oldest" "high" 1000 (20001 # 20) = Ef.Skip /\
  Ef.chunk_control (Some 10%Q) "latest" "high" 1000 (20001 # 20) = Ef.Skip.
Proof.
  apply (oldest_and_latest 10 1000 (20001 # 20)); reflexivity.
Defined.

(** C4 as stated fails in [generate]: a frame that arrives 50 ms after the
    last emission at 10 frames per second is dropped with ['latest'] and
    sent, after a sleep, with ['oldest']. *)
Lemma oldest_is_not_latest_in_generate :
  Ef.fps_control (ten_fps "oldest") 1000 (20001 # 20) <>
  Ef.fps_control (ten_fps "latest") 1000 (20001 # 20)
  /\
  yielded (fst (Ef.handle_frame sample_library (ten_fps "latest") every_50ms
                  {| Ef.buffer := []; Ef.last_sent := 1000%Q;
                     Ef.clock := 1000%Q; Ef.seen := O |}
                  [xff; xd8; x01; xff; xd9])) = []
  /\
  yielded (fst (Ef.handle_frame sample_library (ten_fps "oldest") every_50ms
                  {| Ef.buffer := []; Ef.last_sent := 1000%Q;
                     Ef.clock := 1000%Q; Ef.seen := O |}
                  [xff; xd8; x01; xff; xd9])) =
  [Ef.part [xff; xd8; x01; xff; xd9]].
Proof. repeat split; vm_compute; try reflexivity; discriminate. Qed.

End DropResults.

(** ** Main results on the endpoints *)

Module EndpointResults.
Import TimeFacts.

(** C5 (amended).  [scan_endpoints] of ef.py reports an answer as
    ['available'] exactly when its lower-cased [Content-Type] contains
    [multipart/x-mixed-replace] or [image/jpeg], whatever the status code,
    which is reported next to it; an answer whose content type is
    [text/html] is reported as ['not_mjpeg'], never as ['error'] and never
    as ['available']; ['error'] is reported exactly when the request raises.
    [scan_endpoints] of cv.py reports [available] exactly when the status
    code it reports is 200, whatever the content type. *)
Theorem scan_classification (resp : response) :
  Ef.scan_endpoint (GetOk resp) =
    (if is_mjpeg (lower (content_type resp))
     then Ef.Available (lower (content_type resp)) (status resp)
     else Ef.NotMjpeg (lower (content_type resp)) (status resp)) /\
  (lower (content_type resp) = "text/html" ->
   Ef.scan_endpoint (GetOk resp) = Ef.NotMjpeg "text/html" (status resp)) /\
  (forall r e, Ef.scan_endpoint r = Ef.Error e <-> r = GetRaise e) /\
  (forall head get preview_of url u st ct av pv,
     Cv.scan_endpoint head get preview_of url = Cv.Probed u st ct av pv ->
     av = (st =? 200)) /\
  (forall head get preview_of url,
     head url = GetOk resp -> status resp < 400 ->
     Cv.scan_endpoint head get preview_of url =
     Cv.Probed url (status resp) (content_type resp) (status resp =? 200) "").
Proof.
  split; [reflexivity|].
  split; [intros H; unfold Ef.scan_endpoint; now rewrite H|].
  split; [|split].
  - intros r e. split.
    + destruct r as [e'|resp']; simpl; [congruence|].
      now destruct (is_mjpeg _).
    + intros ->. reflexivity.
  - intros head get preview_of url u st ct av pv H.
    unfold Cv.scan_endpoint in H.
    destruct (head url) as [e|r]; [discriminate|].
    destruct (400 <=? status r).
    + destruct (get url) as [e|r']; [discriminate|].
      now injection H as <- <- <- <- <-.
    + now injection H as <- <- <- <- <-.
  - intros head get preview_of url H L. unfold Cv.scan_endpoint. rewrite H.
    apply Z.leb_gt in L. now rewrite L.
Qed.

Lemma scan_classification_witness :
  Ef.scan_endpoint (plain_answer 200 "text/html") =
  Ef.NotMjpeg "text/html" 200.
Proof.
  apply (scan_classification
           {| status := 200; content_type_header := Some "text/html";
              body := []; body_error := None |}).
  reflexivity.
Defined.

(** C5 as stated fails: ef.py reports a 404 answer with a JPEG content type
    as ['available'], and cv.py reports a 200 answer of type [text/html] as
    available. *)
Lemma scan_counterexample :
  Ef.scan_endpoint (plain_answer 404 "image/jpeg") =
    Ef.Available "image/jpeg" 404
  /\
  Cv.scan_endpoint (fun _ => plain_answer 200 "text/html") all_refused
                   (fun _ => "") "http://192.168.8.253:4747/video" =
    Cv.Probed "http://192.168.8.253:4747/video" 200 "text/html" true "".
Proof. split; reflexivity. Qed.

Section Candidates.
Variable http : string -> get_result.
Variable fps_limit : option Q.
Variable drop_strategy : string.
Variable quality : string.
Variable lat : nat -> latency.

Lemma relay_chunks_raised (last clock : Q) (n : nat) (chunks : list bytes)
    (error : option string) :
  fst (fst (snd (Ef.relay_chunks fps_limit drop_strategy quality lat
                   last clock n chunks error))) =
  match error with
  | Some _ => forallb (fun c : bytes => negb (Nat.eqb (List.length c) 0)) chunks
  | None => false
  end.
Proof.
  revert last clock n. induction chunks as [|c chunks IH]; intros last clock n.
  - now destruct error.
  - destruct c as [|b c]; [now destruct error|]. cbn [Ef.relay_chunks].
    destruct (Ef.chunk_control _ _ _ _ _) as [|slept].
    + rewrite IH. now destruct error.
    + match goal with
      | |- context [Ef.relay_chunks _ _ _ _ ?l ?c ?m chunks error] =>
          specialize (IH l c m);
          destruct (Ef.relay_chunks fps_limit drop_strategy quality lat
                      l c m chunks error) as [evs r]
      end.
      simpl in *. rewrite IH. now destruct error.
Qed.

Lemma relay_chunks_no_get (last clock : Q) (n : nat) (chunks : list bytes)
    (error : option string) :
  contacted (fst (Ef.relay_chunks fps_limit drop_strategy quality lat
                    last clock n chunks error)) = [].
Proof.
  revert last clock n. induction chunks as [|c chunks IH]; intros last clock n.
  - reflexivity.
  - destruct c as [|b c]; [reflexivity|]. cbn [Ef.relay_chunks].
    destruct (Ef.chunk_control _ _ _ _ _) as [|slept]; [apply IH|].
    match goal with
    | |- context [Ef.relay_chunks _ _ _ _ ?l ?c ?m chunks error] =>
        specialize (IH l c m);
        destruct (Ef.relay_chunks fps_limit drop_strategy quality lat
                    l c m chunks error) as [evs r]
    end.
    simpl in *. rewrite contacted_app. simpl. rewrite IH.
    now destruct slept.
Qed.

Lemma relay_chunks_unlimited (last clock : Q) (n : nat)
    (chunks : list bytes) (error : option string) :
  truthy fps_limit = false ->
  yielded (fst (Ef.relay_chunks fps_limit drop_strategy quality lat
                  last clock n chunks error)) = until_empty chunks.
Proof.
  intros U. revert last clock n.
  induction chunks as [|c chunks IH]; intros last clock n; [reflexivity|].
  destruct c as [|b c]; [reflexivity|]. cbn [Ef.relay_chunks until_empty].
  unfold Ef.chunk_control. rewrite U.
  match goal with
  | |- context [Ef.relay_chunks _ _ _ _ ?l ?c ?m chunks error] =>
      specialize (IH l c m);
      destruct (Ef.relay_chunks fps_limit drop_strategy quality lat
                  l c m chunks error) as [evs r]
  end.
  simpl in *. now rewrite IH.
Qed.

(** A candidate that is not accepted is contacted, nothing is relayed from
    it, and the loop goes on to the next one. *)
Lemma try_endpoints_reject (clock : Q) (n : nat) (u : string)
    (eps : list string) :
  accepted (http u) = false ->
  Ef.try_endpoints http fps_limit drop_strategy quality lat clock n (u :: eps) =
  let '(evs', r) :=
    Ef.try_endpoints http fps_limit drop_strategy quality lat clock n eps in
  (Get u :: evs', r).
Proof.
  intros H. cbn [Ef.try_endpoints]. unfold accepted in H.
  destruct (http u) as [e|resp]; [reflexivity|].
  destruct (status resp =? 200); cbn [negb andb] in *; [|reflexivity].
  now rewrite H.
Qed.

Lemma try_endpoints_relays (clock : Q) (n : nat) (pre : list string)
    (e : string) (post : list string) (resp : response) :
  (forall u, In u pre -> accepted (http u) = false) ->
  http e = GetOk resp -> streams (http e) = true ->
  truthy fps_limit = false ->
  yielded (fst (Ef.try_endpoints http fps_limit drop_strategy quality lat
                  clock n (pre ++ e :: post))) = until_empty (body resp).
Proof.
  intros Hpre He Hs U. induction pre as [|u pre IH].
  - cbn [app Ef.try_endpoints]. unfold streams, accepted, body_raises in Hs.
    rewrite He in *.
    apply andb_true_iff in Hs as [A B]. apply andb_true_iff in A as [A1 A2].
    rewrite A1, A2. cbn [negb].
    pose proof (relay_chunks_raised 0 clock n (body resp) (body_error resp)) as R.
    pose proof (relay_chunks_unlimited 0 clock n (body resp) (body_error resp) U) as Y.
    destruct (Ef.relay_chunks _ _ _ _ _ _ _ _ _) as [evs [[raised clock'] n']].
    simpl in R, Y. apply negb_true_iff in B. rewrite <- R in B. subst raised.
    exact Y.
  - change ((u :: pre) ++ e :: post) with (u :: (pre ++ e :: post)).
    rewrite (try_endpoints_reject clock n u _ (Hpre u (or_introl eq_refl))).
    specialize (IH (fun v Hv => Hpre v (or_intror Hv))).
    destruct (Ef.try_endpoints _ _ _ _ _ clock n (pre ++ e :: post)) as [evs' r].
    exact IH.
Qed.

(** A candidate that does not stream is contacted and the loop goes on to
    the next one. *)
Lemma try_endpoints_skip (clock : Q) (n : nat) (u : string)
    (eps : list string) :
  streams (http u) = false ->
  exists evs clock' n',
    contacted evs = [] /\
    Ef.try_endpoints http fps_limit drop_strategy quality lat clock n (u :: eps) =
    let '(evs', r) :=
      Ef.try_endpoints http fps_limit drop_strategy quality lat clock' n' eps in
    (Get u :: evs ++ evs', r).
Proof.
  intros H. cbn [Ef.try_endpoints]. unfold streams, accepted, body_raises in H.
  destruct (http u) as [e|resp].
  - exists [], clock, n. split; [reflexivity|].
    now destruct (Ef.try_endpoints _ _ _ _ _ _ _ _).
  - destruct (status resp =? 200); cbn [negb andb] in *.
    + destruct (is_mjpeg (lower (content_type resp))); cbn [andb] in H.
      * pose proof (relay_chunks_raised 0 clock n (body resp) (body_error resp)) as R.
        pose proof (relay_chunks_no_get 0 clock n (body resp) (body_error resp)) as G.
        destruct (Ef.relay_chunks _ _ _ _ _ _ _ _ _) as [evs [[raised clock'] n']].
        simpl in R, G. apply negb_false_iff in H. rewrite <- R in H. subst raised.
        exists evs, clock', n'. split; [exact G|].
        now destruct (Ef.try_endpoints _ _ _ _ _ _ _ _).
      * exists [], clock, n. split; [reflexivity|].
        now destruct (Ef.try_endpoints _ _ _ _ _ _ _ _).
    + exists [], clock, n. split; [reflexivity|].
      now destruct (Ef.try_endpoints _ _ _ _ _ _ _ _).
Qed.

Lemma try_endpoints_take (clock : Q) (n : nat) (e : string)
    (eps : list string) :
  streams (http e) = true ->
  contacted (fst (Ef.try_endpoints http fps_limit drop_strategy quality lat
                    clock n (e :: eps))) = [e] /\
  snd (Ef.try_endpoints http fps_limit drop_strategy quality lat
         clock n (e :: eps)) = true.
Proof.
  intros H. cbn [Ef.try_endpoints]. unfold streams, accepted, body_raises in H.
  destruct (http e) as [err|resp]; [discriminate|].
  apply andb_true_iff in H as [A B]. apply andb_true_iff in A as [A1 A2].
  rewrite A1, A2. cbn [negb].
  pose proof (relay_chunks_raised 0 clock n (body resp) (body_error resp)) as R.
  pose proof (relay_chunks_no_get 0 clock n (body resp) (body_error resp)) as G.
  destruct (Ef.relay_chunks _ _ _ _ _ _ _ _ _) as [evs [[raised clock'] n']].
  simpl in R, G. apply negb_true_iff in B. rewrite <- R in B. subst raised.
  simpl. now rewrite G.
Qed.

Lemma try_endpoints_none (clock : Q) (n : nat) (eps : list string) :
  (forall u, In u eps -> streams (http u) = false) ->
  contacted (fst (Ef.try_endpoints http fps_limit drop_strategy quality lat
                    clock n eps)) = eps /\
  snd (Ef.try_endpoints http fps_limit drop_strategy quality lat
         clock n eps) = false.
Proof.
  revert clock n. induction eps as [|u eps IH]; intros clock n H; [now split|].
  destruct (try_endpoints_skip clock n u eps (H u (or_introl eq_refl)))
    as (evs & clock' & n' & G & ->).
  specialize (IH clock' n' (fun v Hv => H v (or_intror Hv))).
  destruct (Ef.try_endpoints _ _ _ _ _ clock' n' eps) as [evs' r].
  simpl in *. rewrite contacted_app, G. simpl.
  destruct IH as [-> ->]. now split.
Qed.

Lemma try_endpoints_first (clock : Q) (n : nat) (pre : list string)
    (e : string) (post : list string) :
  (forall u, In u pre -> streams (http u) = false) ->
  streams (http e) = true ->
  contacted (fst (Ef.try_endpoints http fps_limit drop_strategy quality lat
                    clock n (pre ++ e :: post))) = pre ++ [e] /\
  snd (Ef.try_endpoints http fps_limit drop_strategy quality lat
         clock n (pre ++ e :: post)) = true.
Proof.
  revert clock n. induction pre as [|u pre IH]; intros clock n H He.
  - now apply try_endpoints_take.
  - change ((u :: pre) ++ e :: post) with (u :: (pre ++ e :: post)).
    destruct (try_endpoints_skip clock n u (pre ++ e :: post)
                (H u (or_introl eq_refl)))
      as (evs & clock' & n' & G & ->).
    specialize (IH clock' n' (fun v Hv => H v (or_intror Hv)) He).
    destruct (Ef.try_endpoints _ _ _ _ _ clock' n' (pre ++ e :: post)) as [evs' r].
    simpl in *. rewrite contacted_app, G. simpl.
    destruct IH as [-> ->]. now split.
Qed.

End Candidates.

(** C8 (amended).  [stream_with_fps_limit] tries its six candidate URLs in
    a fixed order ([/mjpegfeed], [/video], [/cam/1/stream], [/cam/1/mjpeg],
    [/], [/stream]).  It relays the first one that answers 200 with an MJPEG
    content type and whose stream does not raise; once that stream is over
    the generator returns and the remaining candidates are not contacted
    (without a rate limit, and the candidates before it not being accepted,
    what is relayed is the chunks of that stream up to its end or to its
    first empty chunk).  When no candidate does so, every candidate has been
    contacted and [HTTPException] 503 is raised, with a fixed message that
    names the address and the port and does not list the attempts. *)
Theorem first_streaming_endpoint (http : string -> get_result)
    (fps_limit : option Q) (drop_strategy quality : string)
    (lat : nat -> latency) (t0 : Q) (ip : string) (port : Z) :
  let run := Ef.stream_with_fps_limit http fps_limit drop_strategy quality
               lat t0 ip port in
  let base := ("http://" ++ ip ++ ":" ++ str_of_Z port)%string in
  Ef.endpoints ip port =
    [(base ++ "/mjpegfeed")%string; (base ++ "/video")%string;
     (base ++ "/cam/1/stream")%string; (base ++ "/cam/1/mjpeg")%string;
     (base ++ "/")%string; (base ++ "/stream")%string] /\
  (forall pre e post,
     Ef.endpoints ip port = pre ++ e :: post ->
     (forall u, In u pre -> streams (http u) = false) ->
     streams (http e) = true ->
     contacted (fst run) = pre ++ [e] /\ snd run = Ef.Returned /\
     (forall resp,
        truthy fps_limit = false ->
        (forall u, In u pre -> accepted (http u) = false) ->
        http e = GetOk resp ->
        yielded (fst run) = until_empty (body resp))) /\
  ((forall u, In u (Ef.endpoints ip port) -> streams (http u) = false) ->
   contacted (fst run) = Ef.endpoints ip port /\
   snd run = Ef.HTTPException 503 (Ef.error_msg ip port)).
Proof.
  cbv zeta. unfold Ef.stream_with_fps_limit.
  split; [reflexivity|]. split.
  - intros pre e post Heq Hpre He. rewrite Heq.
    destruct (try_endpoints_first http fps_limit drop_strategy quality lat
                t0 O pre e post Hpre He) as [C R].
    pose proof (fun resp U A E =>
                  try_endpoints_relays http fps_limit drop_strategy quality
                    lat t0 O pre e post resp A E He U) as Y.
    destruct (Ef.try_endpoints _ _ _ _ _ _ _ _) as [evs r]. simpl in *.
    rewrite C, R. repeat split. exact Y.
  - intros Hall.
    destruct (try_endpoints_none http fps_limit drop_strategy quality lat
                t0 O (Ef.endpoints ip port) Hall) as [C R].
    destruct (Ef.try_endpoints _ _ _ _ _ _ _ _) as [evs r]. simpl in *.
    now rewrite C, R.
Qed.

Lemma first_streaming_endpoint_witness :
  let run :=
    Ef.stream_with_fps_limit
      (serving "http://192.168.8.253:4747/video" [[x01; x02]; [x03]] None)
      None "none" "high" every_50ms 1000 "192.168.8.253" 4747 in
  contacted (fst run) =
    ["http://192.168.8.253:4747/mjpegfeed"; "http://192.168.8.253:4747/video"]
  /\ snd run = Ef.Returned
  /\ yielded (fst run) = [[x01; x02]; [x03]].
Proof.
  destruct (first_streaming_endpoint
              (serving "http://192.168.8.253:4747/video" [[x01; x02]; [x03]] None)
              None "none" "high" every_50ms 1000 "192.168.8.253" 4747)
    as (_ & H & _).
  destruct (H ["http://192.168.8.253:4747/mjpegfeed"]
              "http://192.168.8.253:4747/video"
              ["http://192.168.8.253:4747/cam/1/stream";
               "http://192.168.8.253:4747/cam/1/mjpeg";
               "http://192.168.8.253:4747/";
               "http://192.168.8.253:4747/stream"])
    as (C & R & Y).
  - reflexivity.
  - intros u [<- | []]. reflexivity.
  - reflexivity.
  - split; [exact C|]. split; [exact R|].
    apply (Y {| status := 200;
                content_type_header :=
                  Some "multipart/x-mixed-replace; boundary=x";
                body := [[x01; x02]; [x03]]; body_error := None |}).
    + reflexivity.
    + intros u [<- | []]. reflexivity.
    + reflexivity.
Defined.

(** C8 as stated fails: when every candidate is refused the failure raised
    names none of the URLs tried, and when the first candidate answers with
    an MJPEG stream that raises after a chunk, the remaining candidates are
    contacted all the same. *)
Lemma failure_lists_no_attempt :
  (let run :=
     Ef.stream_with_fps_limit all_refused None "none" "high" every_50ms 1000
                              "192.168.8.253" 4747 in
   contacted (fst run) = Ef.endpoints "192.168.8.253" 4747 /\
   exists detail,
     snd run = Ef.HTTPException 503 detail /\
     forallb (fun u => negb (str_in u detail))
             (Ef.endpoints "192.168.8.253" 4747) = true)
  /\
  (let run :=
     Ef.stream_with_fps_limit
       (serving "http://192.168.8.253:4747/mjpegfeed" [[x01; x02]]
                (Some "Timeout"))
       None "none" "high" every_50ms 1000 "192.168.8.253" 4747 in
   accepted (serving "http://192.168.8.253:4747/mjpegfeed" [[x01; x02]]
                     (Some "Timeout") "http://192.168.8.253:4747/mjpegfeed")
   = true /\
   yielded (fst run) = [[x01; x02]] /\
   contacted (fst run) = Ef.endpoints "192.168.8.253" 4747).
Proof.
  split.
  - split; [reflexivity|]. eexists. split; [reflexivity|]. vm_compute. reflexivity.
  - repeat split; vm_compute; reflexivity.
Qed.

End EndpointResults.

(** ** Further results on the frame extractor *)

Module ExtractorExtras.
Import PyFacts EfFacts.

(** What a successful turn cuts, with what the cut pieces cannot contain:
    no SOI before the frame, no EOI inside it. *)
Lemma extract_step_pieces (buffer f r : bytes) :
  Ef.extract_step buffer = Some (f, r) ->
  exists g a,
    buffer = g ++ f ++ r /\ f = Ef.SOI ++ a ++ Ef.EOI /\
    index_of Ef.SOI g = None /\ index_of Ef.EOI a = None.
Proof.
  rewrite extract_step_offsets, extract_offsets_iff.
  intros (g & a & B & F & I & J). exists g, a. repeat split.
  - rewrite B, F. now rewrite <- !app_assoc.
  - exact F.
  - destruct (index_of Ef.SOI g) as [i|] eqn:E; [|reflexivity].
    pose proof (index_of_bound _ _ _ E) as L.
    apply index_of_app with (more := Ef.SOI ++ a ++ Ef.EOI ++ r) in E.
    rewrite <- B, I in E. injection E as E. simpl in L. lia.
  - destruct (index_of Ef.EOI a) as [i|] eqn:E; [|reflexivity].
    pose proof (index_of_bound _ _ _ E) as L.
    apply index_of_app with (more := Ef.EOI ++ r) in E.
    rewrite J in E. injection E as E. simpl in L. lia.
Qed.

(** X1.  The extraction loop of [generate] always ends, and it ends at its
    [break]: any fuel not smaller than the length of the extended buffer
    gives the same frames and the same buffer, and the buffer left holds no
    complete frame. *)
Theorem feed_stops_at_break (buffer chunk : bytes) (fuel : nat) :
  (List.length (buffer ++ chunk) <= fuel)%nat ->
  Ef.drain_fuel fuel (buffer ++ chunk) = Ef.feed buffer chunk /\
  no_complete_frame (snd (Ef.feed buffer chunk)).
Proof.
  intros H. split.
  - now apply drain_fuel_enough.
  - apply ExtractorResults.no_complete_frame_step. apply drain_complete.
Qed.

Lemma feed_stops_at_break_witness :
  Ef.drain_fuel 40 ([x00; xff; xd8] ++ [x01; xff; xd9; xff; xd8; x02]) =
  Ef.feed [x00; xff; xd8] [x01; xff; xd9; xff; xd8; x02] /\
  no_complete_frame (snd (Ef.feed [x00; xff; xd8] [x01; xff; xd9; xff; xd8; x02])).
Proof.
  apply (feed_stops_at_break [x00; xff; xd8] [x01; xff; xd9; xff; xd8; x02] 40).
  simpl. lia.
Defined.

Lemma drain_delimited (buffer : bytes) :
  Forall (fun f => exists a, f = Ef.SOI ++ a ++ Ef.EOI /\ index_of Ef.EOI a = None)
         (fst (Ef.drain buffer)).
Proof.
  induction buffer as [buffer E | buffer f r E IH] using drain_ind.
  - rewrite (drain_none _ E). constructor.
  - rewrite drain_eq, E. destruct (Ef.drain r) as [fs rest]. simpl in *.
    constructor; [|exact IH].
    destruct (extract_step_pieces _ _ _ E) as (g & a & _ & F & _ & A).
    now exists a.
Qed.

(** X2.  Every frame cut out by [generate] starts with the SOI marker, ends
    with the EOI marker and has no EOI marker before its last two bytes (it
    may contain further SOI markers); it is at least four bytes long. *)
Theorem frames_are_delimited (buffer chunk : bytes) :
  Forall (fun f =>
            (exists a, f = Ef.SOI ++ a ++ Ef.EOI /\ index_of Ef.EOI a = None) /\
            (4 <= List.length f)%nat)
         (fst (Ef.feed buffer chunk)).
Proof.
  eapply Forall_impl; [|apply drain_delimited].
  intros f (a & -> & A). split; [now exists a|].
  simpl. rewrite length_app. simpl. lia.
Qed.

(** X3.  The extractor loses nothing but the bytes in front of a frame:
    the bytes received are the frames cut out, each preceded by a gap that
    holds no SOI marker, followed by the buffer that is kept. *)
Theorem feed_conserves (buffer chunk : bytes) :
  exists gaps,
    List.length gaps = List.length (fst (Ef.feed buffer chunk)) /\
    Forall (fun g => index_of Ef.SOI g = None) gaps /\
    buffer ++ chunk =
    weave gaps (fst (Ef.feed buffer chunk)) ++ snd (Ef.feed buffer chunk).
Proof.
  unfold Ef.feed. generalize (buffer ++ chunk) as b. clear buffer chunk.
  intros b. pattern b. apply drain_ind; clear b.
  - intros b E. exists []. rewrite (drain_none _ E). repeat split. constructor.
  - intros b f r E IH. destruct IH as (gaps & L & G & C).
    destruct (extract_step_pieces _ _ _ E) as (g & a & B & _ & Hg & _).
    rewrite drain_eq, E. destruct (Ef.drain r) as [fs rest]. simpl in *.
    exists (g :: gaps). repeat split.
    + simpl. now rewrite L.
    + now constructor.
    + simpl. rewrite B, C at 1. now rewrite <- !app_assoc.
Qed.

End ExtractorExtras.

(** ** Further results on [generate] *)

Module GenerateExtras.
Import TimeFacts PaceFacts EfFacts Ef.

Lemma subseq_refl {A : Type} (l : list A) : subseq l l.
Proof. induction l; constructor; assumption. Qed.

Lemma subseq_nil_l {A : Type} (l : list A) : subseq [] l.
Proof. induction l; constructor; assumption. Qed.

Lemma subseq_app {A : Type} (xs ys xs' ys' : list A) :
  subseq xs ys -> subseq xs' ys' -> subseq (xs ++ xs') (ys ++ ys').
Proof.
  intros H H'. induction H; simpl; [exact H' | |]; constructor; assumption.
Qed.

Lemma never_sleeps_app (evs evs' : list event) :
  never_sleeps evs -> never_sleeps evs' -> never_sleeps (evs ++ evs').
Proof. intros H H'. apply Forall_app. now split. Qed.

Section Relay.
Variable lib : library.
Variable q : stream_query.
Variable lat : nat -> latency.

(** The FPS control drops a frame only under ['latest'] with a positive
    interval. *)
Lemma fps_control_drop (last_sent now : Q) :
  fps_control q last_sent now = PaceDrop ->
  drop_strategy q = "latest" /\ (0 < frame_interval (fps_limit q))%Q.
Proof.
  unfold fps_control. cbv zeta.
  destruct (Qltb 0 (frame_interval (fps_limit q))) eqn:P; [|discriminate].
  destruct (Qltb (now - last_sent) (frame_interval (fps_limit q)));
    [|discriminate].
  destruct (String.eqb (drop_strategy q) "latest") eqn:L.
  - intros _. split; [now apply String.eqb_eq | now apply Qltb_lt].
  - now destruct (String.eqb (drop_strategy q) "oldest").
Qed.

(** It sleeps only under a strategy other than ['latest']. *)
Lemma fps_control_sleep (last_sent now d : Q) :
  fps_control q last_sent now = PaceSleep d -> drop_strategy q <> "latest".
Proof.
  unfold fps_control. intros H E. rewrite E in H. simpl in H.
  destruct (Qltb 0 _); [|discriminate]. now destruct (Qltb _ _).
Qed.

Lemma transcode_without_size (frame_bytes : bytes) :
  target_size lib q = None ->
  exists payload, transcode lib q frame_bytes = inl payload.
Proof.
  intros T. unfold transcode. rewrite T.
  destruct (_ || _); [|now eexists].
  destruct (imdecode lib frame_bytes) as [img|]; [|now eexists].
  destruct (imencode lib img _) as [[|] enc]; now eexists.
Qed.

(** Transcoding raises for no frame. *)
Hypothesis Hok :
  forall frame_bytes, exists payload, transcode lib q frame_bytes = inl payload.

Lemma handle_frame_relays (s : session) (frame_bytes : bytes) :
  exists payload evs s',
    transcode lib q frame_bytes = inl payload /\
    handle_frame lib q lat s frame_bytes = (evs, inl s') /\
    buffer s' = buffer s /\
    Forall (fun ev => match ev with Notice _ => False | _ => True end) evs /\
    (drop_strategy q = "latest" -> never_sleeps evs) /\
    (yielded evs = [part payload] \/
     (yielded evs = [] /\
      fps_control q (last_sent s) (clock s + before (lat (seen s))) = PaceDrop)).
Proof.
  destruct (Hok frame_bytes) as [payload T].
  exists payload. unfold handle_frame. rewrite T.
  destruct (fps_control q (last_sent s) _) as [| |d] eqn:C;
    eexists; eexists; (split; [reflexivity|]); (split; [reflexivity|]);
    (split; [reflexivity|]); (split; [repeat constructor|]);
    (split; [|auto]).
  - intros _. repeat constructor.
  - intros _. constructor.
  - intros L. now apply fps_control_sleep in C.
Qed.

Lemma handle_frames_relays (s : session) (frames : list bytes) :
  exists payloads evs s',
    map (transcode lib q) frames = map inl payloads /\
    handle_frames lib q lat s frames = (evs, inl s') /\
    buffer s' = buffer s /\
    Forall (fun ev => match ev with Notice _ => False | _ => True end) evs /\
    (drop_strategy q = "latest" -> never_sleeps evs) /\
    subseq (yielded evs) (map part payloads) /\
    ((forall last_sent now, fps_control q last_sent now <> PaceDrop) ->
     yielded evs = map part payloads).
Proof.
  revert s. induction frames as [|f frames IH]; intros s.
  - exists [], [], s. repeat split; constructor.
  - destruct (handle_frame_relays s f) as (p & evs & s' & T & H & B & N & Z & Y).
    destruct (IH s') as (ps & evs' & s'' & Ts & Hs & Bs & Ns & Zs & Ss & Es).
    exists (p :: ps), (evs ++ evs'), s''.
    cbn [handle_frames map]. rewrite H, Hs, T, Ts.
    split; [reflexivity|]. split; [reflexivity|].
    split; [congruence|]. split; [now apply Forall_app|].
    split; [intros L; apply never_sleeps_app; auto|].
    rewrite yielded_app. split.
    + destruct Y as [-> | [-> _]].
      * now apply subseq_keep.
      * now apply subseq_skip.
    + intros ND. destruct Y as [-> | [_ D]]; [|now apply ND in D].
      simpl. now rewrite (Es ND).
Qed.

Lemma handle_chunks_relays (s : session) (chunks : list bytes) :
  exists payloads evs s' ex,
    map (transcode lib q) (fst (pump (buffer s) chunks)) = map inl payloads /\
    handle_chunks lib q lat s chunks = (evs, inl (s', ex)) /\
    buffer s' = snd (pump (buffer s) chunks) /\
    Forall (fun ev => match ev with Notice _ => False | _ => True end) evs /\
    (drop_strategy q = "latest" -> never_sleeps evs) /\
    subseq (yielded evs) (map part payloads) /\
    ((forall last_sent now, fps_control q last_sent now <> PaceDrop) ->
     yielded evs = map part payloads).
Proof.
  revert s. induction chunks as [|c chunks IH]; intros s.
  - exists [], [], s, true. repeat split; constructor.
  - destruct c as [|b c].
    + exists [], [], s, false. repeat split; constructor.
    + cbn [handle_chunks pump]. unfold handle_chunk.
      destruct (feed (buffer s) (b :: c)) as [frames b'].
      destruct (handle_frames_relays
                  {| buffer := b'; last_sent := last_sent s;
                     clock := clock s; seen := seen s |} frames)
        as (ps & evs & s' & T & H & B & N & Z & S & E).
      simpl in B. rewrite H.
      destruct (IH s') as (ps' & evs' & s'' & ex & T' & H' & B' & N' & Z' & S' & E').
      rewrite B in T', B'. rewrite H'.
      destruct (pump b' chunks) as [frames' b'']. simpl in *.
      exists (ps ++ ps'), (evs ++ evs'), s'', ex.
      rewrite !map_app, T, T', yielded_app.
      split; [reflexivity|]. split; [reflexivity|].
      split; [exact B'|]. split; [now apply Forall_app|].
      split; [intros L; apply never_sleeps_app; auto|].
      split; [now apply subseq_app|].
      intros ND. now rewrite (E ND), (E' ND).
Qed.

End Relay.

(** What [generate] does with an upstream that answers 200 with a content
    type that is not HTML, when no size is targeted. *)
Lemma generate_relays (lib : library) (q : stream_query)
    (lat : nat -> latency) (t0 : Q) (resp : response) :
  target_size lib q = None ->
  status resp = 200 ->
  str_in "text/html" (lower (content_type resp)) = false ->
  exists payloads,
    map (transcode lib q) (fst (pump [] (body resp))) = map inl payloads /\
    notice_last (generate lib q lat t0 (GetOk resp)) /\
    (drop_strategy q = "latest" ->
     never_sleeps (generate lib q lat t0 (GetOk resp))) /\
    subseq (yielded (generate lib q lat t0 (GetOk resp))) (map part payloads) /\
    ((forall last_sent now, fps_control q last_sent now <> PaceDrop) ->
     yielded (generate lib q lat t0 (GetOk resp)) = map part payloads).
Proof.
  intros T S200 H. unfold generate. rewrite S200, H. cbn [Z.eqb negb Pos.eqb].
  destruct (handle_chunks_relays lib q lat
              (fun frame_bytes => transcode_without_size lib q frame_bytes T)
              {| buffer := []; last_sent := 0%Q; clock := t0; seen := O |}
              (body resp))
    as (ps & evs & s' & ex & Tp & Hc & _ & N & Z & S & E).
  simpl in Tp. rewrite Hc. exists ps. split; [exact Tp|].
  assert (Y : forall m, yielded (evs ++ [Notice m]) = yielded evs).
  { intros m. rewrite yielded_app. simpl. apply app_nil_r. }
  assert (ZN : forall m, never_sleeps evs -> never_sleeps (evs ++ [Notice m])).
  { intros m Hz. apply never_sleeps_app; [exact Hz|]. repeat constructor. }
  destruct (body_error resp) as [e|]; [destruct ex|].
  - rewrite Y. split; [|split; [|split]]; auto.
    exists evs, [Notice ("Stream error: " ++ e)%string]. repeat split; eauto.
  - split; [|split; [|split]]; auto.
    exists evs, []. rewrite app_nil_r. repeat split; auto.
  - split; [|split; [|split]]; auto.
    exists evs, []. rewrite app_nil_r. repeat split; auto.
Qed.

(** X4.  End to end: from an upstream that answers 200 with a content type
    that is not HTML, with no target size, and with a drop strategy other
    than ['latest'] or no positive frame interval (no [fps_limit], 0, or a
    negative one), [generate] yields exactly one multipart part per frame
    of the body, in the order of the stream, each around what transcoding
    returns for that frame. *)
Theorem generate_relays_every_frame (lib : library) (q : stream_query)
    (lat : nat -> latency) (t0 : Q) (resp : response) :
  target_size lib q = None ->
  status resp = 200 ->
  str_in "text/html" (lower (content_type resp)) = false ->
  drop_strategy q <> "latest" \/ (frame_interval (fps_limit q) <= 0)%Q ->
  exists payloads,
    map (transcode lib q) (fst (pump [] (body resp))) = map inl payloads /\
    yielded (generate lib q lat t0 (GetOk resp)) = map part payloads.
Proof.
  intros T S200 H D.
  destruct (generate_relays lib q lat t0 resp T S200 H)
    as (ps & Tp & _ & _ & _ & E).
  exists ps. split; [exact Tp|]. apply E.
  intros last_sent now C. apply fps_control_drop in C as [L P].
  destruct D as [D | D]; [congruence|].
  apply (Qlt_not_le _ _ P D).
Qed.

Lemma generate_relays_every_frame_witness :
  exists payloads,
    map (transcode sample_library (ten_fps "none"))
        (fst (pump [] [[xff; xd8; x01; xff; xd9; xff]; [xd8; x02; xff; xd9]]))
    = map inl payloads /\
    yielded (generate sample_library (ten_fps "none") every_50ms 1000
               (mjpeg_upstream
                  [[xff; xd8; x01; xff; xd9; xff]; [xd8; x02; xff; xd9]] None))
    = map part payloads.
Proof.
  apply (generate_relays_every_frame sample_library (ten_fps "none")
           every_50ms 1000
           {| status := 200;
              content_type_header := Some "multipart/x-mixed-replace; boundary=x";
              body := [[xff; xd8; x01; xff; xd9; xff]; [xd8; x02; xff; xd9]];
              body_error := None |}).
  - reflexivity.
  - reflexivity.
  - reflexivity.
  - left. discriminate.
Defined.

(** X5.  Under ['latest'] [generate] never sleeps: a frame is sent at once
    or dropped, and what is sent is, in the order of the stream, part of
    what would be sent without a rate limit. *)
Theorem latest_drops_without_sleeping (lib : library) (q : stream_query)
    (lat : nat -> latency) (t0 : Q) (resp : response) :
  target_size lib q = None ->
  status resp = 200 ->
  str_in "text/html" (lower (content_type resp)) = false ->
  drop_strategy q = "latest" ->
  never_sleeps (generate lib q lat t0 (GetOk resp)) /\
  exists payloads,
    map (transcode lib q) (fst (pump [] (body resp))) = map inl payloads /\
    subseq (yielded (generate lib q lat t0 (GetOk resp))) (map part payloads).
Proof.
  intros T S200 H L.
  destruct (generate_relays lib q lat t0 resp T S200 H)
    as (ps & Tp & _ & Z & S & _).
  split; [now apply Z|]. now exists ps.
Qed.

Lemma latest_drops_without_sleeping_witness :
  never_sleeps
    (generate sample_library (ten_fps "latest") every_50ms 1000
       (mjpeg_upstream
          [[xff; xd8; x01; xff; xd9; xff; xd8; x02; xff; xd9]] None)).
Proof.
  apply (latest_drops_without_sleeping sample_library (ten_fps "latest")
           every_50ms 1000
           {| status := 200;
              content_type_header := Some "multipart/x-mixed-replace; boundary=x";
              body := [[xff; xd8; x01; xff; xd9; xff; xd8; x02; xff; xd9]];
              body_error := None |}); reflexivity.
Defined.

Lemma handle_chunks_no_notice (lib : library) (q : stream_query)
    (lat : nat -> latency) (s : session) (chunks : list bytes) :
  Forall (fun ev => match ev with Notice _ => False | _ => True end)
         (fst (handle_chunks lib q lat s chunks)).
Proof.
  assert (F : forall s f,
             Forall (fun ev => match ev with Notice _ => False | _ => True end)
                    (fst (handle_frame lib q lat s f))).
  { intros s0 f. unfold handle_frame.
    destruct (fps_control q (last_sent s0) _) as [| |d]; [|constructor|];
      destruct (transcode lib q f); simpl; repeat constructor. }
  assert (Fs : forall frames s,
             Forall (fun ev => match ev with Notice _ => False | _ => True end)
                    (fst (handle_frames lib q lat s frames))).
  { induction frames as [|f frames IH]; intros s0; [constructor|].
    cbn [handle_frames]. specialize (F s0 f).
    destruct (handle_frame lib q lat s0 f) as [evs [s'|e]]; [|exact F].
    specialize (IH s'). destruct (handle_frames lib q lat s' frames) as [evs' r].
    simpl in *. now apply Forall_app. }
  revert s. induction chunks as [|c chunks IH]; intros s; [constructor|].
  destruct c as [|b c]; [constructor|]. cbn [handle_chunks].
  unfold handle_chunk. destruct (feed (buffer s) (b :: c)) as [frames b'].
  specialize (Fs frames {| buffer := b'; last_sent := last_sent s;
                           clock := clock s; seen := seen s |}).
  destruct (handle_frames lib q lat _ frames) as [evs [s'|e]]; [|exact Fs].
  specialize (IH s'). destruct (handle_chunks lib q lat s' chunks) as [evs' r].
  simpl in *. now apply Forall_app.
Qed.

(** X6.  Whatever the upstream does, the plain-text messages of [generate]
    ([DroidCam status ...], the HTML message, [Stream error: ...]) come at
    most once and last: nothing is yielded after one of them. *)
Theorem error_text_is_last (lib : library) (q : stream_query)
    (lat : nat -> latency) (t0 : Q) (r : get_result) :
  notice_last (generate lib q lat t0 r).
Proof.
  assert (One : forall m, notice_last [Notice m]).
  { intros m. exists [], [Notice m]. repeat split; eauto. }
  unfold generate. destruct r as [e|resp]; [apply One|].
  destruct (negb (status resp =? 200)); [apply One|].
  destruct (str_in "text/html" (lower (content_type resp))); [apply One|].
  pose proof (handle_chunks_no_notice lib q lat
                {| buffer := []; last_sent := 0%Q; clock := t0; seen := O |}
                (body resp)) as N.
  destruct (handle_chunks lib q lat _ (body resp)) as [evs res]. simpl in N.
  assert (With : forall m, notice_last (evs ++ [Notice m])).
  { intros m. exists evs, [Notice m]. repeat split; eauto. }
  assert (Without : notice_last evs).
  { exists evs, []. rewrite app_nil_r. repeat split; auto. }
  destruct res as [[s' ex]|e]; [|apply With].
  destruct (body_error resp); [|exact Without].
  destruct ex; [apply With | exact Without].
Qed.

(** X7.  An exception raised by [cv2.resize] ends the stream: when the
    first frame of the body is not dropped, decodes, and its resizing to
    the target size raises, [generate] yields no part at all, neither for
    that frame nor for any later frame or chunk, and ends with the
    [Stream error] message. *)
Theorem resize_error_ends_stream (lib : library) (q : stream_query)
    (lat : nat -> latency) (t0 : Q) (resp : response)
    (chunk : bytes) (chunks : list bytes) (f : bytes) (fs : list bytes)
    (rest : bytes) (img : image lib) (size : Z * Z) (e : string) :
  status resp = 200 ->
  str_in "text/html" (lower (content_type resp)) = false ->
  body resp = chunk :: chunks -> chunk <> [] ->
  feed [] chunk = (f :: fs, rest) ->
  fps_control q 0 (t0 + before (lat O)) <> PaceDrop ->
  target_size lib q = Some size ->
  imdecode lib f = Some img ->
  resize lib img size = inr e ->
  yielded (generate lib q lat t0 (GetOk resp)) = [] /\
  exists slept,
    generate lib q lat t0 (GetOk resp) =
    slept ++ [Notice ("Stream error: " ++ e)%string].
Proof.
  intros S200 H B Hc F ND T D R.
  assert (Tr : transcode lib q f = inr e).
  { unfold transcode. now rewrite T, D, R. }
  unfold generate. rewrite S200, H, B. cbn [Z.eqb negb Pos.eqb].
  destruct chunk as [|b chunk]; [congruence|].
  cbn [handle_chunks]. unfold handle_chunk. cbn [buffer]. rewrite F.
  cbn [handle_frames]. unfold handle_frame.
  cbn [buffer last_sent clock seen]. rewrite Tr.
  destruct (fps_control q 0 (t0 + before (lat O))) as [| |d];
    [|congruence|]; cbn.
  - split; [reflexivity|]. now exists [].
  - split; [reflexivity|]. now exists [Sleep d].
Qed.

Lemma resize_error_ends_stream_witness :
  yielded
    (generate raising_resize
       {| fps_limit := None; drop_strategy := "none";
          resolution := "0x0"; quality := "high" |}
       every_50ms 1000
       (mjpeg_upstream [[xff; xd8; x01; xff; xd9]; [xff; xd8; x02; xff; xd9]]
                       None)) = [].
Proof.
  apply (resize_error_ends_stream raising_resize
           {| fps_limit := None; drop_strategy := "none";
              resolution := "0x0"; quality := "high" |}
           every_50ms 1000
           {| status := 200;
              content_type_header := Some "multipart/x-mixed-replace; boundary=x";
              body := [[xff; xd8; x01; xff; xd9]; [xff; xd8; x02; xff; xd9]];
              body_error := None |}
           [xff; xd8; x01; xff; xd9] [[xff; xd8; x02; xff; xd9]]
           [xff; xd8; x01; xff; xd9] [] []
           [xff; xd8; x01; xff; xd9] (0, 0) "cv2.error: resize");
    try reflexivity; discriminate.
Defined.

End GenerateExtras.

(** ** The session of [generate] *)

Module SessionFacts.
Import TimeFacts EfFacts GenerateExtras Ef.

Section Raising.
Variable lib : library.
Variable q : stream_query.
Variable lat : nat -> latency.

(** Transcoding raises only for a frame that decodes. *)
Lemma transcode_raises_decoded (frame_bytes : bytes) (e : string) :
  transcode lib q frame_bytes = inr e ->
  exists img, imdecode lib frame_bytes = Some img.
Proof.
  unfold transcode. destruct (_ || _); [|discriminate].
  destruct (imdecode lib frame_bytes) as [img|]; [|discriminate].
  intros _. now exists img.
Qed.

Lemma transcode_undecodable (frame_bytes : bytes) :
  imdecode lib frame_bytes = None ->
  transcode lib q frame_bytes = inl frame_bytes.
Proof. intros D. unfold transcode. rewrite D. now destruct (_ || _). Qed.

(** The handling of frames ends with an exception only when transcoding
    raises for one of them; otherwise the buffer is left as it was. *)
Lemma handle_frames_ending (frames : list bytes) (s : session) :
  match snd (handle_frames lib q lat s frames) with
  | inl s' => buffer s' = buffer s
  | inr e => exists f, In f frames /\ transcode lib q f = inr e
  end.
Proof.
  revert s. induction frames as [|f frames IH]; intros s; [reflexivity|].
  cbn [handle_frames].
  assert (H : match snd (handle_frame lib q lat s f) with
              | inl s' => buffer s' = buffer s
              | inr e => transcode lib q f = inr e
              end).
  { unfold handle_frame.
    destruct (fps_control q (last_sent s) _) as [| |d]; [|reflexivity|];
      destruct (transcode lib q f) as [payload|e]; reflexivity. }
  destruct (handle_frame lib q lat s f) as [evs [s'|e]]; simpl in H.
  - specialize (IH s').
    destruct (handle_frames lib q lat s' frames) as [evs' [s''|e]];
      simpl in *.
    + congruence.
    + destruct IH as (f' & I & T). exists f'. split; [now right | exact T].
  - simpl. exists f. split; [now left | exact H].
Qed.

Lemma handle_chunks_ending (chunks : list bytes) (s : session) (e : string) :
  snd (handle_chunks lib q lat s chunks) = inr e ->
  exists f, In f (fst (pump (buffer s) chunks)) /\ transcode lib q f = inr e.
Proof.
  revert s. induction chunks as [|c chunks IH]; intros s; [discriminate|].
  destruct c as [|b c]; [discriminate|].
  cbn [handle_chunks pump]. unfold handle_chunk.
  destruct (feed (buffer s) (b :: c)) as [frames b'].
  pose proof (handle_frames_ending frames
                {| buffer := b'; last_sent := last_sent s;
                   clock := clock s; seen := seen s |}) as H.
  destruct (handle_frames lib q lat _ frames) as [evs [s'|e']]; simpl in H.
  - specialize (IH s'). rewrite H in IH.
    destruct (handle_chunks lib q lat s' chunks) as [evs' r].
    destruct (pump b' chunks) as [frames' b''].
    simpl. intros E. destruct (IH E) as (f & I & T).
    exists f. split; [apply in_or_app; now right | exact T].
  - destruct (pump b' chunks) as [frames' b''].
    simpl. intros [= ->]. destruct H as (f & I & T).
    exists f. split; [apply in_or_app; now left | exact T].
Qed.

End Raising.

Lemma in_app_notice (evs : list event) (m text : string) :
  Forall (fun ev => match ev with Notice _ => False | _ => True end) evs ->
  In (Notice text) (evs ++ [Notice m]) -> text = m.
Proof.
  intros N I. apply in_app_or in I as [I | [[= ->] | []]]; [|reflexivity].
  rewrite Forall_forall in N. now apply N in I.
Qed.

(** What [generate] sends when transcoding raises for no frame. *)
Lemma generate_forwards (lib : library) (q : stream_query)
    (lat : nat -> latency) (t0 : Q) (resp : response) :
  status resp = 200 ->
  str_in "text/html" (lower (content_type resp)) = false ->
  (forall f, exists payload, transcode lib q f = inl payload) ->
  let frames := fst (pump [] (body resp)) in
  let trace := generate lib q lat t0 (GetOk resp) in
  subseq (yielded trace) (map (fun f => part (payload_of lib q f)) frames) /\
  ((forall last_sent now, fps_control q last_sent now <> PaceDrop) ->
   yielded trace = map (fun f => part (payload_of lib q f)) frames) /\
  (forall text, In (Notice text) trace ->
     exists e,
       body_error resp = Some e /\ text = ("Stream error: " ++ e)%string).
Proof.
  intros S200 H Hok. cbv zeta.
  set (s0 := {| buffer := []; last_sent := 0%Q; clock := t0; seen := O |}).
  destruct (handle_chunks_relays lib q lat Hok s0 (body resp))
    as (ps & evs & s' & ex & Tp & Hc & _ & N & _ & Sub & Eq).
  simpl in Tp.
  assert (P : map part ps =
              map (fun f => part (payload_of lib q f))
                  (fst (pump [] (body resp)))).
  { clear - Tp. revert ps Tp.
    induction (fst (pump [] (body resp))) as [|f frames IH];
      intros [|p ps] Tp; try discriminate; [reflexivity|].
    simpl in Tp. injection Tp as T Tp. simpl.
    rewrite (IH ps Tp). unfold payload_of. now rewrite T. }
  rewrite <- P. unfold generate. rewrite S200, H. cbn [Z.eqb Pos.eqb negb].
  fold s0. rewrite Hc.
  assert (Y : forall m, yielded (evs ++ [Notice m]) = yielded evs).
  { intros m. rewrite yielded_app. simpl. apply app_nil_r. }
  assert (Evs : forall text, ~ In (Notice text) evs).
  { intros text I. rewrite Forall_forall in N. now apply N in I. }
  destruct (body_error resp) as [e|]; [destruct ex|]; rewrite ?Y;
    (split; [exact Sub|]); (split; [exact Eq|]); intros text I;
    try (now apply Evs in I).
  apply (in_app_notice evs _ _ N) in I. subst text. now exists e.
Qed.

End SessionFacts.

(** ** Main results on the rate control *)

Module PaceResults.
Import PrimFloat.
Import TimeFacts GenerateExtras SessionFacts Ef.







End PaceResults.

(** ** Main results on a frame that does not decode *)

Module SessionResults.
Import TimeFacts EfFacts GenerateExtras SessionFacts Ef.

(** C7.  In [generate], a frame that OpenCV fails to decode
    ([cv2.imdecode] returns [None]) is sent with its original bytes and
    does not end the session.  The stream ends with
    a [Stream error] message only when reading the upstream raises, or when
    transcoding raises for a frame, and that is then a frame that did
    decode.  When transcoding raises for no frame that decodes, the parts
    sent are, in the order of the stream, those of the frames that the rate
    control does not drop, and of all the frames of the stream when it
    drops none; the part of a frame that does not decode carries the bytes
    of the frame.  Frame by frame: the frame is handled without an
    exception, its part, unless it is dropped, holds its bytes, and the
    frames after it are handled from the state that it leaves. *)
Theorem undecodable_frame_is_forwarded (lib : library) (q : stream_query)
    (lat : nat -> latency) (t0 : Q) (resp : response) :
  status resp = 200 ->
  str_in "text/html" (lower (content_type resp)) = false ->
  let frames := fst (pump [] (body resp)) in
  let trace := generate lib q lat t0 (GetOk resp) in
  (forall f, imdecode lib f = None ->
     transcode lib q f = inl f /\ payload_of lib q f = f) /\
  (forall text, In (Notice text) trace ->
     exists e,
       text = ("Stream error: " ++ e)%string /\
       (body_error resp = Some e \/
        exists f img,
          In f frames /\ imdecode lib f = Some img /\
          transcode lib q f = inr e)) /\
  ((forall f img, imdecode lib f = Some img ->
      exists payload, transcode lib q f = inl payload) ->
   subseq (yielded trace) (map (fun f => part (payload_of lib q f)) frames) /\
   (drop_strategy q <> "latest" \/ (frame_interval (fps_limit q) <= 0)%Q ->
    yielded trace = map (fun f => part (payload_of lib q f)) frames) /\
   (forall text, In (Notice text) trace ->
      exists e,
        body_error resp = Some e /\ text = ("Stream error: " ++ e)%string))
  /\
  (forall s f,
     imdecode lib f = None ->
     exists evs s',
       handle_frame lib q lat s f = (evs, inl s') /\
       (fps_control q (last_sent s) (clock s + before (lat (seen s)))
          <> PaceDrop ->
        yielded evs = [part f]) /\
       forall frames',
         handle_frames lib q lat s (f :: frames') =
         let '(evs', r) := handle_frames lib q lat s' frames' in
         (evs ++ evs', r)).
Proof.
  intros S200 H. cbv zeta.
  set (s0 := {| buffer := []; last_sent := 0%Q; clock := t0; seen := O |}).
  assert (G : generate lib q lat t0 (GetOk resp) =
              match handle_chunks lib q lat s0 (body resp) with
              | (evs, inr e) => evs ++ [Notice ("Stream error: " ++ e)]
              | (evs, inl (_, exhausted)) =>
                  match body_error resp with
                  | Some e =>
                      if exhausted then evs ++ [Notice ("Stream error: " ++ e)]
                      else evs
                  | None => evs
                  end
              end).
  { unfold generate. rewrite S200, H. reflexivity. }
  pose proof (handle_chunks_no_notice lib q lat s0 (body resp)) as N.
  pose proof (handle_chunks_ending lib q lat (body resp) s0) as R.
  assert (Y : forall evs m, yielded (evs ++ [Notice m]) = yielded evs).
  { intros evs m. rewrite yielded_app. simpl. apply app_nil_r. }
  assert (Evs : forall evs text,
             Forall (fun ev => match ev with Notice _ => False | _ => True end)
                    evs ->
             ~ In (Notice text) evs).
  { intros evs text F I. rewrite Forall_forall in F. now apply F in I. }
  split; [|split; [|split]].
  - intros f D. pose proof (transcode_undecodable lib q f D) as T.
    split; [exact T|]. unfold payload_of. now rewrite T.
  - intros text. rewrite G.
    destruct (handle_chunks lib q lat s0 (body resp)) as [evs [[s' ex]|e]];
      simpl in N, R.
    + destruct (body_error resp) as [e|]; [destruct ex|].
      * intros I. apply (in_app_notice evs _ _ N) in I. subst text.
        exists e. split; [reflexivity | now left].
      * intros I. now apply Evs in I.
      * intros I. now apply Evs in I.
    + intros I. apply (in_app_notice evs _ _ N) in I. subst text.
      destruct (R e eq_refl) as (f & If & T).
      destruct (transcode_raises_decoded lib q f e T) as [img D].
      exists e. split; [reflexivity|]. right. now exists f, img.
  - intros Good.
    assert (Hok : forall f, exists payload, transcode lib q f = inl payload).
    { intros f. destruct (imdecode lib f) as [img|] eqn:D.
      - now apply (Good f img).
      - exists f. now apply transcode_undecodable. }
    destruct (generate_forwards lib q lat t0 resp S200 H Hok)
      as (Sub & Eq & Nt).
    split; [exact Sub|]. split; [|exact Nt].
    intros D. apply Eq. intros last_sent now C.
    apply fps_control_drop in C as [L Pos].
    destruct D as [D | D]; [congruence|].
    apply (Qlt_not_le _ _ Pos D).
  - intros s f D. pose proof (transcode_undecodable lib q f D) as T.
    unfold handle_frames at 1. fold (handle_frames lib q lat).
    unfold handle_frame. rewrite T.
    destruct (fps_control q (last_sent s) _) as [| |d];
      eexists; eexists; (split; [reflexivity|]); (split; [|reflexivity]);
      intros C; try reflexivity; now destruct C.
Qed.

Lemma undecodable_frame_is_forwarded_witness :
  yielded
    (generate sample_library default_query every_50ms 1000
       (mjpeg_upstream
          [[xff; xd8; x01; x02; xff; xd9; xff; xd8; x03; xff; xd9];
           [xff; xd8; x04; x05; xff; xd9]] None)) =
  map (fun f => part (payload_of sample_library default_query f))
      (fst (pump [] [[xff; xd8; x01; x02; xff; xd9; xff; xd8; x03; xff; xd9];
                     [xff; xd8; x04; x05; xff; xd9]])).
Proof.
  destruct (undecodable_frame_is_forwarded sample_library default_query
              every_50ms 1000
              {| status := 200;
                 content_type_header :=
                   Some "multipart/x-mixed-replace; boundary=x";
                 body := [[xff; xd8; x01; x02; xff; xd9; xff; xd8; x03; xff; xd9];
                          [xff; xd8; x04; x05; xff; xd9]];
                 body_error := None |}) as (_ & _ & H & _).
  - reflexivity.
  - reflexivity.
  - destruct H as (_ & E & _).
    + intros f img _.
      apply (transcode_without_size sample_library default_query f).
      reflexivity.
    + apply E. left. discriminate.
Defined.

End SessionResults.

(** ** Further results on the chunk loops of [stream_with_fps_limit] *)

Module RelayExtras.
Import TimeFacts GenerateExtras.

(** The decision for a chunk is to skip it only under ['latest'] or
    ['oldest'], and to sleep only under another strategy. *)
Lemma ef_chunk_control_skip (fps_limit : option Q) (ds quality : string)
    (last now : Q) :
  Ef.chunk_control fps_limit ds quality last now = Ef.Skip ->
  ds = "latest" \/ ds = "oldest".
Proof.
  unfold Ef.chunk_control. destruct (truthy fps_limit); [|discriminate].
  destruct (Qltb _ _); [|discriminate].
  destruct (String.eqb ds "latest") eqn:L; [left; now apply String.eqb_eq|].
  destruct (String.eqb ds "oldest") eqn:O; [right; now apply String.eqb_eq|].
  discriminate.
Qed.

Lemma ef_chunk_control_sleep (fps_limit : option Q) (ds quality : string)
    (last now d : Q) :
  Ef.chunk_control fps_limit ds quality last now = Ef.Pass (Some d) ->
  ds <> "latest" /\ ds <> "oldest".
Proof.
  unfold Ef.chunk_control. destruct (truthy fps_limit); [|discriminate].
  destruct (Qltb _ _); [|discriminate].
  destruct (String.eqb ds "latest") eqn:L; [discriminate|].
  destruct (String.eqb ds "oldest") eqn:O; [discriminate|].
  intros _. split; now apply String.eqb_neq.
Qed.

Lemma fastapi_chunk_control_skip (fps_limit : option Q) (ds : string)
    (last now : Q) :
  FastapiViewer.chunk_control fps_limit ds last now = Ef.Skip ->
  ds = "latest" \/ ds = "oldest".
Proof.
  unfold FastapiViewer.chunk_control. destruct (truthy fps_limit); [|discriminate].
  destruct (Qltb _ _); [|discriminate].
  destruct (String.eqb ds "latest") eqn:L; [left; now apply String.eqb_eq|].
  destruct (String.eqb ds "oldest") eqn:O; [right; now apply String.eqb_eq|].
  discriminate.
Qed.

Lemma fastapi_chunk_control_sleep (fps_limit : option Q) (ds : string)
    (last now d : Q) :
  FastapiViewer.chunk_control fps_limit ds last now = Ef.Pass (Some d) ->
  ds <> "latest" /\ ds <> "oldest".
Proof.
  unfold FastapiViewer.chunk_control. destruct (truthy fps_limit); [|discriminate].
  destruct (Qltb _ _); [|discriminate].
  destruct (String.eqb ds "latest") eqn:L; [discriminate|].
  destruct (String.eqb ds "oldest") eqn:O; [discriminate|].
  intros _. split; now apply String.eqb_neq.
Qed.

Lemma ef_chunk_control_unlimited (fps_limit : option Q) (ds quality : string)
    (last now : Q) :
  truthy fps_limit = false ->
  Ef.chunk_control fps_limit ds quality last now = Ef.Pass None.
Proof. intros U. unfold Ef.chunk_control. now rewrite U. Qed.

Lemma fastapi_chunk_control_unlimited (fps_limit : option Q) (ds : string)
    (last now : Q) :
  truthy fps_limit = false ->
  FastapiViewer.chunk_control fps_limit ds last now = Ef.Pass None.
Proof. intros U. unfold FastapiViewer.chunk_control. now rewrite U. Qed.

(** Destructs the recursive call of a chunk loop met in the goal, after
    specialising the induction hypothesis [IH] to its arguments. *)
Ltac step_ef_loop IH :=
  match goal with
  | |- context [Ef.relay_chunks ?fps ?ds ?qual ?lat ?l ?c ?m ?chunks ?error] =>
      specialize (IH l c m);
      destruct (Ef.relay_chunks fps ds qual lat l c m chunks error)
        as [?evs ?r]
  end.

Ltac step_fastapi_loop IH :=
  match goal with
  | |- context [FastapiViewer.relay_chunks ?fps ?ds ?lat ?l ?c ?m ?chunks ?error] =>
      specialize (IH l c m);
      destruct (FastapiViewer.relay_chunks fps ds lat l c m chunks error)
        as [?evs ?r]
  end.

Section Loops.
Variable fps_limit : option Q.
Variable ds quality : string.
Variable lat : nat -> latency.
Variable error : option string.

Lemma ef_relay_trace (last clock : Q) (n : nat) (chunks : list bytes) :
  let evs := fst (Ef.relay_chunks fps_limit ds quality lat last clock n
                                  chunks error) in
  subseq (yielded evs) (until_empty chunks) /\
  ((ds <> "latest" /\ ds <> "oldest") \/ truthy fps_limit = false ->
   yielded evs = until_empty chunks) /\
  (ds = "latest" \/ ds = "oldest" -> never_sleeps evs).
Proof.
  cbv zeta. revert last clock n.
  induction chunks as [|c chunks IH]; intros last clock n.
  - repeat split; constructor.
  - destruct c as [|b c]; [repeat split; constructor|].
    cbn [Ef.relay_chunks until_empty].
    destruct (Ef.chunk_control fps_limit ds quality last
                (clock + before (lat n))) as [|slept] eqn:C.
    + destruct (IH last (clock + before (lat n))%Q (S n)) as (S & E & Z).
      split; [now apply subseq_skip|]. split; [|exact Z].
      intros [[L O] | U].
      * apply ef_chunk_control_skip in C as [? | ?]; congruence.
      * rewrite (ef_chunk_control_unlimited _ _ _ _ _ U) in C. discriminate.
    + step_ef_loop IH. destruct IH as (S & E & Z). simpl fst in *.
      rewrite yielded_app. cbn [yielded].
      assert (Y : yielded (match slept with Some d => [Sleep d] | None => [] end)
                  = []) by now destruct slept.
      rewrite Y. cbn [app]. split; [now apply subseq_keep|]. split.
      * intros H. now rewrite (E H).
      * intros H. apply never_sleeps_app; [|constructor; [exact I | now apply Z]].
        destruct slept as [d|]; [|constructor].
        apply ef_chunk_control_sleep in C as [L O]. destruct H; congruence.
Qed.

Lemma fastapi_relay_trace (last clock : Q) (n : nat) (chunks : list bytes) :
  let evs := fst (FastapiViewer.relay_chunks fps_limit ds lat last clock n
                                             chunks error) in
  subseq (yielded evs) (until_empty chunks) /\
  ((ds <> "latest" /\ ds <> "oldest") \/ truthy fps_limit = false ->
   yielded evs = until_empty chunks) /\
  (ds = "latest" \/ ds = "oldest" -> never_sleeps evs).
Proof.
  cbv zeta. revert last clock n.
  induction chunks as [|c chunks IH]; intros last clock n.
  - repeat split; constructor.
  - destruct c as [|b c]; [repeat split; constructor|].
    cbn [FastapiViewer.relay_chunks until_empty].
    destruct (FastapiViewer.chunk_control fps_limit ds last
                (clock + before (lat n))) as [|slept] eqn:C.
    + destruct (IH last (clock + before (lat n))%Q (S n)) as (S & E & Z).
      split; [now apply subseq_skip|]. split; [|exact Z].
      intros [[L O] | U].
      * apply fastapi_chunk_control_skip in C as [? | ?]; congruence.
      * rewrite (fastapi_chunk_control_unlimited _ _ _ _ U) in C. discriminate.
    + step_fastapi_loop IH. destruct IH as (S & E & Z). simpl fst in *.
      rewrite yielded_app. cbn [yielded].
      assert (Y : yielded (match slept with Some d => [Sleep d] | None => [] end)
                  = []) by now destruct slept.
      rewrite Y. cbn [app]. split; [now apply subseq_keep|]. split.
      * intros H. now rewrite (E H).
      * intros H. apply never_sleeps_app; [|constructor; [exact I | now apply Z]].
        destruct slept as [d|]; [|constructor].
        apply fastapi_chunk_control_sleep in C as [L O]. destruct H; congruence.
Qed.

End Loops.

(** X10.  The chunk loops of [stream_with_fps_limit] (ef.py and
    fastapi_viewer.py) yield chunks as they are and in order: what is
    yielded is always a subsequence of the chunks that come before the
    first empty one, and it is all of them when the drop strategy is
    neither ['latest'] nor ['oldest'], or when there is no rate limit
    ([fps_limit] absent or 0). *)
Theorem relay_keeps_every_chunk (fps_limit : option Q) (ds quality : string)
    (lat : nat -> latency) (error : option string) (last clock : Q) (n : nat)
    (chunks : list bytes) :
  (ds <> "latest" /\ ds <> "oldest") \/ truthy fps_limit = false ->
  yielded (fst (Ef.relay_chunks fps_limit ds quality lat last clock n
                                chunks error)) = until_empty chunks /\
  yielded (fst (FastapiViewer.relay_chunks fps_limit ds lat last clock n
                                           chunks error)) = until_empty chunks /\
  (forall ds',
     subseq (yielded (fst (Ef.relay_chunks fps_limit ds' quality lat last
                                           clock n chunks error)))
            (until_empty chunks) /\
     subseq (yielded (fst (FastapiViewer.relay_chunks fps_limit ds' lat last
                                                      clock n chunks error)))
            (until_empty chunks)).
Proof.
  intros H. split; [|split].
  - now apply (ef_relay_trace fps_limit ds quality lat error last clock n chunks).
  - now apply (fastapi_relay_trace fps_limit ds lat error last clock n chunks).
  - intros ds'. split.
    + apply (ef_relay_trace fps_limit ds' quality lat error last clock n chunks).
    + apply (fastapi_relay_trace fps_limit ds' lat error last clock n chunks).
Qed.

Lemma relay_keeps_every_chunk_witness :
  yielded (fst (Ef.relay_chunks (Some 10%Q) "none" "low" every_50ms 0 1000 O
                  [[x01]; [x02]; []; [x03]] None)) =
  until_empty [[x01]; [x02]; []; [x03]].
Proof.
  destruct (relay_keeps_every_chunk (Some 10%Q) "none" "low" every_50ms None
              0 1000 O [[x01]; [x02]; []; [x03]]) as [H _].
  - left. split; discriminate.
  - exact H.
Defined.

(** X11.  Under ['latest'] and ['oldest'] the chunk loops of
    [stream_with_fps_limit] (ef.py and fastapi_viewer.py) never sleep: a
    chunk is yielded at once or skipped. *)
Theorem drop_strategies_never_sleep (fps_limit : option Q)
    (ds quality : string) (lat : nat -> latency) (error : option string)
    (last clock : Q) (n : nat) (chunks : list bytes) :
  ds = "latest" \/ ds = "oldest" ->
  never_sleeps (fst (Ef.relay_chunks fps_limit ds quality lat last clock n
                                     chunks error)) /\
  never_sleeps (fst (FastapiViewer.relay_chunks fps_limit ds lat last clock n
                                                chunks error)).
Proof.
  intros H. split.
  - now apply (ef_relay_trace fps_limit ds quality lat error last clock n chunks).
  - now apply (fastapi_relay_trace fps_limit ds lat error last clock n chunks).
Qed.

Lemma drop_strategies_never_sleep_witness :
  never_sleeps (fst (Ef.relay_chunks (Some 10%Q) "oldest" "high" every_50ms
                       0 1000 O [[x01]; [x02]; [x03]] None)) /\
  never_sleeps (fst (FastapiViewer.relay_chunks (Some 10%Q) "oldest" every_50ms
                       0 1000 O [[x01]; [x02]; [x03]] None)).
Proof.
  refine (drop_strategies_never_sleep (Some 10%Q) "oldest" "high" every_50ms
            None 0 1000 O [[x01]; [x02]; [x03]] _).
  now right.
Defined.

End RelayExtras.

(** ** Further results on the upstream URL of ef.py *)

Module UrlExtras.
Import EfUrl.

Lemma split_not_nil (sep : ascii) (s : string) : split sep s <> [].
Proof.
  destruct s as [|c s]; simpl; [discriminate|].
  destruct (Ascii.eqb c sep); [discriminate|].
  now destruct (split sep s).
Qed.

(** Joining the pieces with the separator gives the string back. *)
Lemma join_split (sep : ascii) (s : string) :
  String.concat (String sep EmptyString) (split sep s) = s.
Proof.
  induction s as [|c s IH]; [reflexivity|]. cbn [split].
  pose proof (split_not_nil sep s) as N.
  destruct (split sep s) as [|p ps] eqn:Sp; [congruence|].
  destruct (Ascii.eqb c sep) eqn:E.
  - apply Ascii.eqb_eq in E. subst c.
    change (String.concat (String sep "") ("" :: p :: ps))
      with (String sep (String.concat (String sep "") (p :: ps))).
    now rewrite IH.
  - destruct ps as [|p' ps].
    + cbn [String.concat] in *. now rewrite IH.
    + change (String.concat (String sep "") (String c p :: p' :: ps))
        with (String c (String.concat (String sep "") (p :: p' :: ps))).
      now rewrite IH.
Qed.

Lemma split_pieces (sep : ascii) (s : string) :
  Forall (fun piece => has_char sep piece = false) (split sep s).
Proof.
  induction s as [|c s IH]; [repeat constructor|]. simpl.
  destruct (Ascii.eqb c sep) eqn:E; [now constructor|].
  destruct (split sep s) as [|p ps]; [repeat constructor; simpl; now rewrite E|].
  inversion IH as [|? ? Hp Hps]; subst.
  constructor; [simpl; now rewrite E | exact Hps].
Qed.

Lemma split_clean (sep : ascii) (s : string) :
  has_char sep s = false -> split sep s = [s].
Proof.
  induction s as [|c s IH]; [reflexivity|]. simpl.
  intros H. apply orb_false_iff in H as [E H]. rewrite E, (IH H). reflexivity.
Qed.

Lemma split_once (sep : ascii) (w h : string) :
  has_char sep w = false -> has_char sep h = false ->
  split sep (w ++ String sep h) = [w; h].
Proof.
  intros Hw Hh. induction w as [|c w IH]; simpl.
  - now rewrite Ascii.eqb_refl, (split_clean sep h Hh).
  - simpl in Hw. apply orb_false_iff in Hw as [E Hw].
    now rewrite E, (IH Hw).
Qed.

(** X12.  [stream_video] of ef.py adds the parameters [width], [height],
    [resolution] and [size] to the upstream URL exactly when the
    lower-cased resolution has the form [w x h] with a single ['x'],
    whatever [w] and [h] are; the test for an empty resolution or ["auto"]
    changes nothing to that.  [width] and [height] carry [w] and [h],
    [resolution] and [size] the resolution as it was given. *)
Theorem size_params_split (resolution : string) :
  size_params resolution =
    match split "x" (lower resolution) with
    | [w; h] =>
        [("width=" ++ w)%string; ("height=" ++ h)%string;
         ("resolution=" ++ resolution)%string; ("size=" ++ resolution)%string]
    | _ => []
    end /\
  (forall w h,
     split "x" (lower resolution) = [w; h] <->
     lower resolution = (w ++ "x" ++ h)%string /\
     has_char "x" w = false /\ has_char "x" h = false).
Proof.
  split.
  - unfold size_params.
    destruct (String.eqb resolution "") eqn:E.
    + apply String.eqb_eq in E. now subst.
    + destruct (String.eqb (lower resolution) "auto") eqn:A; [|reflexivity].
      apply String.eqb_eq in A. now rewrite A.
  - intros w h. split.
    + intros H. pose proof (join_split "x" (lower resolution)) as J.
      pose proof (split_pieces "x" (lower resolution)) as P.
      rewrite H in J, P. cbn [String.concat] in J.
      inversion P as [|? ? Pw P']; subst. inversion P' as [|? ? Ph _]; subst.
      repeat split; [now symmetry | exact Pw | exact Ph].
    + intros (E & Hw & Hh). rewrite E. now apply split_once.
Qed.

Lemma size_params_split_witness :
  split "x" (lower "1280X720") = ["1280"; "720"].
Proof.
  destruct (size_params_split "1280X720") as [_ H].
  apply (H "1280" "720"). repeat split.
Defined.

End UrlExtras.

(** ** Further results on the direct proxy of fastapi_viewer.py *)

Module ProxyExtras.
Import FastapiProxy.

Lemma proxy_chunks_trace (fps_limit : option Q) (n : nat)
    (chunks : list bytes) :
  let evs := fst (proxy_chunks fps_limit n chunks) in
  yields evs = until_empty chunks /\
  Forall (fun ev => match ev with Notice _ => False | _ => True end) evs /\
  sleeps evs =
    match fps_limit with
    | Some f =>
        if truthy (Some f)
        then repeat (1 / f / 10)%Q
               (List.length (until_empty chunks)
                - (match n with O => 1 | _ => 0 end))%nat
        else []
    | None => []
    end.
Proof.
  cbv zeta. revert n. induction chunks as [|c chunks IH]; intros n.
  - repeat split; [constructor|]. destruct fps_limit as [f|]; [|reflexivity].
    now destruct (truthy (Some f)).
  - destruct c as [|b c].
    + repeat split; [constructor|]. destruct fps_limit as [f|]; [|reflexivity].
      now destruct (truthy (Some f)).
    + cbn [proxy_chunks until_empty]. specialize (IH (S n)).
      destruct (proxy_chunks fps_limit (S n) chunks) as [evs ex].
      destruct IH as (Y & N & S). cbn [fst] in *.
      assert (Y' : forall pre, yields pre = [] ->
                   yields (pre ++ Yield (b :: c) :: evs)
                   = (b :: c) :: until_empty chunks).
      { intros pre Hp. induction pre as [|ev pre IHp]; [cbn; now rewrite Y|].
        destruct ev as [d|d|t]; cbn in *;
          [now apply IHp | discriminate | now apply IHp]. }
      destruct fps_limit as [f|]; [destruct (truthy (Some f)) eqn:T|].
      * destruct n as [|n]; cbn [andb Nat.ltb Nat.leb].
        -- split; [now apply (Y' [])|]. split; [now constructor|].
           cbn [app sleeps List.length]. rewrite S. reflexivity.
        -- split; [now apply (Y' [Sleep _])|].
           split; [repeat constructor; exact N|].
           cbn [app sleeps List.length]. rewrite S. now rewrite !Nat.sub_0_r.
      * cbn [andb]. split; [now apply (Y' [])|]. split; [now constructor|].
        cbn [app sleeps]. exact S.
      * split; [now apply (Y' [])|]. split; [now constructor|].
        cbn [app sleeps]. exact S.
Qed.

(** X13.  The direct proxy of fastapi_viewer.py relays an upstream that
    answers 200 with a content type that is not HTML chunk by chunk: it
    yields every chunk that comes before the first empty one, unchanged and
    in order, whatever [fps_limit] is (the drop strategy is not read); with
    a non-zero [fps_limit] it sleeps [1 / fps_limit / 10] before every
    chunk but the first. *)
Theorem proxy_relays_every_chunk (fps_limit : option Q)
    (text_error : response -> option string) (resp : response) :
  status resp = 200 ->
  str_in "text/html" (lower (content_type resp)) = false ->
  yields (generate fps_limit text_error (GetOk resp)) = until_empty (body resp) /\
  sleeps (generate fps_limit text_error (GetOk resp)) =
    match fps_limit with
    | Some f =>
        if truthy (Some f)
        then repeat (1 / f / 10)%Q
               (List.length (until_empty (body resp)) - 1)%nat
        else []
    | None => []
    end.
Proof.
  intros S200 H. unfold generate. rewrite S200, H. cbn [Z.eqb Pos.eqb negb].
  destruct (proxy_chunks_trace fps_limit O (body resp)) as (Y & _ & S).
  destruct (proxy_chunks fps_limit O (body resp)) as [evs ex]. simpl fst in *.
  assert (A : forall m, yields (evs ++ [Notice m]) = yields evs /\
                        sleeps (evs ++ [Notice m]) = sleeps evs).
  { intros m. clear. induction evs as [|[d|d|t] evs [IH1 IH2]]; simpl;
      rewrite ?IH1, ?IH2; now split. }
  destruct (body_error resp) as [e|]; [destruct ex|]; try (now split).
  destruct (A ("Stream error: " ++ e)%string) as [-> ->]. now split.
Qed.

Lemma proxy_relays_every_chunk_witness :
  yields (generate (Some 30%Q) (fun _ => None)
            (mjpeg_upstream [[x01; x02]; [x03]; []; [x04]] None)) =
  until_empty [[x01; x02]; [x03]; []; [x04]].
Proof.
  destruct (proxy_relays_every_chunk (Some 30%Q) (fun _ => None)
              {| status := 200;
                 content_type_header :=
                   Some "multipart/x-mixed-replace; boundary=x";
                 body := [[x01; x02]; [x03]; []; [x04]];
                 body_error := None |}) as [H _].
  - reflexivity.
  - reflexivity.
  - exact H.
Defined.

End ProxyExtras.

(** ** Further results on the choice of an endpoint *)

Module SelectExtras.

Lemma webrtc_connect_skip (http : string -> get_result) (u : string)
    (eps : list string) :
  accepted (http u) = false ->
  WebrtcTrack.connect http (u :: eps) =
  let '(urls, r) := WebrtcTrack.connect http eps in (u :: urls, r).
Proof.
  intros H. cbn [WebrtcTrack.connect]. unfold accepted in H.
  destruct (http u) as [e|resp]; [reflexivity|].
  destruct (status resp =? 200); [|reflexivity].
  cbn [andb] in H. now rewrite H.
Qed.

Lemma cv_select_skip (http : string -> get_result) (u : string)
    (eps : list string) :
  cv_accepted (http u) = false ->
  CvStream.select http (u :: eps) =
  let '(urls, r) := CvStream.select http eps in (u :: urls, r).
Proof.
  intros H. cbn [CvStream.select]. unfold cv_accepted in H.
  destruct (http u) as [e|resp]; [reflexivity|].
  destruct (status resp =? 200); [|reflexivity].
  cbn [andb] in H. now rewrite H.
Qed.

Lemma webrtc_connect_first (http : string -> get_result)
    (pre : list string) (e : string) (post : list string) (resp : response) :
  (forall u, In u pre -> accepted (http u) = false) ->
  http e = GetOk resp -> accepted (http e) = true ->
  WebrtcTrack.connect http (pre ++ e :: post) = (pre ++ [e], Some (e, resp)).
Proof.
  intros Hpre He Ha. induction pre as [|u pre IH].
  - cbn [app WebrtcTrack.connect]. unfold accepted in Ha. rewrite He in *.
    apply andb_true_iff in Ha as [A1 A2]. now rewrite A1, A2.
  - change ((u :: pre) ++ e :: post) with (u :: (pre ++ e :: post)).
    rewrite (webrtc_connect_skip http u _ (Hpre u (or_introl eq_refl))).
    now rewrite (IH (fun v Hv => Hpre v (or_intror Hv))).
Qed.

Lemma webrtc_connect_none (http : string -> get_result) (eps : list string) :
  (forall u, In u eps -> accepted (http u) = false) ->
  WebrtcTrack.connect http eps = (eps, None).
Proof.
  induction eps as [|u eps IH]; intros H; [reflexivity|].
  rewrite (webrtc_connect_skip http u _ (H u (or_introl eq_refl))).
  now rewrite (IH (fun v Hv => H v (or_intror Hv))).
Qed.

Lemma cv_select_first (http : string -> get_result)
    (pre : list string) (e : string) (post : list string) (resp : response) :
  (forall u, In u pre -> cv_accepted (http u) = false) ->
  http e = GetOk resp -> cv_accepted (http e) = true ->
  CvStream.select http (pre ++ e :: post) = (pre ++ [e], Some (e, resp)).
Proof.
  intros Hpre He Ha. induction pre as [|u pre IH].
  - cbn [app CvStream.select]. unfold cv_accepted in Ha. rewrite He in *.
    apply andb_true_iff in Ha as [A1 A2]. now rewrite A1, A2.
  - change ((u :: pre) ++ e :: post) with (u :: (pre ++ e :: post)).
    rewrite (cv_select_skip http u _ (Hpre u (or_introl eq_refl))).
    now rewrite (IH (fun v Hv => Hpre v (or_intror Hv))).
Qed.

Lemma cv_select_none (http : string -> get_result) (eps : list string) :
  (forall u, In u eps -> cv_accepted (http u) = false) ->
  CvStream.select http eps = (eps, None).
Proof.
  induction eps as [|u eps IH]; intros H; [reflexivity|].
  rewrite (cv_select_skip http u _ (H u (or_introl eq_refl))).
  now rewrite (IH (fun v Hv => H v (or_intror Hv))).
Qed.

(** X14.  [connect_to_stream] of webrtc_viewer.py requests [/video],
    [/mjpegfeed] and [/] in this order and stops at the first that answers
    200 with an MJPEG content type: that response is the one kept, the
    candidates after it are not requested, and those before it all were.
    It returns [False], having requested all three, exactly when none
    answers so. *)
Theorem connect_to_stream_first (http : string -> get_result) (ip : string)
    (port : Z) :
  (forall pre e post resp,
     WebrtcTrack.endpoints ip port = pre ++ e :: post ->
     (forall u, In u pre -> accepted (http u) = false) ->
     http e = GetOk resp -> accepted (http e) = true ->
     WebrtcTrack.connect_to_stream http ip port = (pre ++ [e], Some (e, resp))) /\
  ((forall u, In u (WebrtcTrack.endpoints ip port) -> accepted (http u) = false) <->
   WebrtcTrack.connect_to_stream http ip port =
   (WebrtcTrack.endpoints ip port, None)) /\
  (forall urls e resp,
     WebrtcTrack.connect_to_stream http ip port = (urls, Some (e, resp)) ->
     http e = GetOk resp /\ accepted (http e) = true /\
     exists pre post,
       WebrtcTrack.endpoints ip port = pre ++ e :: post /\ urls = pre ++ [e]).
Proof.
  unfold WebrtcTrack.connect_to_stream.
  generalize (WebrtcTrack.endpoints ip port) as eps. intros eps.
  assert (Some_inv : forall eps urls e resp,
             WebrtcTrack.connect http eps = (urls, Some (e, resp)) ->
             http e = GetOk resp /\ accepted (http e) = true /\
             exists pre post, eps = pre ++ e :: post /\ urls = pre ++ [e]).
  { clear eps. induction eps as [|u eps IH]; intros urls e resp H;
      [discriminate|].
    cbn [WebrtcTrack.connect] in H.
    assert (Next : forall urls' r,
               WebrtcTrack.connect http eps = (urls', r) ->
               (u :: urls', r) = (urls, Some (e, resp)) ->
               http e = GetOk resp /\ accepted (http e) = true /\
               exists pre post, u :: eps = pre ++ e :: post /\ urls = pre ++ [e]).
    { intros urls' r Hc [= <- ->].
      destruct (IH _ _ _ Hc) as (G & A & pre & post & -> & ->).
      repeat split; try assumption. now exists (u :: pre), post. }
    destruct (WebrtcTrack.connect http eps) as [urls' r] eqn:Hc.
    destruct (http u) as [err|r0] eqn:Hu; [now apply (Next urls' r)|].
    destruct (status r0 =? 200) eqn:S; [|now apply (Next urls' r)].
    destruct (is_mjpeg (lower (content_type r0))) eqn:M;
      [|now apply (Next urls' r)].
    injection H as <- <- <-. repeat split.
    - exact Hu.
    - unfold accepted. now rewrite Hu, S, M.
    - now exists [], eps. }
  split; [|split].
  - intros pre e post resp -> Hpre He Ha. now apply webrtc_connect_first.
  - split; [apply webrtc_connect_none|].
    intros H u Hu. destruct (accepted (http u)) eqn:A; [|reflexivity].
    exfalso. apply in_split in Hu as (l1 & l2 & ->).
    assert (Ex : exists pre e post resp,
               l1 ++ u :: l2 = pre ++ e :: post /\
               (forall v, In v pre -> accepted (http v) = false) /\
               http e = GetOk resp /\ accepted (http e) = true).
    { clear H. revert u l2 A. induction l1 as [|v l1 IH]; intros u l2 A.
      - unfold accepted in A. destruct (http u) as [|resp] eqn:Hu; [discriminate|].
        exists [], u, l2, resp. repeat split; [now intros ? [] | exact Hu |].
        unfold accepted. now rewrite Hu.
      - destruct (accepted (http v)) eqn:Av.
        + unfold accepted in Av.
          destruct (http v) as [|resp] eqn:Hv; [discriminate|].
          exists [], v, (l1 ++ u :: l2), resp.
          repeat split; [now intros ? [] | exact Hv |].
          unfold accepted. now rewrite Hv.
        + destruct (IH u l2 A) as (pre & e & post & resp & E & P & G & Ae).
          exists (v :: pre), e, post, resp. simpl. rewrite E.
          repeat split; try assumption.
          intros w [<- | Hw]; [exact Av | now apply P]. }
    destruct Ex as (pre & e & post & resp & E & P & G & Ae).
    rewrite E, (webrtc_connect_first http pre e post resp P G Ae) in H.
    discriminate.
  - intros urls e resp H. now apply (Some_inv eps).
Qed.

Lemma connect_to_stream_first_witness :
  WebrtcTrack.connect_to_stream
    (serving "http://192.168.8.253:4747/mjpegfeed" [[x01]] None)
    "192.168.8.253" 4747 =
  (["http://192.168.8.253:4747/video"] ++ ["http://192.168.8.253:4747/mjpegfeed"],
   Some ("http://192.168.8.253:4747/mjpegfeed",
         {| status := 200;
            content_type_header := Some "multipart/x-mixed-replace; boundary=x";
            body := [[x01]]; body_error := None |})).
Proof.
  destruct (connect_to_stream_first
              (serving "http://192.168.8.253:4747/mjpegfeed" [[x01]] None)
              "192.168.8.253" 4747) as [H _].
  apply (H ["http://192.168.8.253:4747/video"]
           "http://192.168.8.253:4747/mjpegfeed"
           ["http://192.168.8.253:4747/"]).
  - reflexivity.
  - intros u [<- | []]. reflexivity.
  - reflexivity.
  - reflexivity.
Defined.

(** X15.  [stream_video] of cv.py requests its five URLs in order (the two
    [/video] URLs with the parameters of the quality, [/video],
    [/mjpegfeed], the bare address) and streams from the first that
    answers 200 with a content type containing [multipart] or [mjpeg],
    without requesting the ones after it; when none does, all five have
    been requested and the answer is a 502 whose text is
    [No MJPEG stream found. Tried: ] followed by the five URLs separated by
    [, ].  An unknown quality gets the URLs of ["medium"]. *)
Theorem cv_stream_video_answer (http : string -> get_result)
    (amd_gpu_enabled : bool) (ip port quality fps_arg : string)
    (buffer_size : Z) :
  let eps := CvStream.endpoints ip port quality fps_arg in
  let run := CvStream.stream_video http amd_gpu_enabled ip port quality
               fps_arg buffer_size in
  (forall pre e post resp,
     eps = pre ++ e :: post ->
     (forall u, In u pre -> cv_accepted (http u) = false) ->
     http e = GetOk resp -> cv_accepted (http e) = true ->
     fst run = pre ++ [e] /\
     exists chunk_size,
       snd run = CvStream.Streaming e resp (content_type resp) chunk_size) /\
  ((forall u, In u eps -> cv_accepted (http u) = false) ->
   run = (eps,
          CvStream.NotFound 502
            ("No MJPEG stream found. Tried: " ++ String.concat ", " eps))) /\
  List.length eps = 5%nat /\
  (dict_get CvStream.quality_params quality = None ->
   eps = CvStream.endpoints ip port "medium" fps_arg).
Proof.
  cbv zeta. unfold CvStream.stream_video. split; [|split; [|split]].
  - intros pre e post resp Heq Hpre He Ha.
    rewrite Heq, (cv_select_first http pre e post resp Hpre He Ha).
    split; [reflexivity|]. eexists. reflexivity.
  - intros H. now rewrite (cv_select_none http _ H).
  - reflexivity.
  - intros H. unfold CvStream.endpoints, CvStream.params. now rewrite H.
Qed.

Lemma cv_stream_video_answer_witness :
  CvStream.stream_video all_refused false "192.168.8.253" "4747" "high" "auto"
                        65536 =
  (CvStream.endpoints "192.168.8.253" "4747" "high" "auto",
   CvStream.NotFound 502
     ("No MJPEG stream found. Tried: "
      ++ String.concat ", "
           (CvStream.endpoints "192.168.8.253" "4747" "high" "auto"))).
Proof.
  destruct (cv_stream_video_answer all_refused false "192.168.8.253" "4747"
              "high" "auto" 65536) as (_ & H & _).
  apply H. intros u _. reflexivity.
Defined.

End SelectExtras.

(** ** Further results on the jitter buffer of cv.py *)

Module JitterExtras.
Import GenerateExtras CvStream.

Lemma subseq_trans {A : Type} (xs ys zs : list A) :
  subseq xs ys -> subseq ys zs -> subseq xs zs.
Proof.
  intros H1 H2. revert xs H1.
  induction H2 as [|z ys zs H2 IH|z ys zs H2 IH]; intros xs H1.
  - exact H1.
  - apply subseq_skip. now apply IH.
  - inversion H1 as [|? ? ? H|? ? ? H]; subst.
    + apply subseq_skip. now apply IH.
    + apply subseq_keep. now apply IH.
Qed.

Lemma outs_app (evs evs' : list event) :
  outs (evs ++ evs') = outs evs ++ outs evs'.
Proof. induction evs as [|[d|d] evs IH]; simpl; now rewrite ?IH. Qed.

Lemma outs_flush (cfg : smooth_config) (jb : list (bytes * Q * Q)) :
  outs (flush cfg jb) = map (fun x => fst (fst x)) jb.
Proof.
  induction jb as [|[[c t] k] jb IH]; [reflexivity|]. simpl. now rewrite IH.
Qed.

Lemma outs_final_flush (jb : list (bytes * Q * Q)) :
  outs (final_flush jb) = map (fun x => fst (fst x)) jb.
Proof.
  induction jb as [|[[c t] k] jb IH]; [reflexivity|]. simpl. now rewrite IH.
Qed.

(** The three ways in which the body of the loop can end. *)
Lemma step_cases (smoothing : string) (fi : Q) (s : state) (chunk : bytes)
    (t : Q) :
  let cfg := smooth_config_of smoothing in
  let pending := jitter_buffer s ++ [(chunk, t, chunk_size_kb chunk)] in
  step smoothing fi s chunk t = ([], None) \/
  (exists s',
     step smoothing fi s chunk t = ([], Some s') /\
     (jitter_buffer s' = pending \/ jitter_buffer s' = tl pending)) \/
  (exists s' d,
     step smoothing fi s chunk t =
       (flush cfg (jitter_buffer s) ++ [Out chunk; Nap d], Some s') /\
     jitter_buffer s' = []).
Proof.
  cbv zeta. unfold step.
  destruct (if (3 <=? _)%nat then _ else _) as [jit adaptive].
  destruct (Qltb _ _).
  - destruct jit as [j|]; [|now left]. right. left.
    eexists. split; [reflexivity|]. cbn [jitter_buffer].
    destruct (_ <? _)%nat; [now right | now left].
  - right. right. eexists. eexists. split; reflexivity.
Qed.

Lemma run_in_order (smoothing : string) (fi : Q) (error : option string)
    (chunks : list (bytes * Q)) (s : state) :
  subseq (outs (run smoothing fi s chunks error))
         (map (fun x => fst (fst x)) (jitter_buffer s) ++ data_chunks chunks).
Proof.
  revert s. induction chunks as [|[c t] chunks IH]; intros s.
  - cbn [run data_chunks map filter]. rewrite app_nil_r.
    destruct error; [apply subseq_nil_l|].
    rewrite outs_final_flush. apply subseq_refl.
  - destruct c as [|b c]; [apply IH|].
    cbn [run]. change (data_chunks ((b :: c, t) :: chunks))
      with ((b :: c) :: data_chunks chunks).
    destruct (step_cases smoothing fi s (b :: c) t)
      as [E | [(s' & E & B) | (s' & d & E & B)]]; rewrite E.
    + apply subseq_nil_l.
    + cbn [app]. eapply subseq_trans; [apply IH|].
      destruct B as [-> | ->].
      * rewrite map_app, <- app_assoc. apply subseq_refl.
      * destruct (jitter_buffer s) as [|x jb]; cbn [app tl map].
        -- apply subseq_skip, subseq_refl.
        -- apply subseq_skip. rewrite map_app, <- app_assoc.
           apply subseq_refl.
    + rewrite !outs_app, outs_flush. cbn [outs app]. rewrite <- app_assoc.
      apply subseq_app; [apply subseq_refl|]. cbn [app].
      apply subseq_keep. specialize (IH s'). now rewrite B in IH.
Qed.

(** X16.  In [generate] of cv.py the name [jitter] is bound only once three
    chunks have been timed.  When one of the first two non-empty chunks
    arrives sooner after the last chunk sent than the tolerance times the
    predicted interval, reading [jitter] raises: the generator ends there
    and yields nothing more, neither that chunk nor any later one. *)
Theorem early_chunk_ends_stream (smoothing : string) (fi : Q) (s : state)
    (chunk : bytes) (t : Q) (rest : list (bytes * Q))
    (error : option string) :
  chunk <> [] ->
  jitter s = None ->
  (List.length (frame_timestamps s) < 2)%nat ->
  (t - last_frame_time s
   < (fi - adaptive_delay s) * tolerance (smooth_config_of smoothing))%Q ->
  run smoothing fi s ((chunk, t) :: rest) error = [].
Proof.
  intros Hc Hj Hl Ht. destruct chunk as [|b c]; [congruence|].
  cbn [run]. unfold step.
  assert (L : (3 <=? List.length
                 (if (window (smooth_config_of smoothing)
                      <? List.length (frame_timestamps s ++ [t]))%nat
                  then tl (frame_timestamps s ++ [t])
                  else frame_timestamps s ++ [t]))%nat = false).
  { apply Nat.leb_gt.
    assert (List.length (frame_timestamps s ++ [t]) < 3)%nat
      by (rewrite length_app; simpl; lia).
    destruct (_ <? _)%nat; [|assumption].
    destruct (frame_timestamps s ++ [t]); simpl in *; lia. }
  rewrite L, Hj. apply TimeFacts.Qltb_lt in Ht. now rewrite Ht.
Qed.

Lemma early_chunk_ends_stream_witness :
  generate "ultra" (Some 24%Q) 1000
           [([x01; x02], (100001 # 100)%Q); ([x03], (100010 # 100)%Q)] None
  = [].
Proof.
  apply (early_chunk_ends_stream "ultra" (frame_interval 24)
           {| last_frame_time := 1000%Q; frame_timestamps := [];
              jitter := None; adaptive_delay := 0%Q; jitter_buffer := [] |}
           [x01; x02] (100001 # 100) [([x03], (100010 # 100)%Q)] None).
  - discriminate.
  - reflexivity.
  - simpl. lia.
  - reflexivity.
Defined.

(** X17.  [generate] of cv.py yields chunks as they are and in the order
    in which they arrived, none twice: what it yields is a subsequence of
    the non-empty chunks of the upstream body (a chunk is lost when the
    jitter buffer overflows, when [jitter] is unbound, or when the
    iteration raises while chunks are buffered). *)
Theorem jitter_buffer_keeps_order (smoothing : string)
    (target_fps : option Q) (start_time : Q) (chunks : list (bytes * Q))
    (error : option string) :
  subseq (outs (generate smoothing target_fps start_time chunks error))
         (data_chunks chunks).
Proof.
  unfold generate. destruct target_fps as [fps|]; [|apply subseq_nil_l].
  apply (run_in_order smoothing (frame_interval fps) error chunks
           {| last_frame_time := start_time; frame_timestamps := [];
              jitter := None; adaptive_delay := 0%Q; jitter_buffer := [] |}).
Qed.

End JitterExtras.

(** ** Further results on [recv] of webrtc_viewer.py *)

Module RecvExtras.
Import WebrtcViewer WebrtcRecv.

Lemma extract_jpeg_frame_buffer (frame_buffer chunk : bytes) :
  extract_jpeg_frame (frame_buffer ++ chunk) [] =
  extract_jpeg_frame frame_buffer chunk.
Proof. unfold extract_jpeg_frame. now rewrite app_nil_r. Qed.

Lemma extracted_not_empty (frame_buffer data f rest : bytes) :
  extract_jpeg_frame frame_buffer data = (Some f, rest) -> f <> [].
Proof.
  rewrite WebrtcFacts.extract_jpeg_frame_step.
  destruct (Ef.extract_step (frame_buffer ++ data)) as [[f' r]|] eqn:E;
    [|discriminate].
  intros [= <- <-].
  destruct (ExtractorExtras.extract_step_pieces _ _ _ E) as (g & a & _ & F & _).
  rewrite F. discriminate.
Qed.

Section Loop.
Variable lib : Ef.library.

Lemma read_loop_first (content : list bytes) (frame_buffer : bytes) :
  fst (fst (read_loop lib frame_buffer content)) =
  first_decodable lib
    (fst (extract_chunks frame_buffer (until_empty content))).
Proof.
  revert frame_buffer.
  induction content as [|c content IH]; intros frame_buffer; [reflexivity|].
  destruct c as [|b c]; [reflexivity|].
  cbn [read_loop until_empty extract_chunks].
  rewrite extract_jpeg_frame_buffer.
  destruct (extract_jpeg_frame frame_buffer (b :: c)) as [[f|] fb'] eqn:E.
  - pose proof (extracted_not_empty _ _ _ _ E) as N.
    specialize (IH fb').
    destruct (extract_chunks fb' (until_empty content)) as [frames rest].
    simpl fst in *. destruct f as [|x f]; [congruence|].
    cbn [first_decodable].
    destruct (Ef.imdecode lib (x :: f)); [reflexivity | exact IH].
  - specialize (IH fb').
    destruct (extract_chunks fb' (until_empty content)) as [frames rest].
    exact IH.
Qed.

End Loop.

(** X18.  [recv] of webrtc_viewer.py cuts at most one frame out of its
    buffer per chunk read and returns the picture of the first of these
    frames that decodes, converted to RGB; a frame that does not decode is
    discarded and reading goes on.  It returns the black frame exactly when
    none of the frames cut out before the first empty chunk (the end of the
    stream) decodes.  The frames cut out are the first frames of the byte
    stream read. *)
Theorem recv_first_decodable (lib : Ef.library)
    (cvt_color : Ef.image lib -> Ef.image lib) (frame_interval : Q)
    (tr : track) (clock : Q) (l : latency) :
  let frames :=
    fst (extract_chunks (frame_buffer tr) (until_empty (content tr))) in
  snd (fst (recv lib cvt_color frame_interval tr clock l)) =
    match first_decodable lib frames with
    | Some frame => Rgb (cvt_color frame)
    | None => Black
    end /\
  exists later,
    fst (Ef.drain (frame_buffer tr ++ List.concat (until_empty (content tr))))
    = frames ++ later.
Proof.
  cbv zeta. split.
  - rewrite <- read_loop_first. unfold recv.
    destruct (read_loop lib (frame_buffer tr) (content tr))
      as [[[frame|] fb'] rest]; [|reflexivity].
    simpl fst. destruct (Qltb 0 (last_frame_time tr)); [|reflexivity].
    destruct (Qltb _ _); reflexivity.
  - rewrite WebrtcFacts.extract_chunks_prefix.
    destruct (extract_chunks (frame_buffer tr) (until_empty (content tr)))
      as [frames rest].
    destruct (Ef.drain rest) as [later rest']. now exists later.
Qed.

End RecvExtras.

(** ** Further results on ultra_performance_viewer.py *)

Module UltraExtras.
Import GenerateExtras UltraViewer.


Lemma total_length_nonneg (xs : list bytes) : 0 <= total_length xs.
Proof.
  induction xs as [|x xs IH]; [reflexivity|].
  unfold total_length in *. simpl. lia.
Qed.


Section Account.
Variable http : string -> get_result.
Variable fps_limit : option Q.
Variable ds : string.
Variable lat : nat -> latency.



End Account.




End UltraExtras.

(** ** Results on the network scanners *)

Module FindExtras.
Import FindDroidcam.

Lemma append_cancel_l (s a b : string) :
  (s ++ a)%string = (s ++ b)%string -> a = b.
Proof.
  induction s as [|c s IH]; simpl; [trivial|]. intros [= H]. now apply IH.
Qed.

Lemma host_eq (base_ip : string) (i j : nat) :
  host base_ip i = host base_ip j -> i = j.
Proof.
  unfold host. intros H. apply append_cancel_l in H.
  apply (append_cancel_l ".") in H.
  pose proof (TranscodeResults.nat_of_str_of_nat i) as Hi.
  rewrite H, TranscodeResults.nat_of_str_of_nat in Hi. congruence.
Qed.

Lemma host_in (base_ip : string) (i : nat) (l : list nat) :
  existsb (String.eqb (host base_ip i)) (map (host base_ip) l) =
  existsb (Nat.eqb i) l.
Proof.
  induction l as [|j l IH]; [reflexivity|]. simpl. rewrite IH. f_equal.
  destruct (Nat.eqb i j) eqn:E.
  - apply Nat.eqb_eq in E. subst. apply String.eqb_refl.
  - apply String.eqb_neq. intros H. apply host_eq in H.
    apply Nat.eqb_neq in E. contradiction.
Qed.

(** The numbers of the hosts in the order in which they are tested. *)
Lemma all_ips_hosts (base_ip : string) :
  all_ips base_ip =
  map (host base_ip)
      (priority_hosts
       ++ filter (fun i => negb (existsb (Nat.eqb i) priority_hosts))
                 (seq 1 254)).
Proof.
  unfold all_ips, regular_ips, priority_ips.
  rewrite map_app, filter_map_swap. f_equal. f_equal.
  apply filter_ext. intros i. now rewrite host_in.
Qed.

Lemma priority_hosts_once :
  NoDup priority_hosts /\
  forall i, In i priority_hosts -> In i (seq 1 254).
Proof.
  split.
  - unfold priority_hosts.
    repeat (constructor; [simpl; intuition discriminate|]). constructor.
  - intros i H. apply in_seq. unfold priority_hosts in H. simpl in H.
    intuition lia.
Qed.

Lemma hosts_permutation :
  Permutation
    (priority_hosts
     ++ filter (fun i => negb (existsb (Nat.eqb i) priority_hosts))
               (seq 1 254))
    (seq 1 254).
Proof.
  destruct priority_hosts_once as [N R].
  apply NoDup_Permutation.
  - apply NoDup_app; [exact N | apply NoDup_filter, seq_NoDup |].
    intros i Hi Hf. apply filter_In in Hf as [_ Hf].
    apply negb_true_iff in Hf.
    assert (existsb (Nat.eqb i) priority_hosts = true); [|congruence].
    apply existsb_exists. exists i. split; [exact Hi | apply Nat.eqb_refl].
  - apply seq_NoDup.
  - intros i. rewrite in_app_iff, filter_In. split.
    + intros [H | [H _]]; [now apply R | exact H].
    + intros H.
      destruct (existsb (Nat.eqb i) priority_hosts) eqn:E.
      * left. apply existsb_exists in E as (j & Hj & Ej).
        apply Nat.eqb_eq in Ej. now subst.
      * right. now split.
Qed.

Lemma NoDup_map_host (base_ip : string) (l : list nat) :
  NoDup l -> NoDup (map (host base_ip) l).
Proof.
  induction 1 as [|i l Hi Hl IH]; simpl; constructor; [|exact IH].
  intros H. apply in_map_iff in H as (j & Hj & Hin).
  apply host_eq in Hj. now subst.
Qed.

(** X21.  [scan_network] of find_droidcam.py tests every address
    [base_ip.1] to [base_ip.254] exactly once: the list it scans is a
    rearrangement of these 254 addresses without repetition, that begins
    with the eleven priority addresses. *)
Theorem scan_tests_each_host_once (base_ip : string) :
  Permutation (all_ips base_ip) (map (host base_ip) (seq 1 254)) /\
  NoDup (all_ips base_ip) /\
  List.length (all_ips base_ip) = 254%nat /\
  firstn 11 (all_ips base_ip) = priority_ips base_ip.
Proof.
  assert (P : Permutation (all_ips base_ip) (map (host base_ip) (seq 1 254))).
  { rewrite all_ips_hosts. apply Permutation_map, hosts_permutation. }
  split; [exact P|]. split; [|split].
  - apply (Permutation_NoDup (Permutation_sym P)).
    apply NoDup_map_host, seq_NoDup.
  - rewrite (Permutation_length P), length_map, length_seq. reflexivity.
  - unfold all_ips.
    change 11%nat with (List.length (priority_ips base_ip) + 0)%nat.
    rewrite firstn_app_2. simpl firstn. apply app_nil_r.
Qed.

Lemma substring_head (c : ascii) (r s : string) (m k : nat) :
  substring m (S k) s = String c r -> has_char c s = true.
Proof.
  revert m. induction s as [|a s IH]; intros m H.
  - destruct m; discriminate.
  - destruct m as [|m]; simpl in H |- *.
    + injection H as -> _. now rewrite Ascii.eqb_refl.
    + rewrite (IH m H). apply orb_true_r.
Qed.

Lemma str_in_needs_head (c : ascii) (needle hay : string) :
  has_char c hay = false -> str_in (String c needle) hay = false.
Proof.
  intros H. unfold str_in.
  destruct (index 0 (String c needle) hay) as [m|] eqn:E; [|reflexivity].
  apply index_correct1 in E. simpl String.length in E.
  apply substring_head in E. congruence.
Qed.

Lemma has_char_app (c : ascii) (s s' : string) :
  has_char c (s ++ s') = has_char c s || has_char c s'.
Proof.
  induction s as [|a s IH]; [reflexivity|]. simpl. rewrite IH.
  apply orb_assoc.
Qed.

Lemma digits_only (d : Decimal.uint) :
  has_char "S" (NilEmpty.string_of_uint d) = false.
Proof. induction d; simpl; assumption || reflexivity. Qed.

Lemma status_code_text (status_code : Z) :
  str_in "SUCCESS" ("HTTP " ++ str_of_Z status_code) = false.
Proof.
  apply str_in_needs_head. rewrite has_char_app. simpl has_char at 1.
  unfold str_of_Z, NilEmpty.string_of_int.
  destruct (Z.to_int status_code) as [d|d]; simpl; apply digits_only.
Qed.

Lemma error_text (e : string) :
  str_in "SUCCESS" ("Error: " ++ e) = str_in "SUCCESS" e.
Proof.
  unfold str_in. simpl.
  destruct (index 0 "SUCCESS" e); reflexivity.
Qed.

Lemma test_ip_status (head : string -> head_result) (ip : string) :
  fst (test_ip head ip) = ip /\
  str_in "SUCCESS" (snd (test_ip head ip)) =
  reports_success (head ("http://" ++ ip ++ ":4747/video")%string).
Proof.
  unfold test_ip.
  destruct (head ("http://" ++ ip ++ ":4747/video")%string) as [| |e|c];
    cbn [fst snd reports_success]; try (split; reflexivity).
  - split; [reflexivity | apply error_text].
  - destruct (c =? 200); cbn [fst snd]; split; try reflexivity.
    apply status_code_text.
Qed.

(** X22.  [scan_network] returns the first address, in the order of the
    scan, whose [HEAD] request for [/video] on port 4747 is answered with
    status 200 or raises an exception (other than a timeout or a connection
    error) whose text contains [SUCCESS]; it returns [None] when there is
    none. *)
Theorem scan_returns_first_found (head : string -> head_result)
    (base_ip : string) :
  scan_network head base_ip =
  List.find (fun ip =>
               reports_success
                 (head ("http://" ++ ip ++ ":4747/video")%string))
            (all_ips base_ip).
Proof.
  unfold scan_network, found_devices.
  generalize (all_ips base_ip) as ips.
  induction ips as [|ip ips IH]; [reflexivity|].
  cbn [map flat_map List.find].
  destruct (test_ip_status head ip) as [F S].
  destruct (test_ip head ip) as [ip' status]. cbn [fst snd] in F, S.
  subst ip'. rewrite S.
  destruct (reports_success _); [reflexivity | exact IH].
Qed.

Section Advanced.
Import FindAdvanced.
Variable head : string -> get_result.
Variable ip : string.
Variable port : Z.

Lemma test_endpoints_skip (pre rest : list string) :
  (forall e, In e pre ->
     answers_200 (head ("http://" ++ ip ++ ":" ++ str_of_Z port ++ e)%string)
     = false) ->
  test_endpoints head ip port (pre ++ rest) =
  test_endpoints head ip port rest.
Proof.
  induction pre as [|e pre IH]; intros H; [reflexivity|].
  cbn [app test_endpoints].
  pose proof (H e (or_introl eq_refl)) as He. unfold answers_200 in He.
  destruct (head _) as [err|resp].
  - apply IH. intros e' He'. apply H. now right.
  - rewrite He. apply IH. intros e' He'. apply H. now right.
Qed.

Lemma test_endpoints_none (eps : list string) :
  test_endpoints head ip port eps = None <->
  (forall e, In e eps ->
     answers_200 (head ("http://" ++ ip ++ ":" ++ str_of_Z port ++ e)%string)
     = false).
Proof.
  induction eps as [|e eps IH]; cbn [test_endpoints].
  - split; [intros _ e [] | reflexivity].
  - split.
    + intros H e' [<- | He'].
      * unfold answers_200. destruct (head _) as [err|resp]; [reflexivity|].
        destruct (Env.status resp =? 200); [discriminate | reflexivity].
      * destruct (head ("http://" ++ ip ++ ":" ++ str_of_Z port ++ e)%string)
          as [err|resp].
        -- now apply IH.
        -- destruct (Env.status resp =? 200); [discriminate|]. now apply IH.
    + intros H. pose proof (H e (or_introl eq_refl)) as He.
      unfold answers_200 in He.
      assert (T : test_endpoints head ip port eps = None).
      { apply IH. intros e' He'. apply H. now right. }
      destruct (head _) as [err|resp]; [exact T|]. now rewrite He.
Qed.

End Advanced.

(** X23.  [test_droidcam_ip] of find_droidcam_advanced.py asks for
    [/video], [/mjpegfeed], [/] and [/cam/1/stream] in this order and
    reports the first that answers 200, whatever its content type:
    [MJPEG_READY] when the lower-cased content type contains
    [multipart/x-mixed-replace], else [HTML_RESPONSE] when it contains
    [text/html], else [UNKNOWN_CONTENT]; the paths after it are not judged.
    It returns [None] exactly when no path answers 200. *)
Theorem first_answer_is_reported (head : string -> get_result) (ip : string)
    (port : Z) :
  (forall pre e post resp,
     FindAdvanced.endpoints = pre ++ e :: post ->
     (forall u, In u pre ->
        answers_200
          (head ("http://" ++ ip ++ ":" ++ str_of_Z port ++ u)%string)
        = false) ->
     head ("http://" ++ ip ++ ":" ++ str_of_Z port ++ e)%string = GetOk resp ->
     status resp = 200 ->
     FindAdvanced.test_droidcam_ip head ip port =
     Some {| FindAdvanced.ip := ip; FindAdvanced.port := port;
             FindAdvanced.endpoint := e;
             FindAdvanced.status :=
               if str_in "multipart/x-mixed-replace"
                         (lower (content_type resp))
               then "MJPEG_READY"
               else if str_in "text/html" (lower (content_type resp))
               then "HTML_RESPONSE"
               else "UNKNOWN_CONTENT";
             FindAdvanced.content_type := lower (content_type resp);
             FindAdvanced.url :=
               ("http://" ++ ip ++ ":" ++ str_of_Z port ++ e)%string |}) /\
  (FindAdvanced.test_droidcam_ip head ip port = None <->
   forall u, In u FindAdvanced.endpoints ->
     answers_200 (head ("http://" ++ ip ++ ":" ++ str_of_Z port ++ u)%string)
     = false).
Proof.
  unfold FindAdvanced.test_droidcam_ip. split.
  - intros pre e post resp Heq Hpre He S200.
    rewrite Heq, (test_endpoints_skip head ip port pre (e :: post) Hpre).
    cbn [FindAdvanced.test_endpoints]. rewrite He, S200. reflexivity.
  - apply test_endpoints_none.
Qed.

Lemma first_answer_is_reported_witness :
  option_map FindAdvanced.status
    (FindAdvanced.test_droidcam_ip
       (fun u =>
          if String.eqb u "http://192.168.8.253:4747/video"
          then plain_answer 200 "text/html; charset=utf-8"
          else plain_answer 200 "multipart/x-mixed-replace; boundary=x")
       "192.168.8.253" 4747)
  = Some "HTML_RESPONSE".
Proof.
  destruct (first_answer_is_reported
              (fun u =>
                 if String.eqb u "http://192.168.8.253:4747/video"
                 then plain_answer 200 "text/html; charset=utf-8"
                 else plain_answer 200 "multipart/x-mixed-replace; boundary=x")
              "192.168.8.253" 4747) as [H _].
  rewrite (H [] "/video" ["/mjpegfeed"; "/"; "/cam/1/stream"]
             {| Env.status := 200;
                content_type_header := Some "text/html; charset=utf-8";
                body := []; body_error := None |}).
  - reflexivity.
  - reflexivity.
  - intros u [].
  - reflexivity.
  - reflexivity.
Defined.

End FindExtras.

(** ** The size of the jitter buffer of cv.py *)

Module BufferExtras.
Import CvStream.

(** X24.  The body of the loop of [generate] of cv.py keeps the jitter
    buffer within [max_buffer + 2] chunks (it is empty at the start), and
    yields at most [max_buffer + 3] chunks for one chunk received: the
    buffered ones and the chunk itself. *)
Theorem jitter_buffer_is_bounded (smoothing : string) (fi : Q) (s s' : state)
    (chunk : bytes) (t : Q) (evs : list event) :
  let bound := (max_buffer (smooth_config_of smoothing) + 2)%nat in
  (List.length (jitter_buffer s) <= bound)%nat ->
  step smoothing fi s chunk t = (evs, Some s') ->
  (List.length (jitter_buffer s') <= bound)%nat /\
  (List.length (outs evs) <= bound + 1)%nat.
Proof.
  cbv zeta. intros B. unfold step.
  destruct (if (3 <=? _)%nat then _ else _) as [jit adaptive].
  destruct (Qltb _ _).
  - destruct jit as [j|]; [|discriminate]. intros [= <- <-].
    cbn [jitter_buffer outs List.length]. split; [|lia].
    set (dyn := (max_buffer (smooth_config_of smoothing)
                 + (if Qltb (2 # 100) j then 2 else 0))%nat).
    assert (D : (dyn <= max_buffer (smooth_config_of smoothing) + 2)%nat)
      by (unfold dyn; destruct (Qltb (2 # 100) j); lia).
    destruct (dyn <? _)%nat eqn:L.
    + destruct (jitter_buffer s); simpl in *; [lia|].
      rewrite length_app. simpl. rewrite length_app in L. simpl in L. lia.
    + apply Nat.ltb_ge in L. lia.
  - intros [= <- <-]. cbn [jitter_buffer List.length]. split; [lia|].
    rewrite JitterExtras.outs_app, JitterExtras.outs_flush, length_app,
      length_map.
    simpl. lia.
Qed.

Lemma jitter_buffer_is_bounded_witness :
  (List.length
     (outs (fst (step "basic" (1 / 24)
                   {| last_frame_time := 1000%Q; frame_timestamps := [];
                      jitter := None; adaptive_delay := 0%Q;
                      jitter_buffer := [([x01], 999%Q, (1 # 1024)%Q)] |}
                   [x02] 1001)))
   <= max_buffer (smooth_config_of "basic") + 2 + 1)%nat.
Proof.
  destruct (jitter_buffer_is_bounded "basic" (1 / 24)
              {| last_frame_time := 1000%Q; frame_timestamps := [];
                 jitter := None; adaptive_delay := 0%Q;
                 jitter_buffer := [([x01], 999%Q, (1 # 1024)%Q)] |}
              {| last_frame_time := 1001%Q; frame_timestamps := [1001%Q];
                 jitter := None; adaptive_delay := 0%Q;
                 jitter_buffer := [] |}
              [x02] 1001
              (fst (step "basic" (1 / 24)
                      {| last_frame_time := 1000%Q; frame_timestamps := [];
                         jitter := None; adaptive_delay := 0%Q;
                         jitter_buffer := [([x01], 999%Q, (1 # 1024)%Q)] |}
                      [x02] 1001))) as [_ H].
  - simpl. lia.
  - reflexivity.
  - exact H.
Defined.

End BufferExtras.
